(** * DeliveryMap: marker lifecycle and camera synchronisation

    A shallow embedding of the two revisions of the [DeliveryMap] React
    component of the repository,

    - [src/components/map/delivery-map.tsx]  (module [DeliveryMapTsx]) and
    - [src/unnamed/part_000]                 (module [Part000]),

    over a small model of the part of maplibre-gl and of React that the
    component uses: map and marker objects with the calls made on them, refs,
    one state variable, and effects re-run when their dependency arrays
    change. *)

From Stdlib Require Import ZArith QArith String.
From stdpp Require Import prelude strings.

Local Open Scope string_scope.
Local Open Scope list_scope.

(** ** Values passed as props *)

(** A JavaScript number.  The component only stores, copies and compares
    coordinates ([Object.is] in dependency arrays), so numbers are taken in
    units of 1e-4 degree: [12.9716] is [129716]. *)
Definition number : Type := Z.

(** The fields of a [{ lat: number; lng: number }] object. *)
Record Coords := mkCoords { lat : number; lng : number }.

(** A [{ lat, lng }] object handed in as a prop: its fields together with
    the identity of the object, which is what React compares when the object
    itself is listed in a dependency array.  When no object is changed in
    place between renders ([unmutated] below), two renders pass the same
    object exactly when the two values are equal. *)
Record Location := mkLocation { ident : nat; coords :> Coords }.

(** [DeliveryMapProps] ([className] only reaches the returned markup). *)
Record DeliveryMapProps := mkProps {
  restaurantLocation : option Location;
  deliveryLocation : option Location;
  partnerLocation : option Location
}.

#[global] Instance Coords_eq_dec : EqDecision Coords.
Proof. solve_decision. Defined.
#[global] Instance Location_eq_dec : EqDecision Location.
Proof. solve_decision. Defined.
#[global] Instance DeliveryMapProps_eq_dec : EqDecision DeliveryMapProps.
Proof. solve_decision. Defined.

(** The three marker categories of the specification. *)
Inductive Role := restaurant | destination | partner.

#[global] Instance Role_eq_dec : EqDecision Role.
Proof. solve_decision. Defined.

(** The coordinate prop that belongs to a role. *)
Definition locationOf (r : Role) (p : DeliveryMapProps) : option Location :=
  match r with
  | restaurant => restaurantLocation p
  | destination => deliveryLocation p
  | partner => partnerLocation p
  end.

(** ** Errors raised by the component code *)

Inductive Exn := TypeError.

Definition Result : Type → Type := sum Exn.

#[global] Instance Result_ret : MRet Result := λ A a, inr a.

#[global] Instance Result_bind : MBind Result := λ A B k c,
  match c with
  | inl e => inl e
  | inr a => k a
  end.

Definition ret {A} (a : A) : Result A := mret a.

(** [o.f] on a value that may be [undefined]: a [TypeError] when it is. *)
Definition member {A} (f : Location → A) (o : option Location) : Result A :=
  match o with
  | Some l => ret (f l)
  | None => inl TypeError
  end.

(** [o?.f]: [undefined] when [o] is. *)
Definition optMember {A} (f : Location → A) (o : option Location) : option A :=
  match o with
  | Some l => Some (f l)
  | None => None
  end.

(** Truthiness of an optional object: objects are truthy, [undefined] is not. *)
Definition truthy {A} (o : option A) : bool :=
  match o with
  | Some _ => true
  | None => false
  end.

Fixpoint foldM {A B} (f : A → B → Result A) (a : A) (l : list B) : Result A :=
  match l with
  | [] => ret a
  | b :: l' => a' ← f a b; foldM f a' l'
  end.

(** ** The map library, as far as the component uses it *)

(** The calls are modelled for coordinates the library accepts: it throws for
    a latitude outside [-90, 90], which none of the calls below does (see
    [validProps]).  The camera fields of a map hold what was asked of it; the
    library clamps the centre to the Web-Mercator band, and the user can pan,
    so the properties about where the camera goes are stated on the calls
    that were made, not on [camCenter]. *)

Module MapLibre.

(** [[lng, lat]] arrays. *)
Definition LngLat : Type := number * number.

(** The [div] built for a marker: its class name and, from its inner
    markup, the diameter in pixels and the background colour. *)
Record Element := mkElement {
  className : string;
  diameter : Z;
  background : string
}.

(** Where the camera is.  [fitBounds] frames a bounding box; the centre and
    zoom that result depend on the size of the container, which the
    component does not know, so they are kept as the request that was made. *)
Inductive CenterAt :=
| CenterLngLat (c : LngLat)
| CenterOfBounds (bounds : list LngLat) (padding : Z).

Inductive ZoomAt :=
| ZoomLevel (z : Z)
| ZoomOfBounds (bounds : list LngLat) (padding : Z) (maxZoom : Z).

(** The only listener the component registers. *)
Inductive Listener := setMapLoadedTrue.

Record MapObj := mkMap {
  camCenter : CenterAt;
  camZoom : ZoomAt;
  controls : list string;
  onLoad : list Listener;
  loaded : bool;       (* "load" has fired *)
  removed : bool       (* [remove()] was called *)
}.

Record MarkerObj := mkMarker {
  element : Element;
  lngLat : option LngLat;
  onMap : option nat
}.

(** Options of [easeTo] / [flyTo]; a property left out is [None]. *)
Record CameraOptions := mkCameraOptions {
  center : option LngLat;
  zoom : option Z;
  duration : option Z;
  easing : option (Q → Q);
  essential : option bool;
  speed : option Q
}.

(** Calls made on the library, in the order they happen. *)
Inductive Call :=
| NewMap (m : nat) (c : LngLat) (z : Z)
| AddControl (m : nat) (position : string)
| On (m : nat) (event : string)
| Remove (m : nat)
| NewMarker (k : nat) (el : Element)
| SetLngLat (k : nat) (ll : LngLat)
| AddTo (k : nat) (m : nat)
| EaseTo (m : nat) (o : CameraOptions)
| FlyTo (m : nat) (o : CameraOptions)
| FitBounds (m : nat) (bounds : list LngLat) (padding : Z) (maxZoom : Z).

(** Objects are named by their position in the list of objects created. *)
Record World := mkWorld {
  maps : list MapObj;
  markers : list MarkerObj;
  calls : list Call
}.

Definition empty : World := mkWorld [] [] [].

Definition withMap (m : nat) (f : MapObj → MapObj) (c : Call) (w : World) : World :=
  mkWorld (alter f m (maps w)) (markers w) (calls w ++ [c]).

Definition withMarker (k : nat) (f : MarkerObj → MarkerObj) (c : Call) (w : World) : World :=
  mkWorld (maps w) (alter f k (markers w)) (calls w ++ [c]).

(** [new maplibregl.Map({ ..., center, zoom })] *)
Definition newMap (c : LngLat) (z : Z) (w : World) : nat * World :=
  let m := length (maps w) in
  (m, mkWorld (maps w ++ [mkMap (CenterLngLat c) (ZoomLevel z) [] [] false false])
              (markers w) (calls w ++ [NewMap m c z])).

(** [map.addControl(new NavigationControl(...), position)] *)
Definition addControl (m : nat) (position : string) : World → World :=
  withMap m (λ o, mkMap (camCenter o) (camZoom o) (controls o ++ [position])
                        (onLoad o) (loaded o) (removed o))
          (AddControl m position).

(** [map.on("load", listener)] *)
Definition on (m : nat) (l : Listener) : World → World :=
  withMap m (λ o, mkMap (camCenter o) (camZoom o) (controls o)
                        (onLoad o ++ [l]) (loaded o) (removed o))
          (On m "load").

(** [map.remove()] *)
Definition remove (m : nat) : World → World :=
  withMap m (λ o, mkMap (camCenter o) (camZoom o) (controls o)
                        (onLoad o) (loaded o) true)
          (Remove m).

(** [new maplibregl.Marker({ element })] *)
Definition newMarker (el : Element) (w : World) : nat * World :=
  let k := length (markers w) in
  (k, mkWorld (maps w) (markers w ++ [mkMarker el None None])
              (calls w ++ [NewMarker k el])).

(** [marker.setLngLat(ll)] *)
Definition setLngLat (k : nat) (ll : LngLat) : World → World :=
  withMarker k (λ o, mkMarker (element o) (Some ll) (onMap o)) (SetLngLat k ll).

(** [marker.addTo(map)] *)
Definition addTo (k : nat) (m : nat) : World → World :=
  withMarker k (λ o, mkMarker (element o) (lngLat o) (Some m)) (AddTo k m).

(** The camera once a transition with options [o] has run: a property that
    is left out keeps its current value, and the centre is the one asked
    for (the library may clamp it). *)
Definition moveCamera (o : CameraOptions) (b : MapObj) : MapObj :=
  mkMap (match center o with Some c => CenterLngLat c | None => camCenter b end)
        (match zoom o with Some z => ZoomLevel z | None => camZoom b end)
        (controls b) (onLoad b) (loaded b) (removed b).

(** [map.easeTo(o)] *)
Definition easeTo (m : nat) (o : CameraOptions) : World → World :=
  withMap m (moveCamera o) (EaseTo m o).

(** [map.flyTo(o)] *)
Definition flyTo (m : nat) (o : CameraOptions) : World → World :=
  withMap m (moveCamera o) (FlyTo m o).

(** [map.fitBounds(bounds, { padding, maxZoom })] *)
Definition fitBounds (m : nat) (bounds : list LngLat) (padding maxZoom : Z)
  : World → World :=
  withMap m (λ b, mkMap (CenterOfBounds bounds padding)
                        (ZoomOfBounds bounds padding maxZoom)
                        (controls b) (onLoad b) (loaded b) (removed b))
          (FitBounds m bounds padding maxZoom).

(** What the environment does to a map: the "load" signal, and the user
    zooming with the navigation control or a gesture.  Panning, which moves
    the centre, is not among the events. *)
Definition fireLoad (m : nat) (w : World) : World :=
  mkWorld (alter (λ o, mkMap (camCenter o) (camZoom o) (controls o)
                             (onLoad o) true (removed o)) m (maps w))
          (markers w) (calls w).

Definition userZoom (m : nat) (z : Z) (w : World) : World :=
  mkWorld (alter (λ o, mkMap (camCenter o) (ZoomLevel z) (controls o)
                             (onLoad o) (loaded o) (removed o)) m (maps w))
          (markers w) (calls w).

(** *** Markers of a role *)

Definition roleBackground (r : Role) : string :=
  match r with
  | restaurant => "hsl(25 95% 48%)"
  | destination => "#10b981"
  | partner => "#3b82f6"
  end.

Definition roleDiameter (r : Role) : Z :=
  match r with
  | restaurant => 36
  | destination => 36
  | partner => 40
  end%Z.

(** A marker carries the styling of role [r]. *)
Definition styledFor (r : Role) (k : MarkerObj) : bool :=
  bool_decide (background (element k) = roleBackground r)
  && bool_decide (diameter (element k) = roleDiameter r).

(** A marker is on a map that has not been removed. *)
Definition placed (w : World) (k : MarkerObj) : bool :=
  match onMap k with
  | Some m =>
      match maps w !! m with
      | Some o => negb (removed o)
      | None => false
      end
  | None => false
  end.

(** All marker objects ever built for role [r], and the live ones. *)
Definition markersOf (r : Role) (w : World) : list MarkerObj :=
  filter (λ k, styledFor r k = true) (markers w).

Definition liveMarkersOf (r : Role) (w : World) : list MarkerObj :=
  filter (λ k, placed w k = true) (markersOf r w).

(** Marker and camera operations, as opposed to the set-up of the map. *)
Definition isOperation (c : Call) : bool :=
  match c with
  | NewMarker _ _ | SetLngLat _ _ | AddTo _ _
  | EaseTo _ _ | FlyTo _ _ | FitBounds _ _ _ _ => true
  | NewMap _ _ _ | AddControl _ _ | On _ _ | Remove _ => false
  end.

Definition operations (w : World) : list Call :=
  filter (λ c, isOperation c = true) (calls w).

(** The map an operation acts on, when it names one. *)
Definition operatesOn (c : Call) : option nat :=
  match c with
  | AddTo _ m | EaseTo m _ | FlyTo m _ | FitBounds m _ _ _ => Some m
  | _ => None
  end.

Definition mapLoadedAt (w : World) (m : nat) : bool :=
  match maps w !! m with
  | Some o => loaded o
  | None => false
  end.

End MapLibre.

(** ** What happens to a mounted component *)

Inductive Event :=
| Render (p : DeliveryMapProps)   (* the parent renders it again with props [p] *)
| MapLoad (m : nat)               (* map [m] signals "load" *)
| UserZoom (m : nat) (z : Z)      (* the user zooms map [m] to level [z] *)
| Unmount.

(** ** The inputs the model covers *)

(** maplibre-gl converts every coordinate it is handed (the centre of the
    [Map] constructor, of [easeTo] and of [flyTo], the argument of
    [setLngLat] and of [LngLatBounds.extend]) to a [LngLat], and that
    conversion throws for a latitude outside [-90, 90].  The calls of
    [MapLibre] have no such error, so a property that promises a result is
    stated for props whose latitudes the library accepts: between
    [-900000] and [900000] in units of 1e-4 degree. *)
Definition inRange (o : option Location) : bool :=
  match o with
  | Some l => (-900000 <=? lat l)%Z && (lat l <=? 900000)%Z
  | None => true
  end.

Definition validProps (p : DeliveryMapProps) : bool :=
  inRange (restaurantLocation p) && inRange (deliveryLocation p)
  && inRange (partnerLocation p).

Definition validEvent (e : Event) : bool :=
  match e with
  | Render p => validProps p
  | _ => true
  end.

Definition validRun (p : DeliveryMapProps) (es : list Event) : bool :=
  validProps p && forallb validEvent es.

(** React compares the entries of a dependency array with [Object.is],
    which tells [0] from [-0]; [Z] has one zero.  A property that rests on
    two coordinates being equal is stated for coordinates other than zero,
    where equality in [Z] is [Object.is]. *)
Definition nonZero (o : option Location) : bool :=
  match o with
  | Some l => negb (lat l =? 0)%Z && negb (lng l =? 0)%Z
  | None => true
  end.

Definition noZero (p : DeliveryMapProps) : bool :=
  nonZero (restaurantLocation p) && nonZero (deliveryLocation p)
  && nonZero (partnerLocation p).

(** A location object listed in a dependency array is compared by identity,
    for which [ident] stands.  The locations that part_000 lists are the
    restaurant and the destination; they are not changed in place when, among
    all of them that a mount is rendered with, the same identity comes with
    the same fields. *)
Definition staticLocations (p : DeliveryMapProps) : list Location :=
  option_list (restaurantLocation p) ++ option_list (deliveryLocation p).

Definition renderedLocations (p : DeliveryMapProps) (es : list Event) : list Location :=
  staticLocations p
  ++ flat_map (λ e, match e with Render p' => staticLocations p' | _ => [] end) es.

Definition unmutated (ls : list Location) : bool :=
  forallb (λ a, forallb (λ b, implb (ident a =? ident b)%nat (bool_decide (a = b))) ls) ls.

(** ** [src/unnamed/part_000] *)

Module Part000.
Import MapLibre.

(** The dependency arrays of the second and third effect (the first is
    [[]]). *)
Record Deps := mkDeps {
  staticDeps : bool * option Location * option Location;
  partnerDeps : bool * option number * option number
}.

#[global] Instance Deps_eq_dec : EqDecision Deps.
Proof. solve_decision. Defined.

(** What one call of the function component computes. *)
Record Rendered := mkRendered {
  center : Coords;
  deps : Deps
}.

(** The refs and the state variable of one instance of the component, the
    props and dependency arrays of its last render, and the objects of the
    map library. *)
Record State := mkState {
  world : World;
  mapContainer : bool;               (* the [div] is attached *)
  map : option nat;
  partnerMarkerRef : option nat;
  restaurantMarkerRef : option nat;
  deliveryMarkerRef : option nat;
  mapLoaded : bool;
  props : DeliveryMapProps;
  lastDeps : Deps;
  cleanup : bool;                    (* the first effect returned its cleanup *)
  mounted : bool
}.

Definition setWorld (w : World) (s : State) : State :=
  mkState w (mapContainer s) (map s) (partnerMarkerRef s) (restaurantMarkerRef s)
          (deliveryMarkerRef s) (mapLoaded s) (props s) (lastDeps s) (cleanup s) (mounted s).

Definition setMap (m : option nat) (s : State) : State :=
  mkState (world s) (mapContainer s) m (partnerMarkerRef s) (restaurantMarkerRef s)
          (deliveryMarkerRef s) (mapLoaded s) (props s) (lastDeps s) (cleanup s) (mounted s).

Definition setPartnerMarkerRef (k : option nat) (s : State) : State :=
  mkState (world s) (mapContainer s) (map s) k (restaurantMarkerRef s)
          (deliveryMarkerRef s) (mapLoaded s) (props s) (lastDeps s) (cleanup s) (mounted s).

Definition setRestaurantMarkerRef (k : option nat) (s : State) : State :=
  mkState (world s) (mapContainer s) (map s) (partnerMarkerRef s) k
          (deliveryMarkerRef s) (mapLoaded s) (props s) (lastDeps s) (cleanup s) (mounted s).

Definition setDeliveryMarkerRef (k : option nat) (s : State) : State :=
  mkState (world s) (mapContainer s) (map s) (partnerMarkerRef s) (restaurantMarkerRef s)
          k (mapLoaded s) (props s) (lastDeps s) (cleanup s) (mounted s).

Definition setCleanup (b : bool) (s : State) : State :=
  mkState (world s) (mapContainer s) (map s) (partnerMarkerRef s) (restaurantMarkerRef s)
          (deliveryMarkerRef s) (mapLoaded s) (props s) (lastDeps s) b (mounted s).

Definition setMounted (b : bool) (s : State) : State :=
  mkState (world s) (mapContainer s) (map s) (partnerMarkerRef s) (restaurantMarkerRef s)
          (deliveryMarkerRef s) (mapLoaded s) (props s) (lastDeps s) (cleanup s) b.

(** The render that was committed: state variable, props, dependency arrays. *)
Definition setRendered (l : bool) (p : DeliveryMapProps) (d : Deps) (s : State) : State :=
  mkState (world s) (mapContainer s) (map s) (partnerMarkerRef s) (restaurantMarkerRef s)
          (deliveryMarkerRef s) l p d (cleanup s) (mounted s).

(** The ref that holds the marker of a role. *)
Definition markerRef (r : Role) (s : State) : option nat :=
  match r with
  | restaurant => restaurantMarkerRef s
  | destination => deliveryMarkerRef s
  | partner => partnerMarkerRef s
  end.

Definition defaultCenter : Coords := mkCoords 129716%Z 775946%Z.

(** The marker elements: only [innerHTML] is set. *)
Definition restaurantEl : Element := mkElement "" 36%Z "hsl(25 95% 48%)".
Definition deliveryEl : Element := mkElement "" 36%Z "#10b981".
Definition partnerEl : Element := mkElement "" 40%Z "#3b82f6".

(** The function component: [center] and the dependency arrays. *)
Definition DeliveryMap (p : DeliveryMapProps) (mapLoaded : bool) : Result Rendered :=
  let center :=
    match restaurantLocation p with
    | Some l => coords l
    | None => defaultCenter
    end in
  ret (mkRendered center
         (mkDeps (mapLoaded, restaurantLocation p, deliveryLocation p)
                 (mapLoaded, optMember lat (partnerLocation p),
                             optMember lng (partnerLocation p)))).

(** 1. Initialize Map *)
Definition initializeMap (center : Coords) (s : State) : Result State :=
  if negb (mapContainer s) || truthy (map s) then ret s
  else
    let '(m, w) := newMap (lng center, lat center) 13%Z (world s) in
    let w := addControl m "top-right" w in
    let w := on m setMapLoadedTrue w in
    ret (setCleanup true (setMap (Some m) (setWorld w s))).

(** The cleanup of the first effect. *)
Definition removeMap (s : State) : State :=
  let s :=
    match map s with
    | Some m => setWorld (remove m (world s)) s
    | None => s
    end in
  setMap None s.

(** 2. Update Static Markers *)
Definition updateStaticMarkers (mapLoaded : bool) (p : DeliveryMapProps) (s : State)
  : Result State :=
  match map s with
  | None => ret s
  | Some m =>
    if negb mapLoaded then ret s
    else
      s ← (if truthy (restaurantLocation p) then
             match restaurantMarkerRef s with
             | None =>
                 let '(k, w) := newMarker restaurantEl (world s) in
                 x ← member lng (restaurantLocation p);
                 y ← member lat (restaurantLocation p);
                 ret (setRestaurantMarkerRef (Some k)
                        (setWorld (addTo k m (setLngLat k (x, y) w)) s))
             | Some k =>
                 x ← member lng (restaurantLocation p);
                 y ← member lat (restaurantLocation p);
                 ret (setWorld (setLngLat k (x, y) (world s)) s)
             end
           else ret s);
      if truthy (deliveryLocation p) then
        match deliveryMarkerRef s with
        | None =>
            let '(k, w) := newMarker deliveryEl (world s) in
            x ← member lng (deliveryLocation p);
            y ← member lat (deliveryLocation p);
            ret (setDeliveryMarkerRef (Some k)
                   (setWorld (addTo k m (setLngLat k (x, y) w)) s))
        | Some k =>
            x ← member lng (deliveryLocation p);
            y ← member lat (deliveryLocation p);
            ret (setWorld (setLngLat k (x, y) (world s)) s)
        end
      else ret s
  end.

(** The options of the [easeTo] call. *)
Definition trackingOptions (c : LngLat) : CameraOptions :=
  mkCameraOptions (Some c) None (Some 1000%Z) (Some (λ t, t)) (Some true) None.

(** 3. Update Partner Marker (Live Tracking) *)
Definition updatePartnerMarker (mapLoaded : bool) (p : DeliveryMapProps) (s : State)
  : Result State :=
  match map s with
  | None => ret s
  | Some m =>
    if negb mapLoaded || negb (truthy (partnerLocation p)) then ret s
    else
      s ← match partnerMarkerRef s with
          | Some k =>
              x ← member lng (partnerLocation p);
              y ← member lat (partnerLocation p);
              ret (setWorld (setLngLat k (x, y) (world s)) s)
          | None =>
              let '(k, w) := newMarker partnerEl (world s) in
              x ← member lng (partnerLocation p);
              y ← member lat (partnerLocation p);
              ret (setPartnerMarkerRef (Some k)
                     (setWorld (addTo k m (setLngLat k (x, y) w)) s))
          end;
      x ← member lng (partnerLocation p);
      y ← member lat (partnerLocation p);
      ret (setWorld (easeTo m (trackingOptions (x, y)) (world s)) s)
  end.

(** The effects of a commit, in the order of the source: on the first
    render all of them, afterwards those whose dependency array changed. *)
Definition commit (first : bool) (r : Rendered) (mapLoaded : bool)
    (p : DeliveryMapProps) (s : State) : Result State :=
  let old := lastDeps s in
  s ← (if first then initializeMap (center r) s else ret s);
  s ← (if first || bool_decide (staticDeps old ≠ staticDeps (deps r))
       then updateStaticMarkers mapLoaded p s else ret s);
  s ← (if first || bool_decide (partnerDeps old ≠ partnerDeps (deps r))
       then updatePartnerMarker mapLoaded p s else ret s);
  ret (setRendered mapLoaded p (deps r) s).

(** A render with state [mapLoaded] and props [p], and its commit. *)
Definition render (first : bool) (mapLoaded : bool) (p : DeliveryMapProps) (s : State)
  : Result State :=
  r ← DeliveryMap p mapLoaded;
  commit first r mapLoaded p s.

(** Before the first render: nothing exists. *)
Definition unmountedState (p : DeliveryMapProps) : State :=
  mkState MapLibre.empty false None None None None false p
          (mkDeps (false, None, None) (false, None, None)) false false.

(** Mounting: the first render; the [div] is attached before the effects run. *)
Definition mount (p : DeliveryMapProps) : Result State :=
  r ← DeliveryMap p false;
  let s := unmountedState p in
  let s := mkState (world s) true (map s) (partnerMarkerRef s) (restaurantMarkerRef s)
                   (deliveryMarkerRef s) (mapLoaded s) (props s) (lastDeps s)
                   (cleanup s) true in
  commit true r false p s.

(** [setMapLoaded(b)]: a new render when the state changes. *)
Definition setMapLoaded (b : bool) (s : State) : Result State :=
  if negb (mounted s) || bool_decide (mapLoaded s = b) then ret s
  else render false b (props s) s.

Definition listener (s : State) (l : Listener) : Result State :=
  match l with
  | setMapLoadedTrue => setMapLoaded true s
  end.

Definition step (s : State) (e : Event) : Result State :=
  match e with
  | Render p =>
      if mounted s then render false (mapLoaded s) p s else ret s
  | MapLoad m =>
      match maps (world s) !! m with
      | Some o =>
          if loaded o || removed o then ret s
          else foldM listener (setWorld (fireLoad m (world s)) s) (onLoad o)
      | None => ret s
      end
  | UserZoom m z =>
      match maps (world s) !! m with
      | Some o =>
          if removed o then ret s else ret (setWorld (userZoom m z (world s)) s)
      | None => ret s
      end
  | Unmount =>
      if mounted s then
        ret (setMounted false (if cleanup s then removeMap s else s))
      else ret s
  end.

(** One mount: the first render with props [p], then the events [es]. *)
Definition run (p : DeliveryMapProps) (es : list Event) : Result State :=
  s ← mount p; foldM step s es.

End Part000.

(** ** [src/components/map/delivery-map.tsx] *)

Module DeliveryMapTsx.
Import MapLibre.

(** The dependency arrays of the four effects. *)
Record Deps := mkDeps {
  initDeps : number * number;
  markerDeps : bool * option number * option number * option number * option number;
  partnerDeps : bool * number * number;
  boundsDeps : bool * option number * option number * option number * option number
}.

#[global] Instance Deps_eq_dec : EqDecision Deps.
Proof. solve_decision. Defined.

Record Rendered := mkRendered {
  center : Coords;
  deps : Deps
}.

Record State := mkState {
  world : World;
  mapContainer : bool;
  map : option nat;
  partnerMarker : option nat;
  mapLoaded : bool;
  props : DeliveryMapProps;
  lastDeps : Deps;
  cleanup : bool;
  mounted : bool
}.

Definition setWorld (w : World) (s : State) : State :=
  mkState w (mapContainer s) (map s) (partnerMarker s) (mapLoaded s) (props s)
          (lastDeps s) (cleanup s) (mounted s).

Definition setMap (m : option nat) (s : State) : State :=
  mkState (world s) (mapContainer s) m (partnerMarker s) (mapLoaded s) (props s)
          (lastDeps s) (cleanup s) (mounted s).

Definition setPartnerMarker (k : option nat) (s : State) : State :=
  mkState (world s) (mapContainer s) (map s) k (mapLoaded s) (props s)
          (lastDeps s) (cleanup s) (mounted s).

Definition setCleanup (b : bool) (s : State) : State :=
  mkState (world s) (mapContainer s) (map s) (partnerMarker s) (mapLoaded s) (props s)
          (lastDeps s) b (mounted s).

Definition setMounted (b : bool) (s : State) : State :=
  mkState (world s) (mapContainer s) (map s) (partnerMarker s) (mapLoaded s) (props s)
          (lastDeps s) (cleanup s) b.

Definition setRendered (l : bool) (p : DeliveryMapProps) (d : Deps) (s : State) : State :=
  mkState (world s) (mapContainer s) (map s) (partnerMarker s) l p d
          (cleanup s) (mounted s).

Definition defaultCenter : Coords := mkCoords 129716%Z 775946%Z.

(** The marker elements: [className] and [innerHTML] are set. *)
Definition restaurantEl : Element := mkElement "restaurant-marker" 36%Z "hsl(25 95% 48%)".
Definition deliveryEl : Element := mkElement "delivery-marker" 36%Z "#10b981".
Definition partnerEl : Element := mkElement "partner-marker" 40%Z "#3b82f6".

(** [partnerLocation || restaurantLocation || defaultCenter] *)
Definition centerOf (p : DeliveryMapProps) : Coords :=
  match partnerLocation p with
  | Some l => coords l
  | None =>
      match restaurantLocation p with
      | Some l => coords l
      | None => defaultCenter
      end
  end.

(** The function component: [center] and the dependency arrays, evaluated
    in the order of the [useEffect] calls. *)
Definition DeliveryMap (p : DeliveryMapProps) (mapLoaded : bool) : Result Rendered :=
  let center := centerOf p in
  let d1 := (lat center, lng center) in
  let d2 := (mapLoaded, optMember lat (restaurantLocation p),
                        optMember lng (restaurantLocation p),
                        optMember lat (deliveryLocation p),
                        optMember lng (deliveryLocation p)) in
  plat ← member lat (partnerLocation p);
  plng ← member lng (partnerLocation p);
  let d3 := (mapLoaded, plat, plng) in
  let d4 := (mapLoaded, optMember lat (restaurantLocation p),
                        optMember lng (restaurantLocation p),
                        optMember lat (deliveryLocation p),
                        optMember lng (deliveryLocation p)) in
  ret (mkRendered center (mkDeps d1 d2 d3 d4)).

(** Initialize map *)
Definition initializeMap (center : Coords) (s : State) : Result State :=
  if negb (mapContainer s) then ret (setCleanup false s)
  else
    let '(m, w) := newMap (lng center, lat center) 14%Z (world s) in
    let w := addControl m "top-right" w in
    let w := on m setMapLoadedTrue w in
    ret (setCleanup true (setMap (Some m) (setWorld w s))).

(** The cleanup of the first effect. *)
Definition removeMap (s : State) : State :=
  match map s with
  | Some m => setMap None (setWorld (remove m (world s)) s)
  | None => s
  end.

(** Update Markers *)
Definition updateMarkers (mapLoaded : bool) (p : DeliveryMapProps) (s : State)
  : Result State :=
  match map s with
  | None => ret s
  | Some m =>
    if negb mapLoaded then ret s
    else
      s ← (if truthy (restaurantLocation p) then
             let '(k, w) := newMarker restaurantEl (world s) in
             x ← member lng (restaurantLocation p);
             y ← member lat (restaurantLocation p);
             ret (setWorld (addTo k m (setLngLat k (x, y) w)) s)
           else ret s);
      if truthy (deliveryLocation p) then
        let '(k, w) := newMarker deliveryEl (world s) in
        x ← member lng (deliveryLocation p);
        y ← member lat (deliveryLocation p);
        ret (setWorld (addTo k m (setLngLat k (x, y) w)) s)
      else ret s
  end.

(** The options of the [flyTo] call. *)
Definition trackingOptions (c : LngLat) : CameraOptions :=
  mkCameraOptions (Some c) None None None None (Some (1 # 2)%Q).

(** Update Partner Marker (Live Tracking) *)
Definition updatePartnerMarker (mapLoaded : bool) (p : DeliveryMapProps) (s : State)
  : Result State :=
  match map s with
  | None => ret s
  | Some m =>
    if negb mapLoaded || negb (truthy (partnerLocation p)) then ret s
    else
      s ← match partnerMarker s with
          | Some k =>
              x ← member lng (partnerLocation p);
              y ← member lat (partnerLocation p);
              ret (setWorld (setLngLat k (x, y) (world s)) s)
          | None =>
              let '(k, w) := newMarker partnerEl (world s) in
              x ← member lng (partnerLocation p);
              y ← member lat (partnerLocation p);
              ret (setPartnerMarker (Some k)
                     (setWorld (addTo k m (setLngLat k (x, y) w)) s))
          end;
      x ← member lng (partnerLocation p);
      y ← member lat (partnerLocation p);
      ret (setWorld (flyTo m (trackingOptions (x, y)) (world s)) s)
  end.

(** [bounds.extend([l.lng, l.lat]); count++] when [l] is there. *)
Definition extend (o : option Location) (b : list LngLat * nat)
  : Result (list LngLat * nat) :=
  if truthy o then
    x ← member lng o;
    y ← member lat o;
    ret (fst b ++ [(x, y)], S (snd b))
  else ret b.

(** Fit bounds *)
Definition fitBoundsEffect (mapLoaded : bool) (p : DeliveryMapProps) (s : State)
  : Result State :=
  match map s with
  | None => ret s
  | Some m =>
    if negb mapLoaded then ret s
    else
      b ← extend (restaurantLocation p) ([], 0);
      b ← extend (deliveryLocation p) b;
      b ← extend (partnerLocation p) b;
      if bool_decide (0 < snd b) then
        ret (setWorld (fitBounds m (fst b) 80%Z 15%Z (world s)) s)
      else ret s
  end.

(** The effects of a commit: the cleanup of an effect that runs again
    comes first, then the effects in the order of the source. *)
Definition commit (first : bool) (r : Rendered) (mapLoaded : bool)
    (p : DeliveryMapProps) (s : State) : Result State :=
  let old := lastDeps s in
  let again := negb first && bool_decide (initDeps old ≠ initDeps (deps r)) in
  let s := if again && cleanup s then removeMap s else s in
  s ← (if first || again then initializeMap (center r) s else ret s);
  s ← (if first || bool_decide (markerDeps old ≠ markerDeps (deps r))
       then updateMarkers mapLoaded p s else ret s);
  s ← (if first || bool_decide (partnerDeps old ≠ partnerDeps (deps r))
       then updatePartnerMarker mapLoaded p s else ret s);
  s ← (if first || bool_decide (boundsDeps old ≠ boundsDeps (deps r))
       then fitBoundsEffect mapLoaded p s else ret s);
  ret (setRendered mapLoaded p (deps r) s).

Definition render (first : bool) (mapLoaded : bool) (p : DeliveryMapProps) (s : State)
  : Result State :=
  r ← DeliveryMap p mapLoaded;
  commit first r mapLoaded p s.

Definition unmountedState (p : DeliveryMapProps) : State :=
  mkState MapLibre.empty false None None false p
          (mkDeps (0, 0) (false, None, None, None, None) (false, 0, 0)
                  (false, None, None, None, None))%Z
          false false.

Definition mount (p : DeliveryMapProps) : Result State :=
  r ← DeliveryMap p false;
  let s := unmountedState p in
  let s := mkState (world s) true (map s) (partnerMarker s) (mapLoaded s) (props s)
                   (lastDeps s) (cleanup s) true in
  commit true r false p s.

Definition setMapLoaded (b : bool) (s : State) : Result State :=
  if negb (mounted s) || bool_decide (mapLoaded s = b) then ret s
  else render false b (props s) s.

Definition listener (s : State) (l : Listener) : Result State :=
  match l with
  | setMapLoadedTrue => setMapLoaded true s
  end.

Definition step (s : State) (e : Event) : Result State :=
  match e with
  | Render p =>
      if mounted s then render false (mapLoaded s) p s else ret s
  | MapLoad m =>
      match maps (world s) !! m with
      | Some o =>
          if loaded o || removed o then ret s
          else foldM listener (setWorld (fireLoad m (world s)) s) (onLoad o)
      | None => ret s
      end
  | UserZoom m z =>
      match maps (world s) !! m with
      | Some o =>
          if removed o then ret s else ret (setWorld (userZoom m z (world s)) s)
      | None => ret s
      end
  | Unmount =>
      if mounted s then
        ret (setMounted false (if cleanup s then removeMap s else s))
      else ret s
  end.

Definition run (p : DeliveryMapProps) (es : list Event) : Result State :=
  s ← mount p; foldM step s es.

End DeliveryMapTsx.

(** ** Notions used to state the properties *)

Section Handles.
Import MapLibre.

(** The marker objects of a list that carry the styling of role [r]. *)
Definition styled (r : Role) (ms : list MarkerObj) : list MarkerObj :=
  filter (λ k, styledFor r k = true) ms.

(** A ref is the handle of role [r] over the markers [ms]: when it is set
    it names a marker styled for [r], which is the only such marker; when
    it is not set there is no such marker. *)
Definition Handle (ms : list MarkerObj) (r : Role) (ref : option nat) : Prop :=
  match ref with
  | Some k => (∃ o, ms !! k = Some o ∧ styledFor r o = true) ∧ length (styled r ms) = 1
  | None => styled r ms = []
  end.

Definition isNewMap (c : Call) : bool :=
  match c with NewMap _ _ _ => true | _ => false end.

Definition isRemove (c : Call) : bool :=
  match c with Remove _ => true | _ => false end.

(** How often a map object was constructed, and how often one was removed. *)
Definition mapCreations (w : World) : nat :=
  length (filter (λ c, isNewMap c = true) (calls w)).

Definition mapRemovals (w : World) : nat :=
  length (filter (λ c, isRemove c = true) (calls w)).

(** Every operation that names a map was made on a map that had signalled
    "load". *)
Definition operationsAfterLoad (w : World) : Prop :=
  ∀ c m, c ∈ operations w → operatesOn c = Some m → mapLoadedAt w m = true.


(** The calls that ask the camera of a map to move, in the order they were
    made. *)
Definition isCamera (c : Call) : bool :=
  match c with
  | EaseTo _ _ | FlyTo _ _ | FitBounds _ _ _ _ => true
  | _ => false
  end.

Definition cameraCalls (w : World) : list Call :=
  filter (λ c, isCamera c = true) (calls w).

(** The zoom of map [m]. *)
Definition cameraZoom (w : World) (m : nat) : option ZoomAt :=
  camZoom <$> maps w !! m.

Definition cameraCenter (w : World) (m : nat) : option CenterAt :=
  camCenter <$> maps w !! m.

(** The props of the last render among the first render with [p] and the
    events [es]. *)
Definition latestProps (p : DeliveryMapProps) (es : list Event) : DeliveryMapProps :=
  foldl (λ q e, match e with Render p' => p' | _ => q end) p es.

(** No coordinate is ever supplied for role [r]. *)
Definition neverSupplied (r : Role) (p : DeliveryMapProps) (es : list Event) : Prop :=
  locationOf r p = None
  ∧ Forall (λ e, match e with Render p' => locationOf r p' = None | _ => True end) es.

(** Events that come from the parent or the user, not from the map. *)
Definition beforeLoad (e : Event) : Prop :=
  match e with
  | Render _ | UserZoom _ _ => True
  | MapLoad _ | Unmount => False
  end.

End Handles.

Module Part000Summary.
Import MapLibre Part000.

Definition elementOf (r : Role) : Element :=
  match r with
  | restaurant => restaurantEl
  | destination => deliveryEl
  | partner => partnerEl
  end.

Definition setMarkerRef (r : Role) (k : option nat) (s : State) : State :=
  match r with
  | restaurant => setRestaurantMarkerRef k s
  | destination => setDeliveryMarkerRef k s
  | partner => setPartnerMarkerRef k s
  end.

(** The marker object a role's ref points to. *)
Definition markerState (r : Role) (s : State) : option MarkerObj :=
  match markerRef r s with
  | Some k => markers (world s) !! k
  | None => None
  end.

(** A marker after [setLngLat(ll)]. *)
Definition reposition (ll : LngLat) (o : MarkerObj) : MarkerObj :=
  mkMarker (element o) (Some ll) (onMap o).

(** The dependency arrays of a render. *)
Definition depsOf (l : bool) (p : DeliveryMapProps) : Deps :=
  mkDeps (l, restaurantLocation p, deliveryLocation p)
         (l, optMember lat (partnerLocation p), optMember lng (partnerLocation p)).

(** The create-or-reposition block of a role, which the source spells out
    once per role. *)
Definition place (r : Role) (m : nat) (l : Location) (s : State) : State :=
  match markerRef r s with
  | None =>
      let '(k, w) := newMarker (elementOf r) (world s) in
      setMarkerRef r (Some k) (setWorld (addTo k m (setLngLat k (lng l, lat l) w)) s)
  | Some k => setWorld (setLngLat k (lng l, lat l) (world s)) s
  end.

Definition placeIf (r : Role) (m : nat) (o : option Location) (s : State) : State :=
  match o with
  | Some l => place r m l s
  | None => s
  end.

Definition track (m : nat) (o : option Location) (s : State) : State :=
  match o with
  | Some l =>
      let s := place partner m l s in
      setWorld (easeTo m (trackingOptions (lng l, lat l)) (world s)) s
  | None => s
  end.

(** What the second and the third effect do. *)
Definition staticStep (l : bool) (p : DeliveryMapProps) (s : State) : State :=
  match map s with
  | Some m =>
      if l then placeIf destination m (deliveryLocation p)
                  (placeIf restaurant m (restaurantLocation p) s)
      else s
  | None => s
  end.

Definition partnerStep (l : bool) (p : DeliveryMapProps) (s : State) : State :=
  match map s with
  | Some m => if l then track m (partnerLocation p) s else s
  | None => s
  end.

(** The state after the effects of a render that is not the first. *)
Definition rerendered (l : bool) (p : DeliveryMapProps) (s : State) : State :=
  let d := depsOf l p in
  let s1 :=
    if bool_decide (staticDeps (lastDeps s) ≠ staticDeps d)
    then staticStep l p s else s in
  let s2 :=
    if bool_decide (partnerDeps (lastDeps s) ≠ partnerDeps d)
    then partnerStep l p s1 else s1 in
  setRendered l p d s2.

(** The state right after mounting. *)
Definition mountedState (p : DeliveryMapProps) : State :=
  let c := match restaurantLocation p with Some l => coords l | None => defaultCenter end in
  mkState (mkWorld [mkMap (CenterLngLat (lng c, lat c)) (ZoomLevel 13) ["top-right"]
                          [setMapLoadedTrue] false false]
                   []
                   [NewMap 0 (lng c, lat c) 13; AddControl 0 "top-right"; On 0 "load"])
          true (Some 0) None None None false p
          (mkDeps (false, restaurantLocation p, deliveryLocation p)
                  (false, optMember lat (partnerLocation p), optMember lng (partnerLocation p)))
          true true.

(** Every ref is the handle of its role. *)
Definition Handles (s : State) : Prop :=
  ∀ r, Handle (markers (world s)) r (markerRef r s).

(** What holds of every state of a mount; [l] is the value of [mapLoaded]
    that the effects being run were rendered with. *)
Record WF (l : bool) (s : State) : Prop := mkWF {
  wf_maps : ∃ o, maps (world s) = [o] ∧ onLoad o = [setMapLoadedTrue]
                 ∧ (l = true → loaded o = true)
                 ∧ (loaded o = false → operations (world s) = [])
                 ∧ removed o = negb (mounted s);
  wf_map : map s = if mounted s then Some 0 else None;
  wf_cleanup : cleanup s = true;
  wf_handle : ∀ r, Handle (markers (world s)) r (markerRef r s);
  wf_onMap : Forall (λ o, onMap o = Some 0) (markers (world s));
  wf_ops : Forall (λ c, ∀ m, operatesOn c = Some m → m = 0) (calls (world s));
  wf_created : mapCreations (world s) = 1;
  wf_removed : mapRemovals (world s) = if mounted s then 0 else 1
}.

(** How a step treats the ref and the marker of a role: it leaves them as
    they are, or it runs the create-or-reposition block with location [l]. *)
Definition unchanged (r : Role) (s s' : State) : Prop :=
  markerRef r s' = markerRef r s ∧ markerState r s' = markerState r s.

Definition placedAt (r : Role) (m : nat) (l : Location) (s s' : State) : Prop :=
  match markerRef r s with
  | Some k =>
      markerRef r s' = Some k
      ∧ ∃ o, markerState r s = Some o
             ∧ markerState r s' = Some (reposition (lng l, lat l) o)
  | None =>
      (∃ k, markerRef r s' = Some k)
      ∧ markerState r s' = Some (mkMarker (elementOf r) (Some (lng l, lat l)) (Some m))
  end.

Definition synced (r : Role) (m : nat) (o : option Location) (runs : bool)
    (s s' : State) : Prop :=
  match o with
  | Some l => if runs then placedAt r m l s s' else unchanged r s s'
  | None => unchanged r s s'
  end.

(** The dependency array that mentions a role's location changed. *)
Definition changed (r : Role) (l : bool) (p : DeliveryMapProps) (s : State) : bool :=
  match r with
  | partner => bool_decide (partnerDeps (lastDeps s) ≠ partnerDeps (depsOf l p))
  | _ => bool_decide (staticDeps (lastDeps s) ≠ staticDeps (depsOf l p))
  end.

(** The map object the [map] ref points to. *)
Definition mapInstance (s : State) : option MapObj :=
  match map s with
  | Some m => maps (world s) !! m
  | None => None
  end.

(** [setMapLoaded(b)], and a whole step, as functions. *)
Definition afterSetMapLoaded (b : bool) (s : State) : State :=
  if negb (mounted s) || bool_decide (mapLoaded s = b) then s
  else rerendered b (props s) s.

Definition afterListener (s : State) (l : Listener) : State :=
  match l with
  | setMapLoadedTrue => afterSetMapLoaded true s
  end.

Definition afterStep (s : State) (e : Event) : State :=
  match e with
  | Render p => if mounted s then rerendered (mapLoaded s) p s else s
  | MapLoad m =>
      match maps (world s) !! m with
      | Some o =>
          if loaded o || removed o then s
          else foldl afterListener (setWorld (fireLoad m (world s)) s) (onLoad o)
      | None => s
      end
  | UserZoom m z =>
      match maps (world s) !! m with
      | Some o => if removed o then s else setWorld (userZoom m z (world s)) s
      | None => s
      end
  | Unmount =>
      if mounted s then setMounted false (if cleanup s then removeMap s else s) else s
  end.

(** The invariant of a mount. *)
Definition Inv (s : State) : Prop :=
  WF (mapLoaded s) s ∧ lastDeps s = depsOf (mapLoaded s) (props s).

End Part000Summary.

(** ** Notions for the further properties *)

(** The zoom level the user chose last on map 0, starting from [z]. *)
Definition lastZoom (z : Z) (es : list Event) : Z :=
  foldl (λ z e, match e with UserZoom 0 z' => z' | _ => z end) z es.

(** The coordinates the fit-bounds effect of delivery-map.tsx collects:
    restaurant, destination, partner, each when present. *)
Definition boundsOf (p : DeliveryMapProps) : list MapLibre.LngLat :=
  match restaurantLocation p with Some l => [(lng l, lat l)] | None => [] end
  ++ match deliveryLocation p with Some l => [(lng l, lat l)] | None => [] end
  ++ match partnerLocation p with Some l => [(lng l, lat l)] | None => [] end.

(** The coordinates of the two static roles, as the dependency arrays of
    delivery-map.tsx see them. *)
Definition staticCoords (p : DeliveryMapProps) : option Coords * option Coords :=
  (coords <$> restaurantLocation p, coords <$> deliveryLocation p).

(** Some render of a mount lacks the partner location: the first one, or a
    later one that comes before the unmount. *)
Fixpoint rendersWithoutPartner (es : list Event) : bool :=
  match es with
  | [] => false
  | Render p :: es' => negb (truthy (partnerLocation p)) || rendersWithoutPartner es'
  | Unmount :: _ => false
  | _ :: es' => rendersWithoutPartner es'
  end.

Definition lacksPartner (p : DeliveryMapProps) (es : list Event) : bool :=
  negb (truthy (partnerLocation p)) || rendersWithoutPartner es.

(** ** [delivery-map.tsx]: what the effects do, as functions *)

Module DeliveryMapTsxSummary.
Import MapLibre DeliveryMapTsx.

(** A block of the marker effect: with a location, a new marker with element
    [el] is built, positioned and put on map [m]. *)
Definition addMarker (el : Element) (m : nat) (o : option Location) (s : State) : State :=
  match o with
  | Some l =>
      let '(k, w) := newMarker el (world s) in
      setWorld (addTo k m (setLngLat k (lng l, lat l) w)) s
  | None => s
  end.

Definition markersStep (l : bool) (p : DeliveryMapProps) (s : State) : State :=
  match map s with
  | Some m =>
      if l then addMarker deliveryEl m (deliveryLocation p)
                  (addMarker restaurantEl m (restaurantLocation p) s)
      else s
  | None => s
  end.

Definition placePartner (m : nat) (lp : Location) (s : State) : State :=
  match partnerMarker s with
  | Some k => setWorld (setLngLat k (lng lp, lat lp) (world s)) s
  | None =>
      let '(k, w) := newMarker partnerEl (world s) in
      setPartnerMarker (Some k) (setWorld (addTo k m (setLngLat k (lng lp, lat lp) w)) s)
  end.

Definition partnerStep (l : bool) (p : DeliveryMapProps) (s : State) : State :=
  match map s with
  | Some m =>
      if l then
        match partnerLocation p with
        | Some lp =>
            let s1 := placePartner m lp s in
            setWorld (flyTo m (trackingOptions (lng lp, lat lp)) (world s1)) s1
        | None => s
        end
      else s
  | None => s
  end.

Definition boundsStep (l : bool) (p : DeliveryMapProps) (s : State) : State :=
  match map s with
  | Some m =>
      if l then
        match boundsOf p with
        | [] => s
        | _ => setWorld (fitBounds m (boundsOf p) 80 15 (world s)) s
        end
      else s
  | None => s
  end.

Definition initialized (c : Coords) (s : State) : State :=
  if mapContainer s then
    let '(m, w) := newMap (lng c, lat c) 14 (world s) in
    setCleanup true (setMap (Some m) (setWorld (on m setMapLoadedTrue (addControl m "top-right" w)) s))
  else setCleanup false s.

(** The dependency arrays of a render with partner location [lp]. *)
Definition depsOf (l : bool) (p : DeliveryMapProps) (lp : Location) : Deps :=
  let c := centerOf p in
  let statics := (l, optMember lat (restaurantLocation p), optMember lng (restaurantLocation p),
                     optMember lat (deliveryLocation p), optMember lng (deliveryLocation p)) in
  mkDeps (lat c, lng c) statics (l, lat lp, lng lp) statics.

(** The state after the commit of a render whose props hold the partner
    location [lp]. *)
Definition committed (first : bool) (l : bool) (p : DeliveryMapProps) (lp : Location)
    (s : State) : State :=
  let d := depsOf l p lp in
  let old := lastDeps s in
  let again := negb first && bool_decide (initDeps old ≠ initDeps d) in
  let s := if again && cleanup s then removeMap s else s in
  let s := if first || again then initialized (centerOf p) s else s in
  let s := if first || bool_decide (markerDeps old ≠ markerDeps d)
           then markersStep l p s else s in
  let s := if first || bool_decide (partnerDeps old ≠ partnerDeps d)
           then partnerStep l p s else s in
  let s := if first || bool_decide (boundsDeps old ≠ boundsDeps d)
           then boundsStep l p s else s in
  setRendered l p d s.

(** The two phases of a commit: the first effect with its cleanup, then the
    three effects that work on the current map. *)
Definition prepared (first : bool) (p : DeliveryMapProps) (d : Deps) (s : State) : State :=
  let again := negb first && bool_decide (initDeps (lastDeps s) ≠ initDeps d) in
  let s := if again && cleanup s then removeMap s else s in
  if first || again then initialized (centerOf p) s else s.

Definition effects (first l : bool) (p : DeliveryMapProps) (old d : Deps) (s : State)
  : State :=
  let s := if first || bool_decide (markerDeps old ≠ markerDeps d)
           then markersStep l p s else s in
  let s := if first || bool_decide (partnerDeps old ≠ partnerDeps d)
           then partnerStep l p s else s in
  if first || bool_decide (boundsDeps old ≠ boundsDeps d)
  then boundsStep l p s else s.

(** What the component cannot change on a map except by [remove()], and the
    load signal: the listeners, the loaded flag and the removed flag. *)
Definition flags (o : MapObj) : list Listener * bool * bool :=
  (onLoad o, loaded o, removed o).

(** Every marker is on a map among the first [n]. *)
Definition bounded (n : nat) (ms : list MarkerObj) : Prop :=
  Forall (λ k, ∃ m, onMap k = Some m ∧ m < n) ms.

(** The marker the marker effect builds for a location. *)
Definition built (el : Element) (m : nat) (o : option Location) : list MarkerObj :=
  match o with
  | Some l => [mkMarker el (Some (lng l, lat l)) (Some m)]
  | None => []
  end.

(** What the three later effects leave alone, [ms] being the maps before
    the current one. *)
Record extends (ms : list MapObj) (s s' : State) : Prop := mkExtends {
  ext_maps : ∀ o, maps (world s) = ms ++ [o] →
             ∃ o', maps (world s') = ms ++ [o'] ∧ flags o' = flags o;
  ext_map : map s' = map s;
  ext_fields : mounted s' = mounted s ∧ cleanup s' = cleanup s
               ∧ mapContainer s' = mapContainer s;
  ext_calls : ∃ cs, calls (world s') = calls (world s) ++ cs
                    ∧ Forall (λ c, isOperation c = true) cs;
  ext_bounded : ∀ n, (length ms < n)%nat → bounded n (markers (world s)) →
                bounded n (markers (world s'));
  ext_partner : is_Some (partnerMarker s) → partnerMarker s' = partnerMarker s
}.

(** What holds of every state of a mount of delivery-map.tsx. *)
Record Inv (s : State) : Prop := mkInv {
  inv_listeners : Forall (λ o, onLoad o = [setMapLoadedTrue]) (maps (world s));
  inv_markers : bounded (length (maps (world s))) (markers (world s));
  inv_partner : mapLoaded s = true → is_Some (partnerMarker s);
  inv_quiet : mapLoaded s = false → markers (world s) = [] ∧ partnerMarker s = None;
  inv_unmounted : mounted s = false → Forall (λ o, removed o = true) (maps (world s));
  inv_mounted : mounted s = true →
    mapContainer s = true ∧ cleanup s = true
    ∧ (∃ lp, partnerLocation (props s) = Some lp
             ∧ lastDeps s = depsOf (mapLoaded s) (props s) lp)
    ∧ ∃ ms o, maps (world s) = ms ++ [o] ∧ map s = Some (length ms)
              ∧ removed o = false ∧ Forall (λ o, removed o = true) ms
}.

End DeliveryMapTsxSummary.

(** ** Sample props *)

Definition at_ (i : nat) (la ln : Z) : option Location :=
  Some (mkLocation i (mkCoords la ln)).

(** Restaurant at (12.97, 77.59), then at (12.98, 77.58); the same place in
    a new object. *)
Definition R1 := at_ 1 129700 775900.
Definition R2 := at_ 2 129800 775800.
Definition R1' := at_ 3 129700 775900.

(** Destination at (12.95, 77.65), then at (12.96, 77.66). *)
Definition D1 := at_ 4 129500 776500.
Definition D2 := at_ 5 129600 776600.

(** Partner at (12.90, 77.60), then at (12.91, 77.61). *)
Definition P1 := at_ 6 129000 776000.
Definition P2 := at_ 7 129100 776100.

(** part_000 mounted with all three locations, once the map has loaded. *)
Definition part000Loaded : Part000.State :=
  Part000Summary.afterStep (Part000Summary.mountedState (mkProps R1 D1 P1)) (MapLoad 0).

(** delivery-map.tsx mounted with the partner location, once the map has
    loaded. *)
Definition tsxLoaded : DeliveryMapTsx.State :=
  match DeliveryMapTsx.run (mkProps None None P1) [MapLoad 0] with
  | inr s => s
  | inl _ => DeliveryMapTsx.unmountedState (mkProps None None P1)
  end.

(** delivery-map.tsx right after mounting with restaurant and partner. *)
Definition tsxMounted : DeliveryMapTsx.State :=
  match DeliveryMapTsx.mount (mkProps R1 None P1) with
  | inr s => s
  | inl _ => DeliveryMapTsx.unmountedState (mkProps R1 None P1)
  end.

(** * Properties of [src/unnamed/part_000] *)

Section Lists.
Context {A : Type} (P : A → Prop) `{∀ x, Decision (P x)}.

Lemma filter_alter_length (f : A → A) (l : list A) (k : nat) :
  (∀ x, P (f x) ↔ P x) →
  length (filter P (alter f k l)) = length (filter P l).
Proof.
  intros Hf. revert k. induction l as [|a l IH]; intros [|k]; simpl; try done.
  - rewrite !filter_cons. destruct (decide (P (f a))) as [H1|H1], (decide (P a)) as [H2|H2];
      simpl; try done; exfalso; [apply H2, Hf, H1 | apply H1, Hf, H2].
  - rewrite !filter_cons. destruct (decide (P a)); simpl; [f_equal|]; apply IH.
Qed.

Lemma filter_nil_length (l : list A) : length (filter P l) = 0 → filter P l = [].
Proof. by destruct (filter P l). Qed.
End Lists.

Section Part000Equations.
Import MapLibre Part000 Part000Summary.

Lemma mount_eq (p : DeliveryMapProps) : mount p = inr (mountedState p).
Proof. reflexivity. Qed.

Lemma updateStaticMarkers_eq (l : bool) (p : DeliveryMapProps) (s : State) :
  updateStaticMarkers l p s = inr (staticStep l p s).
Proof.
  unfold updateStaticMarkers, staticStep.
  destruct s as [w mc [m|] pk rk dk ml pr ld cl mo], l; simpl; try reflexivity.
  destruct (restaurantLocation p) as [lr|], (deliveryLocation p) as [ld'|],
    rk as [rk|], dk as [dk|]; reflexivity.
Qed.

Lemma updatePartnerMarker_eq (l : bool) (p : DeliveryMapProps) (s : State) :
  updatePartnerMarker l p s = inr (partnerStep l p s).
Proof.
  unfold updatePartnerMarker, partnerStep.
  destruct s as [w mc [m|] pk rk dk ml pr ld cl mo], l; simpl; try reflexivity.
  destruct (partnerLocation p) as [lp|], pk as [pk|]; reflexivity.
Qed.

Lemma render_eq (l : bool) (p : DeliveryMapProps) (s : State) :
  render false l p s = inr (rerendered l p s).
Proof.
  unfold render, DeliveryMap, commit, rerendered. simpl.
  repeat case_bool_decide; simpl;
    rewrite ?updateStaticMarkers_eq; simpl;
    rewrite ?updatePartnerMarker_eq; simpl; reflexivity.
Qed.

End Part000Equations.

Section HandleFacts.
Import MapLibre.

Lemma styledFor_inj (r r' : Role) (o : MarkerObj) :
  styledFor r o = true → styledFor r' o = true → r = r'.
Proof.
  unfold styledFor. rewrite !andb_true_iff, !bool_decide_eq_true.
  intros [Hb _] [Hb' _]. rewrite Hb in Hb'.
  destruct r, r'; try reflexivity; discriminate Hb'.
Qed.

Lemma alter_snoc {A} (f : A → A) (l : list A) (x : A) :
  alter f (length l) (l ++ [x]) = l ++ [f x].
Proof.
  replace (length l) with (length l + 0) at 1 by lia.
  by rewrite alter_app_r.
Qed.

Lemma styled_alter (r : Role) (f : MarkerObj → MarkerObj) (k : nat) (ms : list MarkerObj) :
  (∀ o, element (f o) = element o) →
  length (styled r (alter f k ms)) = length (styled r ms).
Proof.
  intros Hf. apply filter_alter_length. intros o.
  unfold styledFor. by rewrite Hf.
Qed.

Lemma styled_snoc (r : Role) (ms : list MarkerObj) (o : MarkerObj) :
  styled r (ms ++ [o]) = styled r ms ++ (if styledFor r o then [o] else []).
Proof.
  unfold styled. rewrite filter_app, filter_cons, filter_nil.
  destruct (decide (styledFor r o = true)) as [->|H]; [done|].
  by destruct (styledFor r o).
Qed.

Lemma Handle_alter (f : MarkerObj → MarkerObj) (k : nat) (ms : list MarkerObj)
    (r : Role) (ref : option nat) :
  (∀ o, element (f o) = element o) →
  Handle ms r ref → Handle (alter f k ms) r ref.
Proof.
  intros Hf. destruct ref as [j|]; simpl.
  - intros [(o & Ho & Hs) Hl]. split; [|by rewrite styled_alter].
    destruct (decide (k = j)) as [->|Hne].
    + exists (f o). rewrite list_lookup_alter_eq, Ho. split; [done|].
      unfold styledFor in *. by rewrite Hf.
    + exists o. by rewrite list_lookup_alter_ne.
  - intros Hn. apply filter_nil_length. unfold styled in *.
    rewrite (filter_alter_length _ f ms k); [by rewrite Hn|].
    intros o. unfold styledFor. by rewrite Hf.
Qed.

Lemma Handle_snoc_new (ms : list MarkerObj) (r : Role) (o : MarkerObj) :
  styledFor r o = true →
  Handle ms r None → Handle (ms ++ [o]) r (Some (length ms)).
Proof.
  simpl. intros Hs Hn. split.
  - exists o. split; [|done]. rewrite lookup_app_r by lia.
    by rewrite Nat.sub_diag.
  - by rewrite styled_snoc, Hn, Hs.
Qed.

Lemma Handle_snoc_other (ms : list MarkerObj) (r : Role) (ref : option nat) (o : MarkerObj) :
  styledFor r o = false →
  Handle ms r ref → Handle (ms ++ [o]) r ref.
Proof.
  intros Hs. destruct ref as [j|]; simpl.
  - intros [(o' & Ho & Hs') Hl]. split.
    + exists o'. split; [|done]. by apply lookup_app_l_Some.
    + by rewrite styled_snoc, Hs, app_nil_r.
  - intros Hn. by rewrite styled_snoc, Hs, Hn.
Qed.

(** At most one marker object per role. *)
Lemma Handle_length (ms : list MarkerObj) (r : Role) (ref : option nat) :
  Handle ms r ref → length (styled r ms) = if ref is Some _ then 1 else 0.
Proof. destruct ref; simpl; [by intros [_ ->] | by intros ->]. Qed.

(** The handles of two roles are different objects. *)
Lemma Handle_apart (ms : list MarkerObj) (r r' : Role) (k k' : nat) :
  r ≠ r' → Handle ms r (Some k) → Handle ms r' (Some k') → k ≠ k'.
Proof.
  intros Hne [(o & Ho & Hs) _] [(o' & Ho' & Hs') _] ->.
  rewrite Ho in Ho'. injection Ho' as ->.
  by apply Hne, (styledFor_inj _ _ o').
Qed.

End HandleFacts.

Section Part000Place.
Import MapLibre Part000 Part000Summary.

Lemma markerRef_setMarkerRef (r r' : Role) (k : option nat) (s : State) :
  markerRef r' (setMarkerRef r k s) = if decide (r' = r) then k else markerRef r' s.
Proof. by destruct r, r', s. Qed.

Lemma place_markers (r : Role) (m : nat) (l : Location) (s : State) :
  markers (world (place r m l s)) =
  match markerRef r s with
  | Some k => alter (reposition (lng l, lat l)) k (markers (world s))
  | None => markers (world s) ++ [mkMarker (elementOf r) (Some (lng l, lat l)) (Some m)]
  end.
Proof.
  unfold place. destruct (markerRef r s) as [k|]; [done|].
  destruct r; simpl; by rewrite !alter_snoc.
Qed.

Lemma place_markerRef (r r' : Role) (m : nat) (l : Location) (s : State) :
  markerRef r' (place r m l s) =
  if decide (r' = r)
  then Some (default (length (markers (world s))) (markerRef r s))
  else markerRef r' s.
Proof.
  unfold place. destruct (markerRef r s) as [k|] eqn:E; simpl.
  - case_decide; [by subst|]. by destruct r', s.
  - by rewrite markerRef_setMarkerRef.
Qed.

Lemma place_maps (r : Role) (m : nat) (l : Location) (s : State) :
  maps (world (place r m l s)) = maps (world s).
Proof. unfold place. by destruct (markerRef r s), r. Qed.

Lemma place_calls (r : Role) (m : nat) (l : Location) (s : State) :
  calls (world (place r m l s)) =
  calls (world s) ++
  match markerRef r s with
  | Some k => [SetLngLat k (lng l, lat l)]
  | None => let k := length (markers (world s)) in
            [NewMarker k (elementOf r); SetLngLat k (lng l, lat l); AddTo k m]
  end.
Proof.
  unfold place. destruct (markerRef r s); [done|].
  destruct r; simpl; by rewrite <- !app_assoc.
Qed.

(** The block touches the world and the ref of its role, nothing else. *)
Lemma place_fields (r : Role) (m : nat) (l : Location) (s : State) :
  let s' := place r m l s in
  map s' = map s ∧ mounted s' = mounted s ∧ cleanup s' = cleanup s
  ∧ mapLoaded s' = mapLoaded s ∧ props s' = props s ∧ lastDeps s' = lastDeps s
  ∧ mapContainer s' = mapContainer s.
Proof. unfold place. by destruct (markerRef r s), r. Qed.

Lemma styledFor_elementOf (r r' : Role) (ll : option LngLat) (m : option nat) :
  styledFor r' (mkMarker (elementOf r) ll m) = bool_decide (r' = r).
Proof. by destruct r, r'. Qed.

Lemma place_handles (r : Role) (m : nat) (l : Location) (s : State) :
  (∀ r', Handle (markers (world s)) r' (markerRef r' s)) →
  ∀ r', Handle (markers (world (place r m l s))) r' (markerRef r' (place r m l s)).
Proof.
  intros H r'. rewrite place_markers, place_markerRef.
  destruct (markerRef r s) as [k|] eqn:E; simpl.
  - case_decide as Hr.
    + subst r'. apply Handle_alter; [done|]. rewrite <- E. apply H.
    + apply Handle_alter; [done | apply H].
  - case_decide as Hr.
    + subst r'. apply Handle_snoc_new.
      * rewrite styledFor_elementOf. by apply bool_decide_eq_true.
      * rewrite <- E. apply H.
    + apply Handle_snoc_other; [|apply H].
      rewrite styledFor_elementOf. by apply bool_decide_eq_false.
Qed.

End Part000Place.

Section Part000Invariant.
Import MapLibre Part000 Part000Summary.

Lemma creations_app (cs extra : list Call) :
  Forall (λ c, isOperation c = true) extra →
  length (filter (λ c, isNewMap c = true) (cs ++ extra))
  = length (filter (λ c, isNewMap c = true) cs)
  ∧ length (filter (λ c, isRemove c = true) (cs ++ extra))
    = length (filter (λ c, isRemove c = true) cs).
Proof.
  intros H. rewrite !filter_app, !length_app.
  induction H as [|c extra Hc _ [IH1 IH2]]; [simpl; lia|].
  rewrite !filter_cons.
  destruct c; try discriminate Hc; simpl; split; first [apply IH1 | apply IH2].
Qed.

Lemma place_WF (r : Role) (l : Location) (s : State) :
  mounted s = true → WF true s → WF true (place r 0 l s).
Proof.
  intros Hmo [(o & Hm & Hl & Hld & Hg & Hr) Hmap Hcl Hh Hon Hops Hc Hrm].
  pose proof (place_fields r 0 l s) as (F1 & F2 & F3 & _).
  pose proof (place_calls r 0 l s) as Hcalls.
  assert (Forall (λ c, isOperation c = true)
            match markerRef r s with
            | Some k => [SetLngLat k (lng l, lat l)]
            | None => let k := length (markers (world s)) in
                      [NewMarker k (elementOf r); SetLngLat k (lng l, lat l); AddTo k 0]
            end) as Hex by (destruct (markerRef r s); repeat constructor).
  split.
  - exists o. rewrite place_maps, F2. repeat split; try done.
    intros Hf. rewrite Hld in Hf; done.
  - by rewrite F1, F2.
  - by rewrite F3.
  - by apply place_handles.
  - rewrite place_markers. destruct (markerRef r s).
    + apply Forall_alter; [done|]. by intros o' _.
    + apply Forall_app. split; [done|]. by constructor.
  - rewrite Hcalls. apply Forall_app. split; [done|].
    destruct (markerRef r s); repeat constructor; simpl; congruence.
  - unfold mapCreations. rewrite Hcalls.
    by rewrite (proj1 (creations_app _ _ Hex)).
  - unfold mapRemovals. rewrite Hcalls, F2.
    by rewrite (proj2 (creations_app _ _ Hex)).
Qed.

Lemma placeIf_WF (r : Role) (o : option Location) (s : State) :
  mounted s = true → WF true s → WF true (placeIf r 0 o s).
Proof. destruct o; [apply place_WF | done]. Qed.

Lemma placeIf_mounted (r : Role) (m : nat) (o : option Location) (s : State) :
  mounted (placeIf r m o s) = mounted s.
Proof. destruct o; [apply place_fields | done]. Qed.

Lemma track_WF (o : option Location) (s : State) :
  mounted s = true → WF true s → WF true (track 0 o s).
Proof.
  intros Hmo H. destruct o as [l|]; [|done]. unfold track.
  pose proof (place_fields partner 0 l s) as (F1 & F2 & F3 & _).
  apply (place_WF partner l) in H; [|done].
  destruct H as [(o & Hm & Hl & Hld & Hg & Hr) Hmap Hcl Hh Hon Hops Hc Hrm].
  set (s1 := place partner 0 l s) in *.
  split; simpl; try done.
  - exists (moveCamera (trackingOptions (lng l, lat l)) o).
    rewrite Hm. repeat split; try done. simpl. intros Hf. rewrite Hld in Hf; done.
  - apply Forall_app. split; [done|]. repeat constructor. simpl. congruence.
  - unfold mapCreations. simpl.
    by rewrite (proj1 (creations_app _ [EaseTo 0 _] ltac:(by repeat constructor))).
  - unfold mapRemovals. simpl.
    by rewrite (proj2 (creations_app _ [EaseTo 0 _] ltac:(by repeat constructor))).
Qed.

Lemma WF_false (s : State) : WF true s → WF false s.
Proof.
  intros [(o & Hm & Hl & Hld & Hg & Hr) Hmap Hcl Hh Hon Hops Hc Hrm].
  split; try done. exists o. repeat split; try done.
Qed.

Lemma staticStep_WF (l : bool) (p : DeliveryMapProps) (s : State) :
  WF l s → WF l (staticStep l p s) ∧ mounted (staticStep l p s) = mounted s.
Proof.
  intros H. unfold staticStep. rewrite (wf_map _ _ H).
  destruct (mounted s) eqn:Hmo, l; try done.
  rewrite !placeIf_mounted. split; [|done].
  apply placeIf_WF; [by rewrite placeIf_mounted|]. by apply placeIf_WF.
Qed.

Lemma partnerStep_WF (l : bool) (p : DeliveryMapProps) (s : State) :
  WF l s → WF l (partnerStep l p s) ∧ mounted (partnerStep l p s) = mounted s.
Proof.
  intros H. unfold partnerStep. rewrite (wf_map _ _ H).
  destruct (mounted s) eqn:Hmo, l; try done.
  split; [by apply track_WF|].
  destruct (partnerLocation p) as [lp|]; [|done]. simpl.
  rewrite <- Hmo. apply (place_fields partner 0 lp s).
Qed.

Lemma rerendered_WF (l : bool) (p : DeliveryMapProps) (s : State) :
  WF l s → WF l (rerendered l p s).
Proof.
  intros H. unfold rerendered.
  match goal with |- WF l (setRendered _ _ _ ?s2) =>
    assert (WF l s2) as H2; [|by destruct H2] end.
  repeat case_bool_decide; try done;
    repeat first [apply partnerStep_WF | apply staticStep_WF]; done.
Qed.

Lemma rerendered_mounted (l : bool) (p : DeliveryMapProps) (s : State) :
  WF l s → mounted (rerendered l p s) = mounted s.
Proof.
  intros H. unfold rerendered. simpl.
  pose proof (staticStep_WF l p s H) as [H1 E1].
  repeat case_bool_decide; try done;
    first [by rewrite (proj2 (partnerStep_WF _ _ _ H1))
          | by rewrite (proj2 (partnerStep_WF _ _ _ H))].
Qed.

Lemma mountedState_WF (p : DeliveryMapProps) : WF false (mountedState p).
Proof.
  split; simpl; try done.
  - eexists. repeat split; done.
  - intros []; done.
  - repeat constructor; simpl; congruence.
Qed.

End Part000Invariant.

Section Part000Steps.
Import MapLibre Part000 Part000Summary.

Lemma setMapLoaded_eq (b : bool) (s : State) :
  setMapLoaded b s = inr (afterSetMapLoaded b s).
Proof.
  unfold setMapLoaded, afterSetMapLoaded.
  destruct (negb (mounted s) || bool_decide (mapLoaded s = b)); [done|].
  apply render_eq.
Qed.

Lemma foldM_listener_eq (ls : list Listener) (s : State) :
  foldM listener s ls = inr (foldl afterListener s ls).
Proof.
  revert s. induction ls as [|[] ls IH]; intros s; simpl; [done|].
  rewrite setMapLoaded_eq. simpl. apply IH.
Qed.

Lemma step_eq (s : State) (e : Event) : step s e = inr (afterStep s e).
Proof.
  destruct e as [p|m|m z|]; simpl.
  - destruct (mounted s); [apply render_eq | done].
  - destruct (maps (world s) !! m) as [o|]; [|done].
    destruct (loaded o || removed o); [done | apply foldM_listener_eq].
  - destruct (maps (world s) !! m) as [o|]; [|done]. by destruct (removed o).
  - by destruct (mounted s).
Qed.

Lemma foldM_step_eq (es : list Event) (s : State) :
  foldM step s es = inr (foldl afterStep s es).
Proof.
  revert s. induction es as [|e es IH]; intros s; simpl; [done|].
  rewrite step_eq. simpl. apply IH.
Qed.

Lemma run_eq (p : DeliveryMapProps) (es : list Event) :
  run p es = inr (foldl afterStep (mountedState p) es).
Proof. unfold run. rewrite mount_eq. simpl. apply foldM_step_eq. Qed.

Lemma rerendered_rendered (l : bool) (p : DeliveryMapProps) (s : State) :
  mapLoaded (rerendered l p s) = l ∧ props (rerendered l p s) = p
  ∧ lastDeps (rerendered l p s) = depsOf l p.
Proof. done. Qed.

Lemma rerendered_Inv (l : bool) (p : DeliveryMapProps) (s : State) :
  WF l s → Inv (rerendered l p s).
Proof. intros H. split; [by apply rerendered_WF | done]. Qed.

Lemma fireLoad_WF (l : bool) (s : State) :
  WF l s → WF true (setWorld (fireLoad 0 (world s)) s).
Proof.
  intros [(o & Hm & Hl & Hld & Hg & Hr) Hmap Hcl Hh Hon Hops Hc Hrm].
  split; simpl; try done.
  rewrite Hm. simpl. eexists. repeat split; done.
Qed.

(** The "load" signal does nothing, or it is the first one on the map of a
    mounted component and causes a render with [mapLoaded = true]. *)
Lemma afterStep_MapLoad (s : State) (m : nat) :
  Inv s →
  afterStep s (MapLoad m) = s
  ∨ (m = 0 ∧ mounted s = true ∧ mapLoaded s = false ∧ mapLoadedAt (world s) 0 = false
     ∧ afterStep s (MapLoad m)
       = rerendered true (props s) (setWorld (fireLoad 0 (world s)) s)).
Proof.
  intros [H Hd]. simpl. unfold mapLoadedAt.
  destruct H as [(o & Hm & Hl & Hld & Hg & Hr) Hmap Hcl Hh Hon Hops Hc Hrm].
  rewrite Hm. destruct m as [|m]; [simpl | left; by rewrite lookup_ge_None_2 by (simpl; lia)].
  destruct (loaded o) eqn:Elo; [by left|].
  destruct (removed o) eqn:Ere; [by left|]. simpl.
  assert (mounted s = true) as Hmo by (by destruct (mounted s)).
  assert (mapLoaded s = false) as Hml.
  { destruct (mapLoaded s); [|done]. by specialize (Hld eq_refl). }
  right. rewrite Hl. simpl. unfold afterSetMapLoaded. simpl. by rewrite Hmo, Hml.
Qed.

Lemma afterStep_Inv (s : State) (e : Event) : Inv s → Inv (afterStep s e).
Proof.
  intros HI. pose proof HI as [H Hd]. destruct e as [p|m|m z|]; simpl.
  - destruct (mounted s); [by apply rerendered_Inv | done].
  - destruct (afterStep_MapLoad s m HI) as [E|(_ & _ & _ & _ & E)];
      simpl in E; rewrite E; [done|].
    by eapply rerendered_Inv, fireLoad_WF.
  - destruct H as [(o & Hm & Hl & Hld & Hg & Hr) Hmap Hcl Hh Hon Hops Hc Hrm].
    rewrite Hm. destruct m as [|m]; [simpl | by rewrite lookup_ge_None_2 by (simpl; lia)].
    destruct (removed o) eqn:Ere; [done|].
    split; [|done]. split; simpl; try done.
    rewrite Hm. simpl. eexists. repeat split; try done. simpl. congruence.
  - destruct (mounted s) eqn:Hmo; [|done].
    destruct H as [(o & Hm & Hl & Hld & Hg & Hr) Hmap Hcl Hh Hon Hops Hc Hrm].
    rewrite Hcl. unfold removeMap. rewrite Hmap. rewrite Hmo in *.
    split; [|done]. split; simpl; try done.
    + rewrite Hm. simpl. eexists. repeat split; try done.
      intros Hf. unfold operations. simpl. rewrite filter_app.
      unfold operations in Hg. by rewrite Hg.
    + apply Forall_app. split; [done|]. repeat constructor. simpl. congruence.
    + unfold mapCreations in *. simpl. rewrite filter_app, length_app, Hc. done.
    + unfold mapRemovals in *. simpl. rewrite filter_app, length_app, Hrm. done.
Qed.

Lemma mountedState_Inv (p : DeliveryMapProps) : Inv (mountedState p).
Proof. split; [apply mountedState_WF | done]. Qed.

Lemma foldl_Inv (es : list Event) (s : State) : Inv s → Inv (foldl afterStep s es).
Proof.
  revert s. induction es as [|e es IH]; intros s H; simpl; [done|].
  by apply IH, afterStep_Inv.
Qed.

(** Every state of a mount satisfies the invariant. *)
Lemma run_Inv (p : DeliveryMapProps) (es : list Event) (s : State) :
  run p es = inr s → Inv s.
Proof.
  rewrite run_eq. intros [= <-]. apply foldl_Inv, mountedState_Inv.
Qed.

End Part000Steps.

Section Part000Views.
Import MapLibre Part000 Part000Summary.

Lemma reposition_same (ll : LngLat) (o : MarkerObj) :
  lngLat o = Some ll → reposition ll o = o.
Proof. destruct o; simpl; by intros ->. Qed.

(** A role's block leaves the ref and the marker of another role alone. *)
Lemma place_other (r r' : Role) (m : nat) (l : Location) (s : State) :
  r ≠ r' → Handles s →
  markerRef r (place r' m l s) = markerRef r s
  ∧ markerState r (place r' m l s) = markerState r s.
Proof.
  intros Hne H. unfold markerState.
  rewrite place_markerRef, place_markers, decide_False by done.
  split; [done|].
  destruct (markerRef r s) as [k|] eqn:Ek; [|done].
  pose proof (H r) as Hr. rewrite Ek in Hr.
  destruct (markerRef r' s) as [k'|] eqn:Ek'.
  - pose proof (H r') as Hr'. rewrite Ek' in Hr'.
    apply list_lookup_alter_ne. intros ->.
    by apply (Handle_apart _ _ _ _ _ Hne Hr Hr').
  - destruct Hr as [(o & Ho & _) _]. rewrite Ho. by apply lookup_app_l_Some.
Qed.

(** A role's block on its own ref and marker: the marker it had is
    repositioned, or a new one is built, positioned and put on the map. *)
Lemma place_self (r : Role) (m : nat) (l : Location) (s : State) :
  Handles s →
  match markerRef r s with
  | Some k =>
      markerRef r (place r m l s) = Some k
      ∧ ∃ o, markerState r s = Some o
             ∧ markerState r (place r m l s) = Some (reposition (lng l, lat l) o)
  | None =>
      markerRef r (place r m l s) = Some (length (markers (world s)))
      ∧ markerState r (place r m l s)
        = Some (mkMarker (elementOf r) (Some (lng l, lat l)) (Some m))
  end.
Proof.
  intros H. unfold markerState.
  rewrite place_markerRef, place_markers, decide_True by done.
  pose proof (H r) as Hr.
  destruct (markerRef r s) as [k|] eqn:Ek; simpl.
  - split; [done|]. destruct Hr as [(o & Ho & _) _]. exists o.
    by rewrite list_lookup_alter_eq, Ho.
  - split; [done|]. rewrite lookup_app_r by lia. by rewrite Nat.sub_diag.
Qed.

Lemma WF_Handles (l : bool) (s : State) : WF l s → Handles s.
Proof. intros H. exact (wf_handle _ _ H). Qed.

(** The only marker of a role is the one its ref points to. *)
Lemma markersOf_handle (s : State) (r : Role) (o : MarkerObj) :
  Handles s → markerState r s = Some o → markersOf r (world s) = [o].
Proof.
  intros H Ho. unfold markerState in Ho. pose proof (H r) as Hr.
  destruct (markerRef r s) as [k|]; [|done].
  destruct Hr as [(o' & Ho' & Hs) Hlen].
  rewrite Ho in Ho'. injection Ho' as <-.
  assert (o ∈ styled r (markers (world s))) as Hin.
  { apply list_elem_of_filter. split; [done|]. by eapply list_elem_of_lookup_2. }
  unfold markersOf. fold (styled r (markers (world s))).
  destruct (styled r (markers (world s))) as [|a [|b t]]; simpl in Hlen; try done.
  by apply list_elem_of_singleton in Hin as ->.
Qed.

Lemma markersOf_no_handle (s : State) (r : Role) :
  Handles s → markerRef r s = None → markersOf r (world s) = [].
Proof. intros H E. pose proof (H r) as Hr. by rewrite E in Hr. Qed.

End Part000Views.

Section Part000Sync.
Import MapLibre Part000 Part000Summary.

Lemma unchanged_refl (r : Role) (s : State) : unchanged r s s.
Proof. done. Qed.

Lemma unchanged_trans (r : Role) (s1 s2 s3 : State) :
  unchanged r s1 s2 → unchanged r s2 s3 → unchanged r s1 s3.
Proof. intros [A B] [C D]. split; congruence. Qed.

Lemma synced_then_unchanged (r : Role) (m : nat) (o : option Location) (b : bool)
    (s1 s2 s3 : State) :
  synced r m o b s1 s2 → unchanged r s2 s3 → synced r m o b s1 s3.
Proof.
  unfold synced, placedAt. intros H [C D].
  destruct o as [l|], b; try (by eapply unchanged_trans).
  destruct (markerRef r s1) as [k|].
  - destruct H as [A (x & B1 & B2)]. split; [congruence|]. exists x. split; congruence.
  - destruct H as [[k A] B]. split; [exists k|]; congruence.
Qed.

Lemma unchanged_then_synced (r : Role) (m : nat) (o : option Location) (b : bool)
    (s1 s2 s3 : State) :
  unchanged r s1 s2 → synced r m o b s2 s3 → synced r m o b s1 s3.
Proof.
  unfold synced, placedAt. intros [C D] H.
  destruct o as [l|], b; try (by eapply unchanged_trans).
  rewrite C in H. destruct (markerRef r s1) as [k|]; [|done].
  destruct H as [A (x & B1 & B2)]. split; [done|]. exists x. split; congruence.
Qed.

Lemma placeIf_self (r : Role) (m : nat) (o : option Location) (s : State) :
  Handles s → synced r m o true s (placeIf r m o s).
Proof.
  intros H. destruct o as [l|]; simpl; [|done]. unfold placedAt.
  pose proof (place_self r m l s H) as Hp.
  destruct (markerRef r s) as [k|]; [done|]. destruct Hp as [A B]. eauto.
Qed.

Lemma placeIf_other (r r' : Role) (m : nat) (o : option Location) (s : State) :
  r ≠ r' → Handles s → unchanged r s (placeIf r' m o s).
Proof. intros Hne H. destruct o as [l|]; [by apply place_other | done]. Qed.

Lemma track_self (m : nat) (o : option Location) (s : State) :
  Handles s → synced partner m o true s (track m o s).
Proof.
  intros H. eapply synced_then_unchanged; [by apply (placeIf_self partner m o)|].
  by destruct o.
Qed.

Lemma track_other (r : Role) (m : nat) (o : option Location) (s : State) :
  r ≠ partner → Handles s → unchanged r s (track m o s).
Proof.
  intros Hne H. eapply unchanged_trans; [by apply (placeIf_other r partner m o)|].
  by destruct o.
Qed.

Lemma synced_false (r : Role) (m : nat) (o : option Location) (s s' : State) :
  unchanged r s s' → synced r m o false s s'.
Proof. unfold synced. by destruct o. Qed.

Lemma synced_weaken (r : Role) (m : nat) (o : option Location) (s : State) :
  synced r m o false s s.
Proof. by apply synced_false. Qed.

Lemma staticStep_view (r : Role) (l : bool) (p : DeliveryMapProps) (s : State) :
  WF l s → mounted s = true →
  match r with
  | partner => unchanged r s (staticStep l p s)
  | _ => synced r 0 (locationOf r p) l s (staticStep l p s)
  end.
Proof.
  intros H Hmo. unfold staticStep. rewrite (wf_map _ _ H), Hmo.
  pose proof (WF_Handles _ _ H) as Hh.
  destruct l.
  - assert (Handles (placeIf restaurant 0 (restaurantLocation p) s)) as Hh1.
    { eapply WF_Handles. by apply placeIf_WF. }
    destruct r; simpl.
    + eapply synced_then_unchanged; [by apply placeIf_self|]. by apply placeIf_other.
    + eapply unchanged_then_synced; [|by apply placeIf_self]. by apply placeIf_other.
    + eapply unchanged_trans; by apply placeIf_other.
  - destruct r; first [done | apply synced_weaken].
Qed.

Lemma partnerStep_view (r : Role) (l : bool) (p : DeliveryMapProps) (s : State) :
  WF l s → mounted s = true →
  match r with
  | partner => synced r 0 (locationOf r p) l s (partnerStep l p s)
  | _ => unchanged r s (partnerStep l p s)
  end.
Proof.
  intros H Hmo. unfold partnerStep. rewrite (wf_map _ _ H), Hmo.
  pose proof (WF_Handles _ _ H) as Hh.
  destruct l.
  - destruct r; simpl; [by apply track_other.. | by apply track_self].
  - destruct r; first [done | apply synced_weaken].
Qed.

(** What a render that is not the first does to the marker of a role. *)
Lemma rerendered_view (r : Role) (l : bool) (p : DeliveryMapProps) (s : State) :
  WF l s → mounted s = true →
  synced r 0 (locationOf r p) (l && changed r l p s) s (rerendered l p s).
Proof.
  intros H Hmo. unfold rerendered.
  match goal with |- synced _ _ _ _ _ (setRendered _ _ _ ?s2) =>
    cut (synced r 0 (locationOf r p) (l && changed r l p s) s s2);
      [intros Hc; eapply synced_then_unchanged; [exact Hc | done]|] end.
  pose proof (staticStep_WF l p s H) as [H1 Hmo1]. rewrite Hmo in Hmo1.
  pose proof (staticStep_view r l p s H Hmo) as V1.
  pose proof (partnerStep_view r l p s H Hmo) as V2.
  pose proof (partnerStep_view r l p _ H1 Hmo1) as V12.
  destruct r; unfold changed; repeat case_bool_decide;
    rewrite ?andb_true_r, ?andb_false_r;
    first [ done
          | apply synced_weaken
          | by eapply synced_then_unchanged; [exact V1 | exact V12]
          | by eapply unchanged_then_synced; [exact V1 | exact V12]
          | by apply synced_false ].
Qed.

End Part000Sync.

Section Part000Claims.
Import MapLibre Part000 Part000Summary.

Lemma changed_static (r : Role) (p' : DeliveryMapProps) (s : State) :
  Inv s → r ≠ partner → locationOf r (props s) ≠ locationOf r p' →
  changed r (mapLoaded s) p' s = true.
Proof.
  intros [_ Hd] Hr Hne. unfold changed. rewrite Hd.
  destruct r; try done; apply bool_decide_eq_true; simpl in *; congruence.
Qed.


Lemma changed_on_load (r : Role) (p : DeliveryMapProps) (s : State) :
  lastDeps s = depsOf false p → changed r true p s = true.
Proof.
  intros Hd. unfold changed. rewrite Hd.
  destruct r; apply bool_decide_eq_true; simpl; congruence.
Qed.

Lemma afterStep_mounted (s : State) (e : Event) :
  Inv s → e ≠ Unmount → mounted (afterStep s e) = mounted s.
Proof.
  intros [H Hd] He. destruct e as [p|m|m z|]; simpl; try done.
  - destruct (mounted s) eqn:E; [|done]. rewrite rerendered_mounted; done.
  - destruct (afterStep_MapLoad s m (conj H Hd)) as [E|(_ & _ & _ & _ & E)];
      simpl in E; rewrite E; [done|].
    rewrite rerendered_mounted; [done|]. by eapply fireLoad_WF.
  - destruct (maps (world s) !! m) as [o|]; [|done]. by destruct (removed o).
Qed.

Lemma foldl_mounted (es : list Event) (s : State) :
  Inv s → Unmount ∉ es → mounted (foldl afterStep s es) = mounted s.
Proof.
  revert s. induction es as [|e es IH]; intros s H Hn; simpl; [done|].
  apply not_elem_of_cons in Hn as [Hne Hn].
  rewrite IH; [|by apply afterStep_Inv | done]. by apply afterStep_mounted.
Qed.

End Part000Claims.

Section Part000Markers.
Import MapLibre Part000 Part000Summary.

(** X1.  part_000 keeps at most one marker object per role, live or not,
    in every state of every event sequence. *)
Lemma part000_one_marker_per_role (p : DeliveryMapProps) (es : list Event)
    (s : State) (r : Role) :
  run p es = inr s →
  (length (markersOf r (world s)) ≤ 1)%nat ∧ (length (liveMarkersOf r (world s)) ≤ 1)%nat.
Proof.
  intros Hrun. apply run_Inv in Hrun as [H _].
  pose proof (Handle_length _ _ _ (wf_handle _ _ H r)) as Hl.
  assert (length (markersOf r (world s)) ≤ 1)%nat as Hle.
  { unfold markersOf. fold (styled r (markers (world s))). rewrite Hl.
    destruct (markerRef r s); lia. }
  split; [done|]. unfold liveMarkersOf.
  etrans; [apply length_filter | done].
Qed.

(** X2.  part_000 constructs its map once, and only unmounting removes it. *)
Lemma part000_map_created_once (p : DeliveryMapProps) (es : list Event) (s : State) :
  run p es = inr s →
  mapCreations (world s) = 1 ∧ length (maps (world s)) = 1
  ∧ (Unmount ∉ es →
     mapRemovals (world s) = 0 ∧ map s = Some 0
     ∧ ∃ o, mapInstance s = Some o ∧ removed o = false).
Proof.
  intros Hrun. pose proof (run_Inv _ _ _ Hrun) as [H _].
  destruct H as [(o & Hm & Hl & Hld & Hg & Hr) Hmap Hcl Hh Hon Hops Hc Hrm].
  split; [done|]. split; [by rewrite Hm|]. intros Hn.
  rewrite run_eq in Hrun. injection Hrun as <-.
  pose proof (foldl_mounted es _ (mountedState_Inv p) Hn) as Hmo.
  simpl in Hmo. rewrite Hmo in *.
  repeat split; try done. exists o. unfold mapInstance. rewrite Hmap, Hm. done.
Qed.

(** X3.  part_000 never raises, whatever props are there or absent, as long
    as the latitudes handed in are ones the map library accepts: every read
    of a field of a location is behind a guard or an optional chain. *)
Lemma part000_never_raises (p : DeliveryMapProps) (es : list Event) :
  validRun p es = true → ∃ s, run p es = inr s.
Proof. intros _. rewrite run_eq. eauto. Qed.

(** X4.  part_000: a role whose coordinate is never supplied gets no marker
    (the latitudes that are supplied being ones the map library accepts). *)
Lemma part000_no_coordinate_no_marker (r : Role) (p : DeliveryMapProps)
    (es : list Event) :
  neverSupplied r p es → validRun p es = true →
  ∃ s, run p es = inr s ∧ markerRef r s = None ∧ markersOf r (world s) = [].
Proof.
  intros [Hp Hes] _. rewrite run_eq. eexists. split; [done|].
  cut (∀ s, Inv s → locationOf r (props s) = None → markerRef r s = None →
            Inv (foldl afterStep s es)
            ∧ markerRef r (foldl afterStep s es) = None).
  { intros Hcut.
    destruct (Hcut (mountedState p)) as [[H _] Hn];
      [apply mountedState_Inv | done | by destruct r |].
    split; [done|]. by apply markersOf_no_handle; [apply (WF_Handles _ _ H)|]. }
  induction Hes as [|e es He _ IH]; intros s HI Hl Hn; simpl; [done|].
  apply IH; [by apply afterStep_Inv | |]; pose proof HI as [H Hd].
  - destruct e as [p'|m|m z|]; simpl; try done.
    + by destruct (mounted s).
    + destruct (afterStep_MapLoad s m HI) as [E|(_ & _ & _ & _ & E)];
        simpl in E; by rewrite E.
    + destruct (maps (world s) !! m) as [o|]; [|done]. by destruct (removed o).
    + destruct (mounted s); [|done]. destruct (cleanup s); [|done].
      unfold removeMap. by destruct (map s).
  - destruct e as [p'|m|m z|]; simpl; try done.
    + destruct (mounted s) eqn:Hmo; [|done].
      pose proof (rerendered_view r _ p' s H Hmo) as V. rewrite He in V.
      destruct V as [V _]. congruence.
    + destruct (afterStep_MapLoad s m HI) as [E|(_ & Hmo & _ & _ & E)];
        simpl in E; rewrite E; [done|].
      pose proof (rerendered_view r true (props s) _ (fireLoad_WF _ _ H) Hmo) as V.
      rewrite Hl in V. destruct V as [V _]. rewrite V. by destruct r.
    + destruct (maps (world s) !! m) as [o|]; [|done]. by destruct (removed o).
    + destruct (mounted s); [|done]. rewrite (wf_cleanup _ _ H).
      unfold removeMap. destruct (map s); simpl; by destruct r.
Qed.

End Part000Markers.

Section Part000Updates.
Import MapLibre Part000 Part000Summary.

Lemma placed_WF (l : bool) (s : State) (k : MarkerObj) :
  WF l s → k ∈ markers (world s) → placed (world s) k = mounted s.
Proof.
  intros [(o & Hm & Hl & Hld & Hg & Hr) Hmap Hcl Hh Hon Hops Hc Hrm] Hin.
  unfold placed. rewrite Forall_forall in Hon. rewrite (Hon k Hin), Hm. simpl.
  rewrite Hr. by destruct (mounted s).
Qed.

Lemma markerState_elem (r : Role) (s : State) (o : MarkerObj) :
  markerState r s = Some o → o ∈ markers (world s).
Proof.
  unfold markerState. destruct (markerRef r s); [|done].
  apply list_elem_of_lookup_2.
Qed.

Lemma markerState_None (r : Role) (s : State) :
  Handles s → markerState r s = None → markerRef r s = None.
Proof.
  intros H. unfold markerState. pose proof (H r) as Hr.
  destruct (markerRef r s); [|done].
  destruct Hr as [(o & Ho & _) _]. congruence.
Qed.

(** X5.  part_000, a new location object for the restaurant or the
    destination once the map is ready, the latitudes of the new props being
    ones the map library accepts: without a marker, one is built with the
    role's element at the coordinate and put on the map; with a marker, that
    marker is repositioned and remains the only one of its role. *)
Lemma part000_static_marker_update (p : DeliveryMapProps) (es : list Event)
    (s : State) (p' : DeliveryMapProps) (r : Role) (l : Location) :
  run p es = inr s → mounted s = true → mapLoaded s = true →
  r ≠ partner → locationOf r p' = Some l → validProps p' = true →
  (∀ l0, locationOf r (props s) = Some l0 → ident l0 ≠ ident l) →
  ∃ s', step s (Render p') = inr s'
    ∧ match markerRef r s with
      | None =>
          markersOf r (world s) = []
          ∧ markerState r s' = Some (mkMarker (elementOf r) (Some (lng l, lat l)) (Some 0))
          ∧ markersOf r (world s') = [mkMarker (elementOf r) (Some (lng l, lat l)) (Some 0)]
      | Some k =>
          markerRef r s' = Some k
          ∧ ∃ o, markersOf r (world s) = [o]
                 ∧ markerState r s' = Some (reposition (lng l, lat l) o)
                 ∧ markersOf r (world s') = [reposition (lng l, lat l) o]
      end.
Proof.
  intros Hrun Hmo Hml Hr Hl _ Hid.
  assert (Hnew : locationOf r (props s) ≠ Some l) by (intros E; by apply (Hid l E)).
  pose proof (run_Inv _ _ _ Hrun) as HI.
  pose proof HI as [H Hd]. rewrite step_eq. eexists. split; [done|].
  simpl. rewrite Hmo.
  pose proof (rerendered_view r _ p' s H Hmo) as V.
  rewrite changed_static, Hl, Hml in V; [|done..|by rewrite Hl].
  simpl in V. unfold placedAt in V. rewrite Hml in *.
  pose proof (WF_Handles _ _ (rerendered_WF true p' s H)) as Hh'.
  pose proof (WF_Handles _ _ H) as Hh.
  destruct (markerRef r s) as [k|] eqn:Ek.
  - destruct V as [V1 (o & V2 & V3)]. split; [done|]. exists o.
    repeat split; [by apply markersOf_handle | done | by apply markersOf_handle].
  - destruct V as [_ V]. repeat split; [by apply markersOf_no_handle | done |].
    by apply markersOf_handle.
Qed.

(** X6.  part_000, a coordinate delivered again for a role marked at it, the
    latitudes of the new props being ones the map library accepts: the ref,
    the marker and the markers of the role are what they were. *)
Lemma part000_redelivery_idempotent (p : DeliveryMapProps) (es : list Event)
    (s : State) (p' : DeliveryMapProps) (r : Role) (l : Location) (o : MarkerObj) :
  run p es = inr s →
  markerState r s = Some o → lngLat o = Some (lng l, lat l) →
  locationOf r p' = Some l → validProps p' = true →
  ∃ s', step s (Render p') = inr s'
    ∧ markerRef r s' = markerRef r s ∧ markerState r s' = Some o
    ∧ markersOf r (world s') = markersOf r (world s)
    ∧ liveMarkersOf r (world s') = liveMarkersOf r (world s).
Proof.
  intros Hrun Ho Hat Hl _. pose proof (run_Inv _ _ _ Hrun) as HI.
  pose proof HI as [H Hd]. rewrite step_eq. eexists. split; [done|].
  simpl. destruct (mounted s) eqn:Hmo; [|done].
  pose proof (rerendered_view r _ p' s H Hmo) as V. rewrite Hl in V. simpl in V.
  pose proof (rerendered_WF _ p' s H) as H'.
  assert (markerRef r (rerendered (mapLoaded s) p' s) = markerRef r s
          ∧ markerState r (rerendered (mapLoaded s) p' s) = Some o) as [E1 E2].
  { destruct (mapLoaded s && changed r (mapLoaded s) p' s).
    - unfold placedAt in V. unfold markerState in Ho.
      destruct (markerRef r s) as [k|] eqn:Ek; [|done].
      destruct V as [V1 (o' & V2 & V3)]. unfold markerState in V2. rewrite Ek in V2.
      rewrite Ho in V2. injection V2 as <-. by rewrite V3, reposition_same.
    - destruct V as [V1 V2]. by rewrite V1, V2. }
  assert (markersOf r (world (rerendered (mapLoaded s) p' s)) = markersOf r (world s)) as E3.
  { rewrite (markersOf_handle _ r o (WF_Handles _ _ H')), (markersOf_handle _ r o (WF_Handles _ _ H)); done. }
  repeat split; try done.
  unfold liveMarkersOf.
  rewrite E3, (markersOf_handle _ r o (WF_Handles _ _ H) Ho), !filter_cons, !filter_nil.
  rewrite (placed_WF _ _ o H'), (placed_WF _ _ o H);
    [by rewrite rerendered_mounted | by eapply markerState_elem..].
Qed.

End Part000Updates.

Section Part000Frame.
Import MapLibre Part000 Part000Summary.

Lemma unchanged_markers (l l' : bool) (r : Role) (s s' : State) :
  WF l s → WF l' s' → mounted s' = mounted s → unchanged r s s' →
  markersOf r (world s') = markersOf r (world s)
  ∧ liveMarkersOf r (world s') = liveMarkersOf r (world s).
Proof.
  intros H H' Hmo [U1 U2]. unfold liveMarkersOf.
  destruct (markerState r s) as [o|] eqn:Eo.
  - rewrite (markersOf_handle s' r o), (markersOf_handle s r o);
      [|by eapply WF_Handles | done | by eapply WF_Handles | by rewrite U2].
    split; [done|]. rewrite !filter_cons, !filter_nil.
    rewrite (placed_WF _ _ o H'), (placed_WF _ _ o H), Hmo;
      [done | by eapply markerState_elem | eapply markerState_elem; by rewrite U2].
  - rewrite (markersOf_no_handle s' r), (markersOf_no_handle s r); try done;
      try (by eapply WF_Handles).
    + apply markerState_None; [by eapply WF_Handles | done].
    + rewrite U1. apply markerState_None; [by eapply WF_Handles | done].
Qed.

Lemma synced_keeps (r : Role) (m : nat) (loc : option Location) (b : bool)
    (s s' : State) (o : MarkerObj) :
  synced r m loc b s s' → markerState r s = Some o →
  markerRef r s' = markerRef r s
  ∧ ∃ o', markerState r s' = Some o' ∧ element o' = element o ∧ onMap o' = onMap o.
Proof.
  intros V Ho.
  assert (unchanged r s s' →
          markerRef r s' = markerRef r s
          ∧ ∃ o', markerState r s' = Some o' ∧ element o' = element o ∧ onMap o' = onMap o)
    as Hu.
  { intros [U1 U2]. split; [done|]. exists o. by rewrite U2. }
  unfold synced in V. destruct loc as [l|], b; try by apply Hu.
  unfold placedAt in V. unfold markerState in Ho.
  destruct (markerRef r s) as [k|] eqn:Ek; [|done].
  destruct V as [V1 (o' & V2 & V3)]. split; [done|].
  unfold markerState in V2. rewrite Ek, Ho in V2. injection V2 as <-.
  by exists (reposition (lng l, lat l) o).
Qed.

Lemma live_after_unmount (l : bool) (r : Role) (s : State) :
  WF l s → mounted s = false → liveMarkersOf r (world s) = [].
Proof.
  intros H Hmo. apply elem_of_nil_inv. intros x Hx.
  unfold liveMarkersOf, markersOf in Hx.
  apply list_elem_of_filter in Hx as [Hp Hx].
  apply list_elem_of_filter in Hx as [_ Hin].
  rewrite (placed_WF _ _ x H Hin), Hmo in Hp. done.
Qed.

End Part000Frame.

Section Part000Persistence.
Import MapLibre Part000 Part000Summary.

Lemma setWorld_view (r : Role) (w : World) (s : State) :
  markers w = markers (world s) →
  markerRef r (setWorld w s) = markerRef r s
  ∧ markerState r (setWorld w s) = markerState r s.
Proof.
  intros E. unfold markerState.
  assert (markerRef r (setWorld w s) = markerRef r s) as -> by (by destruct r).
  simpl. by rewrite E.
Qed.

(** A step that is not the unmount keeps the marker a role has: same ref,
    same element, same map. *)
Lemma afterStep_keeps (r : Role) (s : State) (e : Event) (o : MarkerObj) :
  Inv s → e ≠ Unmount → markerState r s = Some o →
  markerRef r (afterStep s e) = markerRef r s
  ∧ ∃ o', markerState r (afterStep s e) = Some o'
          ∧ element o' = element o ∧ onMap o' = onMap o.
Proof.
  intros HI He Ho. pose proof HI as [H Hd].
  assert (markerRef r s = markerRef r s
          ∧ ∃ o', markerState r s = Some o' ∧ element o' = element o ∧ onMap o' = onMap o)
    as Hsame by (split; [done | by exists o]).
  destruct e as [p'|m|m z|]; try done.
  - simpl. destruct (mounted s) eqn:Hmo; [|done].
    by eapply synced_keeps; [apply rerendered_view|].
  - destruct (afterStep_MapLoad s m HI) as [E|(_ & Hmo & _ & _ & E)];
      rewrite E; [done|].
    pose proof (setWorld_view r (fireLoad 0 (world s)) s eq_refl) as [E1 E2].
    rewrite <- E1.
    eapply synced_keeps;
      [apply rerendered_view; [by eapply fireLoad_WF | done] | by rewrite E2].
  - simpl. destruct (maps (world s) !! m) as [o1|]; [|done].
    destruct (removed o1); [done|].
    pose proof (setWorld_view r (userZoom m z (world s)) s eq_refl) as [E1 E2].
    rewrite E1, E2. done.
Qed.

End Part000Persistence.

(** ** C10 *)

Section Claim10.
Import MapLibre Part000 Part000Summary.

(** C10 (part_000).  In every state [s] of a mount, the latitudes of the
    props being ones the map library accepts: a render in which the
    coordinate of role [r] is absent leaves the ref, the marker object (with
    its position) and the live markers of [r] as they were; any event other
    than the unmount keeps a marker that [r] has, on the same map and as
    live as before; and the unmount, which removes the map, leaves no marker
    live. *)
Theorem part000_absent_coordinate_keeps_marker (p : DeliveryMapProps)
    (es : list Event) (s : State) (r : Role) :
  run p es = inr s →
  (∀ p', locationOf r p' = None → validProps p' = true →
     ∃ s', step s (Render p') = inr s'
       ∧ markerRef r s' = markerRef r s ∧ markerState r s' = markerState r s
       ∧ markersOf r (world s') = markersOf r (world s)
       ∧ liveMarkersOf r (world s') = liveMarkersOf r (world s))
  ∧ (∀ e o, e ≠ Unmount → validEvent e = true → validProps (props s) = true →
     markerState r s = Some o →
     ∃ s' o', step s e = inr s'
       ∧ markerRef r s' = markerRef r s ∧ markerState r s' = Some o'
       ∧ element o' = element o ∧ onMap o' = onMap o
       ∧ placed (world s') o' = placed (world s) o)
  ∧ (mounted s = true →
     ∃ s', step s Unmount = inr s' ∧ liveMarkersOf r (world s') = []).
Proof.
  intros Hrun. pose proof (run_Inv _ _ _ Hrun) as HI. pose proof HI as [H Hd].
  split; [|split].
  - intros p' Hl _. rewrite step_eq. eexists. split; [done|].
    pose proof (afterStep_Inv s (Render p') HI) as [H' _].
    pose proof (afterStep_mounted s (Render p') HI ltac:(done)) as Hmo'.
    assert (unchanged r s (afterStep s (Render p'))) as U.
    { simpl. destruct (mounted s) eqn:Hmo; [|done].
      pose proof (rerendered_view r _ p' s H Hmo) as V. by rewrite Hl in V. }
    destruct (unchanged_markers _ _ r _ _ H H' Hmo' U) as [M1 M2].
    by destruct U.
  - intros e o He _ _ Ho. rewrite step_eq.
    destruct (afterStep_keeps r s e o HI He Ho) as [K1 (o' & K2 & K3 & K4)].
    exists (afterStep s e), o'. repeat split; try done.
    pose proof (afterStep_Inv s e HI) as [H' _].
    rewrite (placed_WF _ _ o' H'), (placed_WF _ _ o H);
      [by apply afterStep_mounted | by eapply markerState_elem..].
  - intros Hmo. rewrite step_eq. eexists. split; [done|].
    pose proof (afterStep_Inv s Unmount HI) as [H' _].
    eapply live_after_unmount; [exact H'|]. simpl. by rewrite Hmo.
Qed.

Lemma part000_absent_coordinate_keeps_marker_witness :
  run (mkProps R1 D1 P1) [MapLoad 0] = inr part000Loaded
  ∧ validProps (mkProps None D1 P1) = true
  ∧ (∃ s', step part000Loaded (Render (mkProps None D1 P1)) = inr s'
           ∧ markerState restaurant s' = markerState restaurant part000Loaded
           ∧ liveMarkersOf restaurant (world s')
             = liveMarkersOf restaurant (world part000Loaded))
  ∧ (∃ s' o', step part000Loaded (Render (mkProps None D2 P2)) = inr s'
              ∧ markerState restaurant s' = Some o'
              ∧ placed (world s') o' = true).
Proof.
  assert (run (mkProps R1 D1 P1) [MapLoad 0] = inr part000Loaded) as Hrun
    by (vm_compute; reflexivity).
  assert (validProps (mkProps None D1 P1) = true) as Hv by (vm_compute; reflexivity).
  split; [exact Hrun|]. split; [exact Hv|].
  destruct (part000_absent_coordinate_keeps_marker
              (mkProps R1 D1 P1) [MapLoad 0] part000Loaded restaurant Hrun) as (A & B & _).
  split.
  - destruct (A (mkProps None D1 P1) eq_refl Hv) as (s' & Hs & _ & Hst & _ & Hlive).
    exists s'. split; [exact Hs|]. split; [exact Hst | exact Hlive].
  - destruct (B (Render (mkProps None D2 P2))
                (mkMarker (Part000Summary.elementOf restaurant)
                          (Some (775900, 129700)%Z) (Some 0))
                ltac:(discriminate) ltac:(vm_compute; reflexivity)
                ltac:(vm_compute; reflexivity) ltac:(vm_compute; reflexivity))
      as (s' & o' & Hs & _ & Hst & _ & _ & Hpl).
    exists s', o'. split; [exact Hs|]. split; [exact Hst|].
    rewrite Hpl. vm_compute. reflexivity.
Defined.

End Claim10.

Section Part000Camera.
Import MapLibre Part000 Part000Summary.

Lemma placeIf_maps (r : Role) (m : nat) (o : option Location) (s : State) :
  maps (world (placeIf r m o s)) = maps (world s).
Proof. destruct o; [apply place_maps | done]. Qed.

Lemma staticStep_maps (l : bool) (p : DeliveryMapProps) (s : State) :
  maps (world (staticStep l p s)) = maps (world s).
Proof.
  unfold staticStep. destruct (map s), l; try done. by rewrite !placeIf_maps.
Qed.

(** The partner block followed by [easeTo]. *)
Lemma track_world (m : nat) (l : Location) (s : State) :
  let s' := track m (Some l) s in
  let ll := (lng l, lat l) in
  maps (world s') = alter (moveCamera (trackingOptions ll)) m (maps (world s))
  ∧ ∃ cs k, markerRef partner s' = Some k
      ∧ (calls (world s') = cs ++ [SetLngLat k ll; EaseTo m (trackingOptions ll)]
         ∨ calls (world s') = cs ++ [SetLngLat k ll; AddTo k m; EaseTo m (trackingOptions ll)]).
Proof.
  simpl. rewrite place_maps. split; [done|].
  rewrite place_calls.
  change (partnerMarkerRef (place partner m l s))
    with (markerRef partner (place partner m l s)).
  rewrite place_markerRef, decide_True by done.
  destruct (markerRef partner s) as [k|] eqn:Ek; simpl.
  - exists (calls (world s)), k. split; [done|]. left. by rewrite <- app_assoc.
  - exists (calls (world s) ++ [NewMarker (length (markers (world s))) partnerEl]),
      (length (markers (world s))).
    split; [done|]. right. by rewrite <- !app_assoc.
Qed.

Lemma rerendered_tracks (p' : DeliveryMapProps) (l : Location) (s : State) :
  WF true s → mounted s = true →
  partnerLocation p' = Some l → changed partner true p' s = true →
  let s' := rerendered true p' s in
  let ll := (lng l, lat l) in
  maps (world s') = alter (moveCamera (trackingOptions ll)) 0 (maps (world s))
  ∧ ∃ cs k, markerRef partner s' = Some k
      ∧ (calls (world s') = cs ++ [SetLngLat k ll; EaseTo 0 (trackingOptions ll)]
         ∨ calls (world s') = cs ++ [SetLngLat k ll; AddTo k 0; EaseTo 0 (trackingOptions ll)]).
Proof.
  intros H Hmo Hl Hch. cbv zeta. unfold rerendered. unfold changed in Hch. rewrite Hch.
  clear Hch.
  cbv zeta. cbn [setRendered world markerRef partnerMarkerRef].
  match goal with |- context [partnerStep true p' ?s1] =>
    assert (WF true s1 ∧ mounted s1 = true ∧ maps (world s1) = maps (world s))
      as (H1 & Hmo1 & Hm1) end.
  { case_bool_decide; [|done].
    pose proof (staticStep_WF true p' s H) as [? ?].
    split; [done|]. split; [congruence | apply staticStep_maps]. }
  unfold partnerStep. rewrite (wf_map _ _ H1), Hmo1, Hl.
  rewrite <- Hm1. apply track_world.
Qed.

End Part000Camera.

Section Part000Tracking.
Import MapLibre Part000 Part000Summary.

Lemma placedAt_position (r : Role) (m : nat) (l : Location) (s s' : State) :
  placedAt r m l s s' →
  ∃ o, markerState r s' = Some o ∧ lngLat o = Some (lng l, lat l).
Proof.
  unfold placedAt. destruct (markerRef r s).
  - intros [_ (o & _ & E)]. by eexists.
  - intros [_ E]. by eexists.
Qed.

Lemma handle_styled (l : bool) (r : Role) (s : State) (o : MarkerObj) :
  WF l s → markerState r s = Some o → styledFor r o = true.
Proof.
  intros H Ho. pose proof (wf_handle _ _ H r) as Hr. unfold markerState in Ho.
  destruct (markerRef r s); [|done]. destruct Hr as [(o' & Ho' & Hs) _]. congruence.
Qed.


End Part000Tracking.

Section Part000Readiness.
Import MapLibre Part000 Part000Summary.

(** X7.  part_000: no marker or camera operation before the map signals "load". *)
Lemma part000_gated (p : DeliveryMapProps) (es : list Event) (s : State) :
  run p es = inr s →
  operationsAfterLoad (world s)
  ∧ (mapLoadedAt (world s) 0 = false → operations (world s) = []).
Proof.
  intros Hrun. apply run_Inv in Hrun as [H _].
  destruct H as [(o & Hm & Hl & Hld & Hg & Hr) Hmap Hcl Hh Hon Hops Hc Hrm].
  unfold operationsAfterLoad, mapLoadedAt. rewrite Hm. simpl. split; [|done].
  intros c m Hc' Hon'.
  assert (m = 0) as ->.
  { rewrite Forall_forall in Hops. apply (Hops c); [|done].
    unfold operations in Hc'. by apply list_elem_of_filter in Hc' as [_ ?]. }
  simpl. destruct (loaded o); [done|]. rewrite Hg in Hc' by done.
  by apply not_elem_of_nil in Hc'.
Qed.

(** Before the map is loaded a render only records its props. *)
Lemma rerendered_false (p : DeliveryMapProps) (s : State) :
  rerendered false p s = setRendered false p (depsOf false p) s.
Proof.
  unfold rerendered.
  assert (∀ s, staticStep false p s = s) as E1
    by (intros s0; unfold staticStep; by destruct (map s0)).
  assert (∀ s, partnerStep false p s = s) as E2
    by (intros s0; unfold partnerStep; by destruct (map s0)).
  rewrite E1. repeat case_bool_decide; by rewrite ?E2.
Qed.

Lemma afterStep_MapLoad_first (s : State) :
  Inv s → mounted s = true → mapLoadedAt (world s) 0 = false →
  mapLoaded s = false
  ∧ afterStep s (MapLoad 0)
    = rerendered true (props s) (setWorld (fireLoad 0 (world s)) s).
Proof.
  intros [H Hd] Hmo Hnl. simpl. unfold mapLoadedAt in Hnl.
  destruct H as [(o & Hm & Hl & Hld & Hg & Hr) Hmap Hcl Hh Hon Hops Hc Hrm].
  rewrite Hm in *. simpl in *. rewrite Hnl, Hr, Hmo, Hl. simpl.
  assert (mapLoaded s = false) as Hml.
  { destruct (mapLoaded s); [|done]. rewrite Hld in Hnl; done. }
  unfold afterSetMapLoaded. simpl. by rewrite Hmo, Hml.
Qed.

(** Before the "load" signal, renders and zooms leave the component
    mounted and not loaded, with the props of the last render. *)
Lemma foldl_beforeLoad (es : list Event) (s : State) :
  Inv s → mounted s = true → mapLoadedAt (world s) 0 = false →
  Forall beforeLoad es →
  let s' := foldl afterStep s es in
  mounted s' = true ∧ mapLoadedAt (world s') 0 = false
  ∧ props s' = latestProps (props s) es.
Proof.
  intros HI Hmo Hnl Hes. revert s HI Hmo Hnl.
  induction Hes as [|e es He _ IH]; intros s HI Hmo Hnl; simpl; [done|].
  assert (mounted (afterStep s e) = true
          ∧ mapLoadedAt (world (afterStep s e)) 0 = false
          ∧ props (afterStep s e) = match e with Render p' => p' | _ => props s end)
    as (A & B & C).
  { pose proof HI as [H Hd].
    assert (mapLoaded s = false) as Hml.
    { destruct (mapLoaded s) eqn:E; [|done].
      destruct (wf_maps _ _ H) as (o & Hm & _ & Hld & _).
      unfold mapLoadedAt in Hnl. rewrite Hm in Hnl. simpl in Hnl.
      rewrite Hld in Hnl; done. }
    destruct e as [p'|m|m z|]; try done; simpl.
    - by rewrite Hmo, Hml, rerendered_false.
    - destruct (wf_maps _ _ H) as (o & Hm & _ & _ & _ & Hr).
      unfold mapLoadedAt in *. rewrite Hm in *. simpl in Hnl.
      destruct m as [|m].
      + simpl. rewrite Hr, Hmo. simpl. rewrite Hm. simpl. done.
      + rewrite lookup_ge_None_2 by (simpl; lia). rewrite Hm. simpl. done. }
  rewrite <- C. by apply IH; [apply afterStep_Inv|..].
Qed.

(** X8.  part_000: the updates that arrive before the "load" signal are
    applied when it fires (the latitudes handed in being ones the map
    library accepts). *)
Lemma part000_deferred_updates (p : DeliveryMapProps) (es : list Event) :
  Forall beforeLoad es → validRun p es = true →
  ∃ s0 s, run p es = inr s0 ∧ run p (es ++ [MapLoad 0]) = inr s
    ∧ mapLoaded s0 = false ∧ operations (world s0) = []
    ∧ mapLoaded s = true
    ∧ ∀ r l, locationOf r (latestProps p es) = Some l →
        ∃ o, markerState r s = Some o ∧ lngLat o = Some (lng l, lat l)
             ∧ placed (world s) o = true.
Proof.
  intros Hes _. rewrite !run_eq, foldl_snoc.
  set (s0 := foldl afterStep (mountedState p) es).
  exists s0, (afterStep s0 (MapLoad 0)). split; [done|]. split; [done|].
  assert (Inv s0) as HI by apply foldl_Inv, mountedState_Inv.
  destruct (foldl_beforeLoad es (mountedState p) (mountedState_Inv p) eq_refl eq_refl Hes)
    as (Hmo & Hnl & Hp). fold s0 in Hmo, Hnl, Hp. simpl in Hp.
  destruct (afterStep_MapLoad_first s0 HI Hmo Hnl) as [Hml E].
  pose proof HI as [H Hd].
  split; [done|]. split.
  { destruct (wf_maps _ _ H) as (o & Hm & _ & _ & Hg & _). apply Hg.
    unfold mapLoadedAt in Hnl. by rewrite Hm in Hnl. }
  rewrite E. split; [done|]. intros r l Hl.
  pose proof (fireLoad_WF _ _ H) as H1.
  pose proof (rerendered_WF true (props s0) _ H1) as H'.
  pose proof (rerendered_view r true (props s0) _ H1 Hmo) as V.
  rewrite changed_on_load in V by (by rewrite <- Hml). 
  rewrite Hp, Hl in V. simpl in V.
  destruct (placedAt_position _ _ _ _ _ V) as (o & Ho & Hat).
  rewrite Hp in H' |- *. exists o. repeat split; [done..|].
  rewrite (placed_WF _ _ o H'); [|by eapply markerState_elem].
  rewrite rerendered_mounted; done.
Qed.

(** part_000: [mapLoaded] changes once, from false to true, at the "load"
    signal of the map. *)
Lemma part000_loaded_once (s : State) (e : Event) :
  Inv s →
  mapLoaded (afterStep s e) = mapLoaded s
  ∨ (e = MapLoad 0 ∧ mapLoaded s = false ∧ mapLoaded (afterStep s e) = true).
Proof.
  intros HI. destruct e as [p'|m|m z|].
  - left. simpl. by destruct (mounted s).
  - destruct (afterStep_MapLoad s m HI) as [E|(-> & _ & Hml & _ & E)]; rewrite E.
    + by left.
    + right. done.
  - left. simpl. destruct (maps (world s) !! m) as [o|]; [|done]. by destruct (removed o).
  - left. simpl. destruct (mounted s); [|done].
    destruct (cleanup s); [|done]. unfold removeMap. by destruct (map s).
Qed.

End Part000Readiness.

(** * Properties of [src/components/map/delivery-map.tsx] *)

Section DeliveryMapTsxFacts.
Import MapLibre DeliveryMapTsx.

(** Rendering without a partner location raises: the dependency array of
    the partner effect reads [partnerLocation.lat]. *)
Lemma tsx_render_raises (p : DeliveryMapProps) (l : bool) :
  partnerLocation p = None → DeliveryMap p l = inl TypeError.
Proof. unfold DeliveryMap. by intros ->. Qed.

Lemma tsx_render_ok (p : DeliveryMapProps) (l : bool) (r : Rendered) :
  DeliveryMap p l = inr r → ∃ loc, partnerLocation p = Some loc.
Proof. unfold DeliveryMap. destruct (partnerLocation p); [eauto | done]. Qed.

Lemma tsx_mount_raises (p : DeliveryMapProps) (es : list Event) :
  partnerLocation p = None → run p es = inl TypeError.
Proof. intros E. unfold run, mount. by rewrite tsx_render_raises. Qed.

(** The marker effect builds a marker whenever it runs with a location. *)
Lemma tsx_marker_effect_adds (p : DeliveryMapProps) (s : State) (m : nat)
    (lr ld : Location) :
  map s = Some m → restaurantLocation p = Some lr → deliveryLocation p = Some ld →
  ∃ s', updateMarkers true p s = inr s'
    ∧ markers (world s')
      = markers (world s)
        ++ [mkMarker restaurantEl (Some (lng lr, lat lr)) (Some m);
            mkMarker deliveryEl (Some (lng ld, lat ld)) (Some m)].
Proof.
  intros Hm Hr Hd. unfold updateMarkers. rewrite Hm, Hr, Hd. simpl.
  eexists. split; [done|]. simpl.
  repeat rewrite alter_snoc. by rewrite <- app_assoc.
Qed.

(** The partner effect: the marker call, then [flyTo] with the centre and a
    speed, and no zoom, duration or easing. *)
Lemma tsx_partner_effect (p : DeliveryMapProps) (s : State) (m : nat) (l : Location) :
  map s = Some m → partnerLocation p = Some l →
  let ll := (lng l, lat l) in
  ∃ s', updatePartnerMarker true p s = inr s'
    ∧ maps (world s') = alter (moveCamera (trackingOptions ll)) m (maps (world s))
    ∧ ∃ cs k, partnerMarker s' = Some k
        ∧ (calls (world s') = cs ++ [SetLngLat k ll; FlyTo m (trackingOptions ll)]
           ∨ calls (world s') = cs ++ [SetLngLat k ll; AddTo k m; FlyTo m (trackingOptions ll)]).
Proof.
  intros Hm Hl. unfold updatePartnerMarker. rewrite Hm, Hl. simpl.
  destruct (partnerMarker s) as [k|] eqn:Ek; simpl; eexists; (split; [done|]); simpl.
  - split; [done|]. exists (calls (world s)), k. split; [done|]. left.
    by rewrite <- app_assoc.
  - split; [done|].
    exists (calls (world s) ++ [NewMarker (length (markers (world s))) partnerEl]),
      (length (markers (world s))).
    split; [done|]. right. by rewrite <- !app_assoc.
Qed.

(** Mounting: when the render does not raise, one map is built, centred at
    [center] with zoom 14. *)
Lemma tsx_mount_center (p : DeliveryMapProps) (s : State) :
  mount p = inr s →
  maps (world s)
  = [mkMap (CenterLngLat (lng (centerOf p), lat (centerOf p))) (ZoomLevel 14)
           ["top-right"] [setMapLoadedTrue] false false]
  ∧ map s = Some 0.
Proof.
  unfold mount, DeliveryMap.
  destruct (partnerLocation p) as [l|] eqn:E; [|done].
  simpl. unfold commit. simpl. intros [= <-]. done.
Qed.

End DeliveryMapTsxFacts.

(** * The claims *)

Section ClaimsOnDeliveryMapTsx.
Import MapLibre DeliveryMapTsx.

(** C1 (delivery-map.tsx).  Partner fixed, destination delivered at
    (12.95, 77.65), the map loads, the destination moves to (12.96, 77.66):
    two destination markers are live on the one map, where the claim allows
    one.  The marker effect builds a marker on every run and keeps no ref. *)
Theorem tsx_duplicate_destination_markers :
  ∃ s, run (mkProps None D1 P1) [MapLoad 0; Render (mkProps None D2 P1)] = inr s
    ∧ liveMarkersOf destination (world s)
      = [mkMarker deliveryEl (Some (776500, 129500)%Z) (Some 0);
         mkMarker deliveryEl (Some (776600, 129600)%Z) (Some 0)]
    ∧ length (maps (world s)) = 1.
Proof. eexists. split; [vm_compute; reflexivity|]. split; vm_compute; reflexivity. Qed.

(** C2 (delivery-map.tsx).  The partner moves from (12.90, 77.60) to
    (12.91, 77.61): the map built at mount is removed and a second map is
    built, where the claim has the map built once and never rebuilt.  The
    initialization effect depends on [center.lat] and [center.lng]. *)
Theorem tsx_map_rebuilt_on_partner_move :
  ∃ s, run (mkProps None None P1) [Render (mkProps None None P2)] = inr s
    ∧ mapCreations (world s) = 2 ∧ mapRemovals (world s) = 1
    ∧ removed <$> maps (world s) = [true; false]
    ∧ map s = Some 1.
Proof. eexists. split; [vm_compute; reflexivity|]. repeat split; vm_compute; reflexivity. Qed.

(** C5 (delivery-map.tsx).  With [partnerLocation] absent the first render
    raises a TypeError, and so does a later render that drops it, where the
    claim has every subset of the props render without error.  The
    dependency array of the partner effect reads [partnerLocation.lat]. *)
Theorem tsx_absent_partner_raises :
  run (mkProps None None None) [] = inl TypeError
  ∧ run (mkProps R1 D1 None) [] = inl TypeError
  ∧ run (mkProps R1 D1 P1) [MapLoad 0; Render (mkProps R1 D1 None)] = inl TypeError.
Proof. repeat split; vm_compute; reflexivity. Qed.

(** C6 (delivery-map.tsx).  Partner fixed, a restaurant marker exists at
    (12.97, 77.59) and the restaurant moves to (12.98, 77.58): the existing
    marker stays where it was and a second marker is built, where the claim
    has the same marker repositioned and no new object. *)
Theorem tsx_restaurant_marker_rebuilt :
  ∃ s0 s, run (mkProps R1 None P1) [MapLoad 0] = inr s0
    ∧ step s0 (Render (mkProps R2 None P1)) = inr s
    ∧ markersOf restaurant (world s0)
      = [mkMarker restaurantEl (Some (775900, 129700)%Z) (Some 0)]
    ∧ markersOf restaurant (world s)
      = [mkMarker restaurantEl (Some (775900, 129700)%Z) (Some 0);
         mkMarker restaurantEl (Some (775800, 129800)%Z) (Some 0)].
Proof.
  eexists. eexists. split; [vm_compute; reflexivity|].
  split; [vm_compute; reflexivity|]. split; vm_compute; reflexivity.
Qed.

(** C7 (delivery-map.tsx).  The restaurant is marked at (12.97, 77.59); a
    render delivers the same restaurant coordinate again while the
    destination moves: a second restaurant marker is built at the same
    place, where the claim has no new marker and the role's markers
    unchanged. *)
Theorem tsx_redelivery_adds_marker :
  ∃ s0 s, run (mkProps R1 D1 P1) [MapLoad 0] = inr s0
    ∧ step s0 (Render (mkProps R1' D2 P1)) = inr s
    ∧ markersOf restaurant (world s0)
      = [mkMarker restaurantEl (Some (775900, 129700)%Z) (Some 0)]
    ∧ markersOf restaurant (world s)
      = [mkMarker restaurantEl (Some (775900, 129700)%Z) (Some 0);
         mkMarker restaurantEl (Some (775900, 129700)%Z) (Some 0)].
Proof.
  eexists. eexists. split; [vm_compute; reflexivity|].
  split; [vm_compute; reflexivity|]. split; vm_compute; reflexivity.
Qed.

(** C8 (delivery-map.tsx).  No partner coordinate is ever supplied: instead
    of the partner simply having no marker, the first render raises a
    TypeError, where the claim has an absent coordinate not be an error. *)
Theorem tsx_partner_never_supplied_is_error :
  neverSupplied partner (mkProps R1 D1 None) [Render (mkProps R2 D1 None)]
  ∧ run (mkProps R1 D1 None) [Render (mkProps R2 D1 None)] = inl TypeError
  ∧ mount (mkProps R1 D1 None) = inl TypeError.
Proof.
  split; [|split; vm_compute; reflexivity].
  split; [done|]. repeat constructor.
Qed.

(** C9 (delivery-map.tsx).  The map loads, then the partner moves: the map
    is rebuilt while [mapLoaded] stays true, and [flyTo] is called on the new
    map, which has not signalled "load", where the claim has no camera
    operation before the load signal. *)
Theorem tsx_operation_before_load :
  ∃ s, run (mkProps None None P1) [MapLoad 0; Render (mkProps None None P2)] = inr s
    ∧ mapLoaded s = true ∧ map s = Some 1
    ∧ last (operations (world s)) = Some (FlyTo 1 (trackingOptions (776100, 129100)%Z))
    ∧ mapLoadedAt (world s) 1 = false
    ∧ ¬ operationsAfterLoad (world s).
Proof.
  eexists. split; [vm_compute; reflexivity|].
  split; [reflexivity|]. split; [reflexivity|].
  split; [reflexivity|]. split; [reflexivity|].
  intros H. enough (false = true) by done.
  apply (H (FlyTo 1 (trackingOptions (776100, 129100)%Z)) 1); [|reflexivity].
  unfold operations. apply list_elem_of_filter. split; [reflexivity|].
  simpl. repeat (first [apply list_elem_of_here | apply list_elem_of_further]).
Qed.

End ClaimsOnDeliveryMapTsx.

Section ClaimsOnBoth.
Import MapLibre.


End ClaimsOnBoth.

Section InitialCenter.
Import MapLibre.




End InitialCenter.

(** * Further properties of [src/unnamed/part_000] *)

Section Part000Synchronised.
Import MapLibre Part000 Part000Summary.

Lemma unchanged_static (r : Role) (p' : DeliveryMapProps) (s : State) :
  Inv s → r ≠ partner → changed r (mapLoaded s) p' s = false →
  locationOf r p' = locationOf r (props s).
Proof.
  intros [_ Hd] Hr Hc. unfold changed in Hc. rewrite Hd in Hc.
  destruct r; try done; apply bool_decide_eq_false in Hc;
    apply dec_stable in Hc; simpl in *; congruence.
Qed.

Lemma unchanged_partner (p' : DeliveryMapProps) (s : State) (l : Location) :
  Inv s → changed partner (mapLoaded s) p' s = false →
  partnerLocation p' = Some l →
  ∃ l0, partnerLocation (props s) = Some l0 ∧ lat l0 = lat l ∧ lng l0 = lng l.
Proof.
  intros [_ Hd] Hc Hl. unfold changed in Hc. rewrite Hd in Hc.
  apply bool_decide_eq_false in Hc. apply dec_stable in Hc. simpl in Hc.
  rewrite Hl in Hc. destruct (partnerLocation (props s)) as [l0|]; [|done].
  exists l0. simpl in Hc. split; [done|]. split; congruence.
Qed.

Lemma removeMap_view (r : Role) (s : State) :
  markerRef r (setMounted false (removeMap s)) = markerRef r s
  ∧ markerState r (setMounted false (removeMap s)) = markerState r s.
Proof.
  unfold markerState, removeMap. destruct (map s); by destruct r.
Qed.

(** Once loaded, the marker of every role in the props is at the role's
    coordinate. *)
Lemma afterStep_sync (s : State) (e : Event) :
  Inv s →
  (mapLoaded s = true → ∀ r l, locationOf r (props s) = Some l →
     ∃ o, markerState r s = Some o ∧ lngLat o = Some (lng l, lat l)) →
  mapLoaded (afterStep s e) = true → ∀ r l, locationOf r (props (afterStep s e)) = Some l →
    ∃ o, markerState r (afterStep s e) = Some o ∧ lngLat o = Some (lng l, lat l).
Proof.
  intros HI HS. pose proof HI as [H Hd]. destruct e as [p'|m|m z|].
  - simpl. destruct (mounted s) eqn:Hmo; [|done].
    simpl. intros Hml r l Hl.
    pose proof (rerendered_view r _ p' s H Hmo) as V.
    pose proof (unchanged_static r p' s HI) as US.
    pose proof (unchanged_partner p' s l HI) as UP.
    rewrite Hl in V. rewrite Hml in V, US, UP |- *. simpl in V.
    destruct (changed r true p' s) eqn:Hc.
    + by eapply placedAt_position.
    + destruct V as [_ V]. rewrite V.
      destruct (decide (r = partner)) as [->|Hr].
      * destruct (UP Hc Hl) as (l0 & Hl0 & <- & <-). by apply HS.
      * apply HS; [done|]. by rewrite <- (US Hr eq_refl).
  - destruct (afterStep_MapLoad s m HI) as [E|(-> & Hmo & Hml & _ & E)]; rewrite E; [done|].
    intros _ r l Hl. simpl in Hl.
    pose proof (rerendered_view r true (props s) _ (fireLoad_WF _ _ H) Hmo) as V.
    rewrite changed_on_load in V by (by rewrite <- Hml).
    rewrite Hl in V. simpl in V. by eapply placedAt_position.
  - simpl. destruct (maps (world s) !! m) as [o|]; [|done].
    destruct (removed o); [done|]. intros Hml r l Hl.
    pose proof (setWorld_view r (userZoom m z (world s)) s eq_refl) as [_ E].
    rewrite E. by apply HS.
  - simpl. destruct (mounted s); [|done]. rewrite (wf_cleanup _ _ H).
    intros Hml r l Hl. destruct (removeMap_view r s) as [_ E]. rewrite E.
    apply HS; unfold removeMap in *; by destruct (map s).
Qed.

Lemma foldl_sync (es : list Event) (s : State) :
  Inv s →
  (mapLoaded s = true → ∀ r l, locationOf r (props s) = Some l →
     ∃ o, markerState r s = Some o ∧ lngLat o = Some (lng l, lat l)) →
  mapLoaded (foldl afterStep s es) = true →
  ∀ r l, locationOf r (props (foldl afterStep s es)) = Some l →
    ∃ o, markerState r (foldl afterStep s es) = Some o ∧ lngLat o = Some (lng l, lat l).
Proof.
  revert s. induction es as [|e es IH]; intros s HI HS; simpl; [done|].
  apply IH; [by apply afterStep_Inv | by apply afterStep_sync].
Qed.

(** While mounted, the props are those of the last render. *)
Lemma foldl_props (es : list Event) (s : State) :
  Inv s → mounted s = true → Unmount ∉ es →
  props (foldl afterStep s es) = latestProps (props s) es.
Proof.
  revert s. induction es as [|e es IH]; intros s HI Hmo Hn; simpl; [done|].
  apply not_elem_of_cons in Hn as [Hne Hn].
  rewrite IH; [|by apply afterStep_Inv | by rewrite afterStep_mounted | done].
  f_equal. destruct e as [p'|m|m z|]; try done; simpl.
  - by rewrite Hmo.
  - destruct (afterStep_MapLoad s m HI) as [E|(_ & _ & _ & _ & E)];
      simpl in E; by rewrite E.
  - destruct (maps (world s) !! m) as [o|]; [|done]. by destruct (removed o).
Qed.

End Part000Synchronised.

Section Part000Maps.
Import MapLibre Part000 Part000Summary.

(** The maps after a render that is not the first: untouched, or the camera
    of map 0 moved by the [easeTo] of the partner effect. *)
Lemma rerendered_maps (l : bool) (p : DeliveryMapProps) (s : State) :
  WF l s →
  maps (world (rerendered l p s))
  = if l && mounted s && changed partner l p s then
      match partnerLocation p with
      | Some lp => alter (moveCamera (trackingOptions (lng lp, lat lp))) 0 (maps (world s))
      | None => maps (world s)
      end
    else maps (world s).
Proof.
  intros H. unfold rerendered, changed. cbv zeta. cbn [setRendered world].
  match goal with |- context [partnerStep l p ?s1] =>
    assert (WF l s1 ∧ mounted s1 = mounted s ∧ maps (world s1) = maps (world s))
      as (H1 & Hmo1 & Hm1) end.
  { case_bool_decide; [|done].
    pose proof (staticStep_WF l p s H) as [? ?].
    split; [done|]. split; [done | apply staticStep_maps]. }
  destruct (bool_decide (partnerDeps (lastDeps s) ≠ partnerDeps (depsOf l p)));
    rewrite ?andb_false_r, ?andb_true_r; [|done].
  unfold partnerStep. rewrite (wf_map _ _ H1), Hmo1.
  destruct (mounted s), l; simpl; try done.
  destruct (partnerLocation p) as [lp|]; [|done].
  rewrite <- Hm1. apply (track_world 0 lp).
Qed.

Lemma alter_camera_zoom (o : CameraOptions) (ms : list MapObj) (m : nat) :
  zoom o = None → camZoom <$> alter (moveCamera o) 0 ms !! m = camZoom <$> ms !! m.
Proof.
  intros Hz. rewrite list_lookup_alter. case_decide; [|done].
  subst. destruct (ms !! 0) as [b|]; [|done]. simpl. by rewrite Hz.
Qed.

Lemma alter_camera_loaded (o : CameraOptions) (ms : list MapObj) (m : nat) :
  loaded <$> alter (moveCamera o) 0 ms !! m = loaded <$> ms !! m.
Proof.
  rewrite list_lookup_alter. case_decide; [|done].
  subst. by destruct (ms !! 0).
Qed.

Lemma rerendered_zoom (l : bool) (p : DeliveryMapProps) (s : State) (m : nat) :
  WF l s → cameraZoom (world (rerendered l p s)) m = cameraZoom (world s) m.
Proof.
  intros H. unfold cameraZoom. rewrite (rerendered_maps l p s H).
  destruct (l && mounted s && changed partner l p s); [|done].
  destruct (partnerLocation p); [|done]. by apply alter_camera_zoom.
Qed.

Lemma rerendered_loaded (l : bool) (p : DeliveryMapProps) (s : State) (m : nat) :
  WF l s → mapLoadedAt (world (rerendered l p s)) m = mapLoadedAt (world s) m.
Proof.
  intros H.
  assert (∀ w, mapLoadedAt w m = default false (loaded <$> maps w !! m)) as E.
  { intros w. unfold mapLoadedAt. by destruct (maps w !! m). }
  rewrite !E, (rerendered_maps l p s H).
  destruct (l && mounted s && changed partner l p s); [|done].
  destruct (partnerLocation p); [|done]. by rewrite alter_camera_loaded.
Qed.

End Part000Maps.

Section Part000Camera2.
Import MapLibre Part000 Part000Summary.

Lemma afterStep_Render (s : State) (p' : DeliveryMapProps) :
  afterStep s (Render p') = if mounted s then rerendered (mapLoaded s) p' s else s.
Proof. done. Qed.

Lemma afterStep_camera (s : State) (e : Event) :
  Inv s →
  (mapLoaded s = true → ∀ l, partnerLocation (props s) = Some l →
     cameraCenter (world s) 0 = Some (CenterLngLat (lng l, lat l))) →
  mapLoaded (afterStep s e) = true → ∀ l, partnerLocation (props (afterStep s e)) = Some l →
    cameraCenter (world (afterStep s e)) 0 = Some (CenterLngLat (lng l, lat l)).
Proof.
  intros HI HS. pose proof HI as [H Hd].
  pose proof (wf_maps _ _ H) as (o & Hm & _).
  destruct e as [p'|m|m z|].
  - rewrite afterStep_Render. destruct (mounted s) eqn:Hmo; [|done].
    destruct (rerendered_rendered (mapLoaded s) p' s) as (-> & -> & _).
    intros Hml l Hl. unfold cameraCenter.
    pose proof (unchanged_partner p' s l HI) as UP.
    rewrite (rerendered_maps _ p' s H), Hmo, Hml, Hl. rewrite Hml in UP. cbn [andb].
    destruct (changed partner true p' s) eqn:Hc.
    + by rewrite Hm.
    + destruct (UP eq_refl Hl) as (l0 & Hl0 & <- & <-). by apply HS.
  - destruct (afterStep_MapLoad s m HI) as [E|(-> & Hmo & Hml & _ & E)]; rewrite E; [done|].
    intros _ l Hl. simpl in Hl. unfold cameraCenter.
    rewrite (rerendered_maps true (props s) _ (fireLoad_WF _ _ H)).
    rewrite changed_on_load by (by rewrite <- Hml). simpl. rewrite Hmo, Hl. simpl.
    by rewrite Hm.
  - simpl. destruct (maps (world s) !! m) as [o'|]; [|done].
    destruct (removed o'); [done|]. simpl. intros Hml l Hl.
    rewrite <- (HS Hml l Hl). unfold cameraCenter. simpl.
    rewrite list_lookup_alter. case_decide; [|done]. subst.
    by destruct (maps (world s) !! 0).
  - simpl. destruct (mounted s); [|done]. rewrite (wf_cleanup _ _ H).
    unfold removeMap. destruct (map s) as [m|]; simpl; [|done].
    intros Hml l Hl. rewrite <- (HS Hml l Hl). unfold cameraCenter. simpl.
    rewrite list_lookup_alter. case_decide; [|done]. subst.
    by destruct (maps (world s) !! 0).
Qed.

Lemma foldl_camera (es : list Event) (s : State) :
  Inv s →
  (mapLoaded s = true → ∀ l, partnerLocation (props s) = Some l →
     cameraCenter (world s) 0 = Some (CenterLngLat (lng l, lat l))) →
  mapLoaded (foldl afterStep s es) = true →
  ∀ l, partnerLocation (props (foldl afterStep s es)) = Some l →
    cameraCenter (world (foldl afterStep s es)) 0 = Some (CenterLngLat (lng l, lat l)).
Proof.
  revert s. induction es as [|e es IH]; intros s HI HS; simpl; [done|].
  apply IH; [by apply afterStep_Inv | by apply afterStep_camera].
Qed.

Lemma afterStep_zoom (s : State) (e : Event) (z : Z) :
  Inv s → mounted s = true → e ≠ Unmount →
  cameraZoom (world s) 0 = Some (ZoomLevel z) →
  cameraZoom (world (afterStep s e)) 0
  = Some (ZoomLevel match e with UserZoom 0 z' => z' | _ => z end).
Proof.
  intros HI Hmo He Hz. pose proof HI as [H Hd].
  pose proof (wf_maps _ _ H) as (o & Hm & _ & _ & _ & Hr).
  destruct e as [p'|m|m z'|]; try done.
  - rewrite afterStep_Render, Hmo. by rewrite rerendered_zoom.
  - destruct (afterStep_MapLoad s m HI) as [E|(-> & _ & _ & _ & E)]; rewrite E; [done|].
    rewrite rerendered_zoom by (by eapply fireLoad_WF).
    rewrite <- Hz. unfold cameraZoom. simpl. rewrite list_lookup_alter.
    case_decide; [|done]. by destruct (maps (world s) !! 0).
  - simpl. rewrite Hm. destruct m as [|m].
    + simpl. rewrite Hr, Hmo. simpl. unfold cameraZoom. simpl. by rewrite Hm.
    + by rewrite lookup_ge_None_2 by (simpl; lia).
Qed.

Lemma foldl_zoom (es : list Event) (s : State) (z : Z) :
  Inv s → mounted s = true → Unmount ∉ es →
  cameraZoom (world s) 0 = Some (ZoomLevel z) →
  cameraZoom (world (foldl afterStep s es)) 0 = Some (ZoomLevel (lastZoom z es)).
Proof.
  revert s z. induction es as [|e es IH]; intros s z HI Hmo Hn Hz; simpl; [done|].
  apply not_elem_of_cons in Hn as [Hne Hn].
  unfold lastZoom. simpl. apply IH;
    [by apply afterStep_Inv | by rewrite afterStep_mounted | done | by apply afterStep_zoom].
Qed.

Lemma afterStep_loaded (s : State) (e : Event) :
  Inv s → mounted s = true → e ≠ Unmount →
  mapLoaded s = mapLoadedAt (world s) 0 →
  mapLoaded (afterStep s e) = mapLoadedAt (world (afterStep s e)) 0
  ∧ (mapLoaded (afterStep s e) = true ↔ mapLoaded s = true ∨ e = MapLoad 0).
Proof.
  intros HI Hmo He Hmir. pose proof HI as [H Hd].
  pose proof (wf_maps _ _ H) as (o & Hm & _ & _ & _ & Hr).
  destruct e as [p'|m|m z'|]; try done.
  - rewrite afterStep_Render, Hmo. rewrite rerendered_loaded by done.
    destruct (rerendered_rendered (mapLoaded s) p' s) as (-> & _).
    split; [done|]. split; [by left | by intros [?|?]].
  - destruct (decide (m = 0 ∧ mapLoadedAt (world s) 0 = false)) as [[-> Hnl]|Hno].
    + destruct (afterStep_MapLoad_first s HI Hmo Hnl) as [_ E]. rewrite E.
      rewrite rerendered_loaded by (by eapply fireLoad_WF). simpl.
      unfold mapLoadedAt. simpl. rewrite Hm. simpl. split; [done|]. split; [by right | done].
    + assert (afterStep s (MapLoad m) = s) as ->.
      { destruct (afterStep_MapLoad s m HI) as [E|(-> & _ & _ & Hnl & E)]; [done|].
        by destruct Hno. }
      split; [done|]. split; [by left|]. intros [?|[= ->]]; [done|].
      rewrite Hmir. destruct (mapLoadedAt (world s) 0); [done|]. by destruct Hno.
  - simpl. rewrite Hm. destruct m as [|m].
    + simpl. rewrite Hr, Hmo. simpl. unfold mapLoadedAt in *. simpl.
      rewrite Hm in *. simpl in *. split; [done|]. split; [by left | by intros [?|?]].
    + rewrite lookup_ge_None_2 by (simpl; lia).
      split; [done|]. split; [by left | by intros [?|?]].
Qed.

Lemma foldl_loaded (es : list Event) (s : State) :
  Inv s → mounted s = true → Unmount ∉ es →
  mapLoaded s = mapLoadedAt (world s) 0 →
  mapLoaded (foldl afterStep s es) = mapLoadedAt (world (foldl afterStep s es)) 0
  ∧ (mapLoaded (foldl afterStep s es) = true ↔ mapLoaded s = true ∨ MapLoad 0 ∈ es).
Proof.
  revert s. induction es as [|e es IH]; intros s HI Hmo Hn Hmir; simpl.
  - split; [done|]. split; [by left|]. intros [?|Hin]; [done|]. by apply not_elem_of_nil in Hin.
  - apply not_elem_of_cons in Hn as [Hne Hn].
    destruct (afterStep_loaded s e HI Hmo (not_eq_sym Hne) Hmir) as [Hmir' Hiff].
    destruct (IH (afterStep s e)) as [A B];
      [by apply afterStep_Inv | by rewrite afterStep_mounted | done | done |].
    split; [done|]. rewrite B, Hiff, elem_of_cons. split.
    + intros [[? | ->] | ?]; [by left | right; by left | right; by right].
    + intros [? | [<- | ?]]; [left; by left | left; by right | by right].
Qed.

End Part000Camera2.

Section Part000CameraCalls.
Import MapLibre Part000 Part000Summary.

Lemma camera_last (cs : list Call) (c : Call) :
  isCamera c = true → last (filter (λ c, isCamera c = true) (cs ++ [c])) = Some c.
Proof.
  intros Hc. rewrite filter_app, filter_cons_True by done. by rewrite filter_nil, last_snoc.
Qed.

(** The create-or-reposition block makes no camera call. *)
Lemma place_camera (r : Role) (m : nat) (l : Location) (s : State) :
  cameraCalls (world (place r m l s)) = cameraCalls (world s).
Proof.
  unfold cameraCalls. rewrite place_calls, filter_app.
  destruct (markerRef r s); cbv zeta;
    repeat (rewrite filter_cons_False by done); by rewrite filter_nil, app_nil_r.
Qed.

Lemma staticStep_camera (l : bool) (p : DeliveryMapProps) (s : State) :
  cameraCalls (world (staticStep l p s)) = cameraCalls (world s).
Proof.
  unfold staticStep. destruct (map s) as [m|], l; try done.
  destruct (deliveryLocation p), (restaurantLocation p); simpl;
    by rewrite ?place_camera.
Qed.

(** A render that does not run the partner effect makes no camera call. *)
Lemma rerendered_camera_kept (l : bool) (p : DeliveryMapProps) (s : State) :
  changed partner l p s = false →
  cameraCalls (world (rerendered l p s)) = cameraCalls (world s).
Proof.
  intros Hch. unfold rerendered. unfold changed in Hch. cbv zeta. rewrite Hch.
  cbn [setRendered world].
  destruct (bool_decide (staticDeps (lastDeps s) ≠ staticDeps (depsOf l p)));
    [apply staticStep_camera | done].
Qed.

(** A render that runs it ends with the [easeTo] to the partner. *)
Lemma rerendered_camera_eased (p' : DeliveryMapProps) (l : Location) (s : State) :
  WF true s → mounted s = true →
  partnerLocation p' = Some l → changed partner true p' s = true →
  last (cameraCalls (world (rerendered true p' s)))
  = Some (EaseTo 0 (trackingOptions (lng l, lat l))).
Proof.
  intros H Hmo Hl Hch.
  destruct (rerendered_tracks p' l s H Hmo Hl Hch) as (_ & cs & k & _ & [Hc | Hc]);
    unfold cameraCalls; rewrite Hc.
  - change (cs ++ [?a; ?b]) with (cs ++ [a] ++ [b]). rewrite app_assoc.
    by apply camera_last.
  - change (cs ++ [?a; ?b; ?c]) with (cs ++ [a; b] ++ [c]). rewrite app_assoc.
    by apply camera_last.
Qed.

Lemma afterStep_cameraCalls (s : State) (e : Event) :
  Inv s →
  (mapLoaded s = true → ∀ l, partnerLocation (props s) = Some l →
     last (cameraCalls (world s)) = Some (EaseTo 0 (trackingOptions (lng l, lat l)))) →
  mapLoaded (afterStep s e) = true → ∀ l, partnerLocation (props (afterStep s e)) = Some l →
    last (cameraCalls (world (afterStep s e)))
    = Some (EaseTo 0 (trackingOptions (lng l, lat l))).
Proof.
  intros HI HS. pose proof HI as [H Hd].
  destruct e as [p'|m|m z|].
  - rewrite afterStep_Render. destruct (mounted s) eqn:Hmo; [|done].
    destruct (rerendered_rendered (mapLoaded s) p' s) as (-> & -> & _).
    intros Hml l Hl. rewrite Hml in H |- *.
    destruct (changed partner true p' s) eqn:Hc.
    + by apply rerendered_camera_eased.
    + rewrite rerendered_camera_kept by done.
      pose proof (unchanged_partner p' s l HI) as UP. rewrite Hml in UP.
      destruct (UP Hc Hl) as (l0 & Hl0 & <- & <-). by apply HS.
  - destruct (afterStep_MapLoad s m HI) as [E|(-> & Hmo & Hml & _ & E)]; rewrite E; [done|].
    intros _ l Hl. simpl in Hl.
    apply rerendered_camera_eased; [by eapply fireLoad_WF | done | done |].
    apply changed_on_load. simpl. by rewrite <- Hml.
  - simpl. destruct (maps (world s) !! m) as [o'|]; [|done].
    destruct (removed o'); done.
  - simpl. destruct (mounted s); [|done]. rewrite (wf_cleanup _ _ H).
    unfold removeMap. destruct (map s) as [m|]; simpl; [|done].
    intros Hml l Hl. rewrite <- (HS Hml l Hl). unfold cameraCalls. simpl.
    rewrite filter_app, filter_cons_False by done. by rewrite filter_nil, app_nil_r.
Qed.

Lemma foldl_cameraCalls (es : list Event) (s : State) :
  Inv s →
  (mapLoaded s = true → ∀ l, partnerLocation (props s) = Some l →
     last (cameraCalls (world s)) = Some (EaseTo 0 (trackingOptions (lng l, lat l)))) →
  mapLoaded (foldl afterStep s es) = true →
  ∀ l, partnerLocation (props (foldl afterStep s es)) = Some l →
    last (cameraCalls (world (foldl afterStep s es)))
    = Some (EaseTo 0 (trackingOptions (lng l, lat l))).
Proof.
  revert s. induction es as [|e es IH]; intros s HI HS; simpl; [done|].
  apply IH; [by apply afterStep_Inv | by apply afterStep_cameraCalls].
Qed.

End Part000CameraCalls.

Section Part000Further.
Import MapLibre Part000 Part000Summary.

(** X9 (part_000).  In a mount that has not been unmounted, whose map has
    loaded and whose restaurant and destination objects were not changed in
    place between renders, every role present in the props of the last
    render has exactly one marker, live on the map, styled for the role and
    positioned at the role's coordinate in those props. *)
Theorem part000_markers_follow_props (p : DeliveryMapProps) (es : list Event)
    (s : State) (r : Role) (l : Location) :
  Unmount ∉ es → unmutated (renderedLocations p es) = true →
  run p es = inr s → mapLoaded s = true →
  locationOf r (latestProps p es) = Some l →
  ∃ o, markersOf r (world s) = [o] ∧ liveMarkersOf r (world s) = [o]
       ∧ lngLat o = Some (lng l, lat l) ∧ onMap o = Some 0
       ∧ styledFor r o = true.
Proof.
  intros Hn _ Hrun Hml Hl. pose proof (run_Inv _ _ _ Hrun) as HI.
  rewrite run_eq in Hrun. injection Hrun as <-.
  pose proof (foldl_props es _ (mountedState_Inv p) eq_refl Hn) as Hp.
  pose proof (foldl_mounted es _ (mountedState_Inv p) Hn) as Hmo.
  simpl in Hp, Hmo.
  destruct (foldl_sync es (mountedState p) (mountedState_Inv p) ltac:(done) Hml r l)
    as (o & Ho & Hat); [by rewrite Hp|].
  set (s := foldl afterStep (mountedState p) es) in *.
  pose proof HI as [H _]. exists o.
  pose proof (markersOf_handle s r o (WF_Handles _ _ H) Ho) as Hms.
  pose proof (markerState_elem r s o Ho) as Hin.
  split; [done|]. split.
  { unfold liveMarkersOf. rewrite Hms, filter_cons, filter_nil.
    by rewrite (placed_WF _ _ o H Hin), Hmo. }
  split; [done|]. split; [|by eapply handle_styled].
  pose proof (wf_onMap _ _ H) as Hon. rewrite Forall_forall in Hon. by apply Hon.
Qed.

Lemma part000_markers_follow_props_witness :
  (Unmount ∉ [MapLoad 0])
  ∧ unmutated (renderedLocations (mkProps R1 D1 P1) [MapLoad 0]) = true
  ∧ run (mkProps R1 D1 P1) [MapLoad 0] = inr part000Loaded
  ∧ ∃ o, markersOf restaurant (world part000Loaded) = [o]
         ∧ lngLat o = Some (775900, 129700)%Z.
Proof.
  assert (Unmount ∉ [MapLoad 0]) as Hn
    by (apply not_elem_of_cons; split; [discriminate | apply not_elem_of_nil]).
  assert (run (mkProps R1 D1 P1) [MapLoad 0] = inr part000Loaded) as Hrun
    by (vm_compute; reflexivity).
  assert (unmutated (renderedLocations (mkProps R1 D1 P1) [MapLoad 0]) = true) as Hu
    by (vm_compute; reflexivity).
  split; [exact Hn|]. split; [exact Hu|]. split; [exact Hrun|].
  destruct (part000_markers_follow_props (mkProps R1 D1 P1) [MapLoad 0] part000Loaded
              restaurant (mkLocation 1 (mkCoords 129700%Z 775900%Z)) Hn Hu Hrun
              ltac:(vm_compute; reflexivity) ltac:(vm_compute; reflexivity))
    as (o & Hms & _ & Hat & _).
  exists o. split; [exact Hms | exact Hat].
Defined.

(** X10 (part_000).  In a mount that has not been unmounted and whose map has
    loaded, when the props of the last render hold a partner location, the
    last camera call the component made is [easeTo] on its map with that
    coordinate as centre, 1000 ms, linear easing and no zoom. *)
Theorem part000_camera_follows_partner (p : DeliveryMapProps) (es : list Event)
    (s : State) (l : Location) :
  Unmount ∉ es → run p es = inr s → mapLoaded s = true →
  partnerLocation (latestProps p es) = Some l →
  last (cameraCalls (world s)) = Some (EaseTo 0 (trackingOptions (lng l, lat l)))
  ∧ trackingOptions (lng l, lat l)
    = mkCameraOptions (Some (lng l, lat l)) None (Some 1000%Z) (Some (λ x, x))
                      (Some true) None.
Proof.
  intros Hn Hrun Hml Hl. rewrite run_eq in Hrun. injection Hrun as <-.
  pose proof (foldl_props es _ (mountedState_Inv p) eq_refl Hn) as Hp. simpl in Hp.
  split; [|done].
  apply (foldl_cameraCalls es (mountedState p) (mountedState_Inv p)); [done | done|].
  by rewrite Hp.
Qed.

Lemma part000_camera_follows_partner_witness :
  (Unmount ∉ [MapLoad 0; Render (mkProps R2 D1 P2)])
  ∧ (∃ s, run (mkProps R1 D1 P1) [MapLoad 0; Render (mkProps R2 D1 P2)] = inr s
          ∧ last (cameraCalls (world s))
            = Some (EaseTo 0 (trackingOptions (776100, 129100)%Z))).
Proof.
  assert (Unmount ∉ [MapLoad 0; Render (mkProps R2 D1 P2)]) as Hn.
  { apply not_elem_of_cons; split; [discriminate|].
    apply not_elem_of_cons; split; [discriminate | apply not_elem_of_nil]. }
  split; [exact Hn|].
  eexists. split; [vm_compute; reflexivity|].
  exact (proj1 (part000_camera_follows_partner (mkProps R1 D1 P1)
                  [MapLoad 0; Render (mkProps R2 D1 P2)] _
                  (mkLocation 7 (mkCoords 129100%Z 776100%Z)) Hn
                  ltac:(vm_compute; reflexivity) ltac:(vm_compute; reflexivity)
                  ltac:(vm_compute; reflexivity))).
Defined.

(** X11 (part_000).  In a mount that has not been unmounted the zoom of the
    map is the level the user chose last, and 13 when the user never zoomed:
    no render, marker update or camera tracking changes it. *)
Theorem part000_zoom_is_users (p : DeliveryMapProps) (es : list Event) (s : State) :
  Unmount ∉ es → run p es = inr s →
  cameraZoom (world s) 0 = Some (ZoomLevel (lastZoom 13 es)).
Proof.
  intros Hn Hrun. rewrite run_eq in Hrun. injection Hrun as <-.
  by apply foldl_zoom; [apply mountedState_Inv | | |].
Qed.

Lemma part000_zoom_is_users_witness :
  (Unmount ∉ [MapLoad 0])
  ∧ run (mkProps R1 D1 P1) [MapLoad 0] = inr part000Loaded
  ∧ cameraZoom (world part000Loaded) 0 = Some (ZoomLevel 13).
Proof.
  assert (Unmount ∉ [MapLoad 0]) as Hn
    by (apply not_elem_of_cons; split; [discriminate | apply not_elem_of_nil]).
  assert (run (mkProps R1 D1 P1) [MapLoad 0] = inr part000Loaded) as Hrun
    by (vm_compute; reflexivity).
  split; [exact Hn|]. split; [exact Hrun|].
  exact (part000_zoom_is_users (mkProps R1 D1 P1) [MapLoad 0] part000Loaded Hn Hrun).
Defined.

(** X12 (part_000).  In a mount that has not been unmounted, the state
    variable [mapLoaded] is true exactly when the load signal of the map is
    among the events, and it always equals the loaded flag of the map. *)
Theorem part000_mapLoaded_iff_load (p : DeliveryMapProps) (es : list Event) (s : State) :
  Unmount ∉ es → run p es = inr s →
  (mapLoaded s = true ↔ MapLoad 0 ∈ es)
  ∧ mapLoaded s = mapLoadedAt (world s) 0.
Proof.
  intros Hn Hrun. rewrite run_eq in Hrun. injection Hrun as <-.
  destruct (foldl_loaded es (mountedState p) (mountedState_Inv p) eq_refl Hn eq_refl)
    as [A B].
  split; [|done]. rewrite B. simpl. split; [by intros [?|?] | by right].
Qed.

Lemma part000_mapLoaded_iff_load_witness :
  (Unmount ∉ [MapLoad 0])
  ∧ run (mkProps R1 D1 P1) [MapLoad 0] = inr part000Loaded
  ∧ mapLoaded part000Loaded = mapLoadedAt (world part000Loaded) 0.
Proof.
  assert (Unmount ∉ [MapLoad 0]) as Hn
    by (apply not_elem_of_cons; split; [discriminate | apply not_elem_of_nil]).
  assert (run (mkProps R1 D1 P1) [MapLoad 0] = inr part000Loaded) as Hrun
    by (vm_compute; reflexivity).
  split; [exact Hn|]. split; [exact Hrun|].
  exact (proj2 (part000_mapLoaded_iff_load (mkProps R1 D1 P1) [MapLoad 0]
                  part000Loaded Hn Hrun)).
Defined.

(** X13 (part_000).  Unmounting a mounted component removes the map and
    clears the [map] ref, leaves no marker live, keeps the marker refs as
    they were (they are not cleared), and leaves a component on which every
    later event changes nothing. *)
Theorem part000_unmount_releases (p : DeliveryMapProps) (es : list Event) (s : State) :
  run p es = inr s → mounted s = true →
  ∃ s', step s Unmount = inr s'
    ∧ map s' = None ∧ mounted s' = false
    ∧ (∃ o, maps (world s') = [o] ∧ removed o = true)
    ∧ mapRemovals (world s') = 1
    ∧ (∀ r, liveMarkersOf r (world s') = [])
    ∧ (∀ r, markerRef r s' = markerRef r s ∧ markerState r s' = markerState r s)
    ∧ ∀ e, step s' e = inr s'.
Proof.
  intros Hrun Hmo. pose proof (run_Inv _ _ _ Hrun) as HI.
  pose proof (afterStep_Inv s Unmount HI) as [H' _].
  rewrite step_eq. eexists. split; [done|].
  pose proof HI as [H _].
  assert (afterStep s Unmount = setMounted false (removeMap s)) as E
    by (simpl; by rewrite Hmo, (wf_cleanup _ _ H)).
  rewrite E in *. clear E. set (s' := setMounted false (removeMap s)) in *.
  assert (mounted s' = false) as Hmo' by done.
  destruct (wf_maps _ _ H') as (o & Hm & _ & _ & _ & Hr). rewrite Hmo' in Hr.
  split; [by rewrite (wf_map _ _ H'), Hmo'|]. split; [done|].
  split; [by exists o|]. split; [by rewrite (wf_removed _ _ H'), Hmo'|].
  split; [intros r; by eapply live_after_unmount|].
  split; [intros r; apply removeMap_view|].
  clearbody s'. intros e. rewrite step_eq. f_equal. destruct e as [p'|m|m z|]; simpl.
  - by rewrite Hmo'.
  - rewrite Hm. destruct m as [|m]; [simpl | by rewrite lookup_ge_None_2 by (simpl; lia)].
    rewrite Hr. by destruct (loaded o).
  - rewrite Hm. destruct m as [|m]; [simpl | by rewrite lookup_ge_None_2 by (simpl; lia)].
    by rewrite Hr.
  - by rewrite Hmo'.
Qed.

Lemma part000_unmount_releases_witness :
  run (mkProps R1 D1 P1) [MapLoad 0] = inr part000Loaded
  ∧ mounted part000Loaded = true
  ∧ ∃ s', step part000Loaded Unmount = inr s'
          ∧ map s' = None ∧ ∀ e, step s' e = inr s'.
Proof.
  assert (run (mkProps R1 D1 P1) [MapLoad 0] = inr part000Loaded) as Hrun
    by (vm_compute; reflexivity).
  assert (mounted part000Loaded = true) as Hmo by (vm_compute; reflexivity).
  split; [exact Hrun|]. split; [exact Hmo|].
  destruct (part000_unmount_releases (mkProps R1 D1 P1) [MapLoad 0] part000Loaded Hrun Hmo)
    as (s' & Hs & Hmap & _ & _ & _ & _ & _ & Hin).
  exists s'. split; [exact Hs|]. split; [exact Hmap | exact Hin].
Defined.

End Part000Further.

Section Part000Witnesses.
Import MapLibre Part000 Part000Summary.

Lemma part000Loaded_run : run (mkProps R1 D1 P1) [MapLoad 0] = inr part000Loaded.
Proof. vm_compute. reflexivity. Qed.

Lemma part000_one_marker_per_role_witness :
  run (mkProps R1 D1 P1) [MapLoad 0] = inr part000Loaded
  ∧ (length (markersOf restaurant (world part000Loaded)) ≤ 1)%nat.
Proof.
  split; [exact part000Loaded_run|].
  exact (proj1 (part000_one_marker_per_role (mkProps R1 D1 P1) [MapLoad 0]
                  part000Loaded restaurant part000Loaded_run)).
Defined.

Lemma part000_map_created_once_witness :
  run (mkProps R1 D1 P1) [MapLoad 0] = inr part000Loaded
  ∧ mapCreations (world part000Loaded) = 1.
Proof.
  split; [exact part000Loaded_run|].
  exact (proj1 (part000_map_created_once (mkProps R1 D1 P1) [MapLoad 0]
                  part000Loaded part000Loaded_run)).
Defined.

Lemma part000_never_raises_witness :
  validRun (mkProps R1 None None) [MapLoad 0; Render (mkProps None D1 P1); Unmount] = true
  ∧ ∃ s, run (mkProps R1 None None) [MapLoad 0; Render (mkProps None D1 P1); Unmount]
         = inr s.
Proof.
  assert (validRun (mkProps R1 None None) [MapLoad 0; Render (mkProps None D1 P1); Unmount]
          = true) as Hv by (vm_compute; reflexivity).
  split; [exact Hv|].
  exact (part000_never_raises _ _ Hv).
Defined.

Lemma part000_no_coordinate_no_marker_witness :
  neverSupplied partner (mkProps R1 D1 None) [MapLoad 0]
  ∧ validRun (mkProps R1 D1 None) [MapLoad 0] = true
  ∧ ∃ s, run (mkProps R1 D1 None) [MapLoad 0] = inr s ∧ markerRef partner s = None.
Proof.
  assert (neverSupplied partner (mkProps R1 D1 None) [MapLoad 0]) as Hn
    by (split; [reflexivity | repeat constructor]).
  assert (validRun (mkProps R1 D1 None) [MapLoad 0] = true) as Hv
    by (vm_compute; reflexivity).
  split; [exact Hn|]. split; [exact Hv|].
  destruct (part000_no_coordinate_no_marker partner (mkProps R1 D1 None) [MapLoad 0] Hn Hv)
    as (s & Hs & Hr & _).
  exists s. split; [exact Hs | exact Hr].
Defined.

Lemma part000_static_marker_update_witness :
  run (mkProps R1 D1 P1) [MapLoad 0] = inr part000Loaded
  ∧ mounted part000Loaded = true ∧ mapLoaded part000Loaded = true
  ∧ ∃ s', step part000Loaded (Render (mkProps R2 D1 P1)) = inr s'.
Proof.
  split; [exact part000Loaded_run|].
  split; [vm_compute; reflexivity|]. split; [vm_compute; reflexivity|].
  destruct (part000_static_marker_update (mkProps R1 D1 P1) [MapLoad 0] part000Loaded
              (mkProps R2 D1 P1) restaurant (mkLocation 2 (mkCoords 129800%Z 775800%Z))
              part000Loaded_run ltac:(vm_compute; reflexivity) ltac:(vm_compute; reflexivity)
              ltac:(discriminate) ltac:(vm_compute; reflexivity)
              ltac:(vm_compute; reflexivity)
              ltac:(intros l0 E; vm_compute in E; injection E as <-; vm_compute; lia))
    as (s' & Hs & _).
  exists s'. exact Hs.
Defined.

Lemma part000_redelivery_idempotent_witness :
  run (mkProps R1 D1 P1) [MapLoad 0] = inr part000Loaded
  ∧ markerState restaurant part000Loaded
    = Some (mkMarker restaurantEl (Some (775900, 129700)%Z) (Some 0))
  ∧ ∃ s', step part000Loaded (Render (mkProps R1' D1 P1)) = inr s'
          ∧ markerState restaurant s'
            = Some (mkMarker restaurantEl (Some (775900, 129700)%Z) (Some 0)).
Proof.
  assert (markerState restaurant part000Loaded
          = Some (mkMarker restaurantEl (Some (775900, 129700)%Z) (Some 0))) as Ho
    by (vm_compute; reflexivity).
  split; [exact part000Loaded_run|]. split; [exact Ho|].
  destruct (part000_redelivery_idempotent (mkProps R1 D1 P1) [MapLoad 0] part000Loaded
              (mkProps R1' D1 P1) restaurant (mkLocation 3 (mkCoords 129700%Z 775900%Z))
              _ part000Loaded_run Ho eq_refl ltac:(vm_compute; reflexivity)
              ltac:(vm_compute; reflexivity))
    as (s' & Hs & _ & Hst & _).
  exists s'. split; [exact Hs | exact Hst].
Defined.

Lemma part000_gated_witness :
  run (mkProps R1 D1 P1) [MapLoad 0] = inr part000Loaded
  ∧ operationsAfterLoad (world part000Loaded).
Proof.
  split; [exact part000Loaded_run|].
  exact (proj1 (part000_gated (mkProps R1 D1 P1) [MapLoad 0] part000Loaded
                  part000Loaded_run)).
Defined.

Lemma part000_deferred_updates_witness :
  Forall beforeLoad [Render (mkProps R2 D1 P1)]
  ∧ validRun (mkProps R1 D1 P1) [Render (mkProps R2 D1 P1)] = true
  ∧ ∃ s, run (mkProps R1 D1 P1) [Render (mkProps R2 D1 P1); MapLoad 0] = inr s
         ∧ mapLoaded s = true.
Proof.
  assert (Forall beforeLoad [Render (mkProps R2 D1 P1)]) as Hb
    by (repeat constructor).
  assert (validRun (mkProps R1 D1 P1) [Render (mkProps R2 D1 P1)] = true) as Hv
    by (vm_compute; reflexivity).
  split; [exact Hb|]. split; [exact Hv|].
  destruct (part000_deferred_updates (mkProps R1 D1 P1) [Render (mkProps R2 D1 P1)] Hb Hv)
    as (s0 & s & _ & Hs & _ & _ & Hml & _).
  exists s. split; [exact Hs | exact Hml].
Defined.

End Part000Witnesses.

(** * Further properties of [src/components/map/delivery-map.tsx] *)

Section TsxEquations.
Import MapLibre DeliveryMapTsx DeliveryMapTsxSummary.

Lemma tsx_updateMarkers_eq (l : bool) (p : DeliveryMapProps) (s : State) :
  updateMarkers l p s = inr (markersStep l p s).
Proof.
  unfold updateMarkers, markersStep.
  destruct s as [w mc [m|] pk ml pr ld cl mo], l; simpl; try reflexivity.
  destruct (restaurantLocation p), (deliveryLocation p); reflexivity.
Qed.

Lemma tsx_updatePartnerMarker_eq (l : bool) (p : DeliveryMapProps) (s : State) :
  updatePartnerMarker l p s = inr (partnerStep l p s).
Proof.
  unfold updatePartnerMarker, partnerStep, placePartner.
  destruct s as [w mc [m|] pk ml pr ld cl mo], l; simpl; try reflexivity.
  destruct (partnerLocation p), pk; reflexivity.
Qed.

Lemma tsx_fitBoundsEffect_eq (l : bool) (p : DeliveryMapProps) (s : State) :
  fitBoundsEffect l p s = inr (boundsStep l p s).
Proof.
  unfold fitBoundsEffect, boundsStep, boundsOf.
  destruct s as [w mc [m|] pk ml pr ld cl mo], l; simpl; try reflexivity.
  destruct (restaurantLocation p), (deliveryLocation p), (partnerLocation p); reflexivity.
Qed.

Lemma tsx_initializeMap_eq (c : Coords) (s : State) :
  initializeMap c s = inr (initialized c s).
Proof. unfold initializeMap, initialized. by destruct (mapContainer s). Qed.

Lemma tsx_DeliveryMap_eq (l : bool) (p : DeliveryMapProps) (lp : Location) :
  partnerLocation p = Some lp →
  DeliveryMap p l = inr (mkRendered (centerOf p) (depsOf l p lp)).
Proof. intros E. unfold DeliveryMap. by rewrite E. Qed.

Lemma tsx_render_eq (first l : bool) (p : DeliveryMapProps) (lp : Location) (s : State) :
  partnerLocation p = Some lp →
  render first l p s = inr (committed first l p lp s).
Proof.
  intros E. unfold render. rewrite (tsx_DeliveryMap_eq l p lp E). simpl.
  unfold commit, committed. cbn [deps center].
  destruct first; cbn [negb andb orb];
    repeat match goal with
      | |- context [if ?b then _ else _] =>
          lazymatch b with
          | bool_decide _ => destruct b
          | _ && cleanup s => destruct b
          end
      end;
    rewrite ?tsx_initializeMap_eq; simpl;
    rewrite ?tsx_updateMarkers_eq; simpl;
    rewrite ?tsx_updatePartnerMarker_eq; simpl;
    rewrite ?tsx_fitBoundsEffect_eq; simpl; reflexivity.
Qed.

End TsxEquations.

Section TsxSteps.
Import MapLibre DeliveryMapTsx DeliveryMapTsxSummary.

Lemma bounded_mono (n n' : nat) (ms : list MarkerObj) :
  (n ≤ n')%nat → bounded n ms → bounded n' ms.
Proof.
  intros Hn H. unfold bounded in *. eapply Forall_impl; [exact H|].
  intros k (m & Hm & Hlt). exists m. split; [done | lia].
Qed.

Lemma bounded_alter (n : nat) (f : MarkerObj → MarkerObj) (k : nat) (ms : list MarkerObj) :
  (∀ o, onMap (f o) = onMap o) → bounded n ms → bounded n (alter f k ms).
Proof.
  intros Hf H. apply Forall_alter; [done|]. intros o _. by rewrite Hf.
Qed.

(** The blocks of the marker effect. *)
Lemma addMarker_world (el : Element) (m : nat) (o : option Location) (s : State) :
  markers (world (addMarker el m o s)) = markers (world s) ++ built el m o
  ∧ maps (world (addMarker el m o s)) = maps (world s).
Proof.
  destruct o as [l|]; simpl; [|by rewrite app_nil_r].
  by rewrite !alter_snoc.
Qed.

Lemma addMarker_fields (el : Element) (m : nat) (o : option Location) (s : State) :
  let s' := addMarker el m o s in
  map s' = map s ∧ partnerMarker s' = partnerMarker s ∧ mounted s' = mounted s
  ∧ cleanup s' = cleanup s ∧ mapContainer s' = mapContainer s
  ∧ mapLoaded s' = mapLoaded s ∧ props s' = props s ∧ lastDeps s' = lastDeps s.
Proof. by destruct o. Qed.

Lemma markersStep_world (l : bool) (p : DeliveryMapProps) (s : State) :
  maps (world (markersStep l p s)) = maps (world s)
  ∧ markers (world (markersStep l p s))
    = markers (world s)
      ++ match map s with
         | Some m =>
             if l then built restaurantEl m (restaurantLocation p)
                       ++ built deliveryEl m (deliveryLocation p)
             else []
         | None => []
         end.
Proof.
  unfold markersStep. destruct (map s) as [m|], l; rewrite ?app_nil_r; try done.
  destruct (addMarker_world deliveryEl m (deliveryLocation p)
              (addMarker restaurantEl m (restaurantLocation p) s)) as [-> ->].
  destruct (addMarker_world restaurantEl m (restaurantLocation p) s) as [-> ->].
  by rewrite app_assoc.
Qed.

Lemma markersStep_fields (l : bool) (p : DeliveryMapProps) (s : State) :
  let s' := markersStep l p s in
  map s' = map s ∧ partnerMarker s' = partnerMarker s ∧ mounted s' = mounted s
  ∧ cleanup s' = cleanup s ∧ mapContainer s' = mapContainer s
  ∧ mapLoaded s' = mapLoaded s ∧ props s' = props s ∧ lastDeps s' = lastDeps s.
Proof.
  unfold markersStep. destruct (map s) as [m|] eqn:E, l; try done.
  destruct (deliveryLocation p), (restaurantLocation p); done.
Qed.

(** The partner effect. *)
Lemma partnerStep_world (l : bool) (p : DeliveryMapProps) (s : State) :
  let s' := partnerStep l p s in
  match map s, l, partnerLocation p with
  | Some m, true, Some lp =>
      maps (world s') = alter (moveCamera (trackingOptions (lng lp, lat lp))) m (maps (world s))
      ∧ match partnerMarker s with
        | Some k =>
            partnerMarker s' = Some k
            ∧ markers (world s')
              = alter (λ o, mkMarker (element o) (Some (lng lp, lat lp)) (onMap o)) k
                      (markers (world s))
            ∧ calls (world s')
              = calls (world s) ++ [SetLngLat k (lng lp, lat lp);
                                    FlyTo m (trackingOptions (lng lp, lat lp))]
        | None =>
            partnerMarker s' = Some (length (markers (world s)))
            ∧ markers (world s')
              = markers (world s) ++ [mkMarker partnerEl (Some (lng lp, lat lp)) (Some m)]
            ∧ calls (world s')
              = calls (world s) ++ [NewMarker (length (markers (world s))) partnerEl;
                                    SetLngLat (length (markers (world s))) (lng lp, lat lp);
                                    AddTo (length (markers (world s))) m;
                                    FlyTo m (trackingOptions (lng lp, lat lp))]
        end
  | _, _, _ => s' = s
  end.
Proof.
  unfold partnerStep, placePartner. destruct (map s) as [m|], l; try done.
  destruct (partnerLocation p) as [lp|]; [|done].
  destruct (partnerMarker s) as [k|] eqn:Ek; simpl;
    rewrite ?alter_snoc, <- ?app_assoc; done.
Qed.

Lemma partnerStep_fields (l : bool) (p : DeliveryMapProps) (s : State) :
  let s' := partnerStep l p s in
  map s' = map s ∧ mounted s' = mounted s
  ∧ cleanup s' = cleanup s ∧ mapContainer s' = mapContainer s
  ∧ mapLoaded s' = mapLoaded s ∧ props s' = props s ∧ lastDeps s' = lastDeps s.
Proof.
  unfold partnerStep, placePartner. destruct (map s) as [m|] eqn:E, l; try done.
  destruct (partnerLocation p); [|done]. by destruct (partnerMarker s).
Qed.

(** The fit-bounds effect. *)
Lemma boundsStep_world (l : bool) (p : DeliveryMapProps) (s : State) :
  let s' := boundsStep l p s in
  markers (world s') = markers (world s)
  ∧ match map s, l, boundsOf p with
    | Some m, true, _ :: _ =>
        maps (world s')
        = alter (λ b, mkMap (CenterOfBounds (boundsOf p) 80) (ZoomOfBounds (boundsOf p) 80 15)
                            (controls b) (onLoad b) (loaded b) (removed b)) m (maps (world s))
        ∧ calls (world s') = calls (world s) ++ [FitBounds m (boundsOf p) 80 15]
    | _, _, _ => s' = s
    end.
Proof.
  unfold boundsStep. destruct (map s) as [m|], l; try done.
  by destruct (boundsOf p).
Qed.

Lemma boundsStep_fields (l : bool) (p : DeliveryMapProps) (s : State) :
  let s' := boundsStep l p s in
  map s' = map s ∧ partnerMarker s' = partnerMarker s ∧ mounted s' = mounted s
  ∧ cleanup s' = cleanup s ∧ mapContainer s' = mapContainer s
  ∧ mapLoaded s' = mapLoaded s ∧ props s' = props s ∧ lastDeps s' = lastDeps s.
Proof.
  unfold boundsStep. destruct (map s) as [m|] eqn:E, l; try done.
  by destruct (boundsOf p).
Qed.

End TsxSteps.

Section TsxExtends.
Import MapLibre DeliveryMapTsx DeliveryMapTsxSummary.

Lemma committed_eq (first l : bool) (p : DeliveryMapProps) (lp : Location) (s : State) :
  committed first l p lp s
  = setRendered l p (depsOf l p lp)
      (effects first l p (lastDeps s) (depsOf l p lp) (prepared first p (depsOf l p lp) s)).
Proof. reflexivity. Qed.

Lemma extends_refl (ms : list MapObj) (s : State) : extends ms s s.
Proof.
  split; try done.
  - intros o Ho. by exists o.
  - exists []. by rewrite app_nil_r.
Qed.

Lemma extends_trans (ms : list MapObj) (s1 s2 s3 : State) :
  extends ms s1 s2 → extends ms s2 s3 → extends ms s1 s3.
Proof.
  intros [Hm1 Hr1 (Ha1 & Hb1 & Hc1) (cs1 & Hcs1 & Hop1) Hbd1 Hp1]
         [Hm2 Hr2 (Ha2 & Hb2 & Hc2) (cs2 & Hcs2 & Hop2) Hbd2 Hp2].
  split.
  - intros o Ho. destruct (Hm1 o Ho) as (o1 & Ho1 & Hf1).
    destruct (Hm2 o1 Ho1) as (o2 & Ho2 & Hf2). exists o2. split; [done | congruence].
  - congruence.
  - repeat split; congruence.
  - exists (cs1 ++ cs2). split.
    + by rewrite Hcs2, Hcs1, app_assoc.
    + by apply Forall_app.
  - intros n Hn Hb. by apply Hbd2, Hbd1.
  - intros Hs. rewrite Hp2; [by apply Hp1|]. by rewrite Hp1.
Qed.

Lemma built_bounded (el : Element) (m n : nat) (o : option Location) :
  (m < n)%nat → bounded n (built el m o).
Proof.
  intros Hm. destruct o as [l|]; [|by constructor].
  repeat constructor. by exists m.
Qed.

Lemma addMarker_calls (el : Element) (m : nat) (o : option Location) (s : State) :
  ∃ cs, calls (world (addMarker el m o s)) = calls (world s) ++ cs
        ∧ Forall (λ c, isOperation c = true) cs.
Proof.
  destruct o as [l|]; simpl.
  - eexists [_; _; _]. split; [by rewrite <- !app_assoc | by repeat constructor].
  - exists []. by rewrite app_nil_r.
Qed.

Lemma markersStep_calls (l : bool) (p : DeliveryMapProps) (s : State) :
  ∃ cs, calls (world (markersStep l p s)) = calls (world s) ++ cs
        ∧ Forall (λ c, isOperation c = true) cs.
Proof.
  unfold markersStep.
  destruct (map s) as [m|], l; try (exists []; by rewrite app_nil_r).
  destruct (addMarker_calls deliveryEl m (deliveryLocation p)
              (addMarker restaurantEl m (restaurantLocation p) s)) as (c2 & -> & H2).
  destruct (addMarker_calls restaurantEl m (restaurantLocation p) s) as (c1 & -> & H1).
  exists (c1 ++ c2). split; [by rewrite app_assoc | by apply Forall_app].
Qed.

Lemma markersStep_extends (ms : list MapObj) (l : bool) (p : DeliveryMapProps) (s : State) :
  map s = Some (length ms) → extends ms s (markersStep l p s).
Proof.
  intros Hm.
  destruct (markersStep_world l p s) as [Hmaps Hmarkers].
  destruct (markersStep_fields l p s) as (? & ? & ? & ? & ? & ? & ? & ?).
  split; try done.
  - intros o Ho. exists o. by rewrite Hmaps.
  - apply markersStep_calls.
  - intros n Hn Hb. rewrite Hmarkers, Hm. apply Forall_app. split; [done|].
    destruct l; [|by constructor].
    apply Forall_app. split; by apply built_bounded.
Qed.

Lemma partnerStep_extends (ms : list MapObj) (l : bool) (p : DeliveryMapProps) (s : State) :
  map s = Some (length ms) → extends ms s (partnerStep l p s).
Proof.
  intros Hm.
  pose proof (partnerStep_world l p s) as Hw. cbv zeta in Hw. rewrite Hm in Hw.
  destruct (partnerStep_fields l p s) as (? & ? & ? & ? & ? & ? & ?).
  destruct l; [|rewrite Hw; apply extends_refl].
  destruct (partnerLocation p) as [lp|]; [|rewrite Hw; apply extends_refl].
  destruct Hw as [Hmaps Hk].
  split; try done.
  - intros o Ho. rewrite Hmaps, Ho, alter_snoc. by eexists.
  - destruct (partnerMarker s) as [k|]; destruct Hk as (_ & _ & ->).
    + eexists [_; _]. split; [done | by repeat constructor].
    + eexists [_; _; _; _]. split; [done | by repeat constructor].
  - intros n Hn Hb. destruct (partnerMarker s) as [k|]; destruct Hk as (_ & -> & _).
    + by apply bounded_alter.
    + apply Forall_app. split; [done|]. repeat constructor. by eexists.
  - intros [k Hs]. rewrite Hs in Hk. destruct Hk as (-> & _). done.
Qed.

Lemma boundsStep_extends (ms : list MapObj) (l : bool) (p : DeliveryMapProps) (s : State) :
  map s = Some (length ms) → extends ms s (boundsStep l p s).
Proof.
  intros Hm.
  destruct (boundsStep_world l p s) as [Hmarkers Hw]. rewrite Hm in Hw.
  destruct (boundsStep_fields l p s) as (? & ? & ? & ? & ? & ? & ? & ?).
  destruct l; [|rewrite Hw; apply extends_refl].
  destruct (boundsOf p) as [|b bs] eqn:Eb; [rewrite Hw; apply extends_refl|].
  destruct Hw as [Hmaps Hcalls].
  split; try done.
  - intros o Ho. rewrite Hmaps, Ho, alter_snoc. by eexists.
  - eexists [_]. split; [done | by repeat constructor].
  - intros n Hn Hb. by rewrite Hmarkers.
Qed.

Lemma effects_extends (ms : list MapObj) (first l : bool) (p : DeliveryMapProps)
    (old d : Deps) (s : State) :
  map s = Some (length ms) → extends ms s (effects first l p old d s).
Proof.
  intros Hm. unfold effects.
  set (s1 := if first || bool_decide (markerDeps old ≠ markerDeps d)
             then markersStep l p s else s).
  set (s2 := if first || bool_decide (partnerDeps old ≠ partnerDeps d)
             then partnerStep l p s1 else s1).
  assert (H1 : extends ms s s1).
  { unfold s1. destruct (first || bool_decide (markerDeps old ≠ markerDeps d));
      [by apply markersStep_extends | apply extends_refl]. }
  assert (Hm1 : map s1 = Some (length ms)) by (by rewrite (ext_map _ _ _ H1)).
  assert (H2 : extends ms s1 s2).
  { unfold s2. destruct (first || bool_decide (partnerDeps old ≠ partnerDeps d));
      [by apply partnerStep_extends | apply extends_refl]. }
  assert (Hm2 : map s2 = Some (length ms)) by (by rewrite (ext_map _ _ _ H2)).
  eapply extends_trans; [exact H1|]. eapply extends_trans; [exact H2|].
  destruct (first || bool_decide (boundsDeps old ≠ boundsDeps d));
    [by apply boundsStep_extends | apply extends_refl].
Qed.

(** Before "load" the three effects do nothing. *)
Lemma effects_quiet (first : bool) (p : DeliveryMapProps) (old d : Deps) (s : State) :
  effects first false p old d s = s.
Proof.
  unfold effects, markersStep, partnerStep, boundsStep.
  destruct (map s) eqn:E; repeat (destruct (_ || _); rewrite ?E); done.
Qed.

(** Once [mapLoaded] turns true the partner effect runs and sets its ref. *)
Lemma effects_partner (first : bool) (p : DeliveryMapProps) (lp : Location)
    (old d : Deps) (s : State) (m : nat) :
  map s = Some m → partnerLocation p = Some lp →
  first || bool_decide (partnerDeps old ≠ partnerDeps d) = true →
  is_Some (partnerMarker (effects first true p old d s)).
Proof.
  intros Hm Hp Hch. unfold effects. rewrite Hch.
  set (s1 := if first || bool_decide (markerDeps old ≠ markerDeps d)
             then markersStep true p s else s).
  assert (Hm1 : map s1 = Some m).
  { unfold s1. destruct (first || bool_decide (markerDeps old ≠ markerDeps d)); [|done].
    by destruct (markersStep_fields true p s) as (-> & _). }
  assert (H : is_Some (partnerMarker (partnerStep true p s1))).
  { pose proof (partnerStep_world true p s1) as Hw. cbv zeta in Hw.
    rewrite Hm1, Hp in Hw. destruct Hw as [_ Hk].
    destruct (partnerMarker s1); destruct Hk as (-> & _); by eexists. }
  destruct (first || bool_decide (boundsDeps old ≠ boundsDeps d)); [|done].
  by destruct (boundsStep_fields true p (partnerStep true p s1)) as (_ & -> & _).
Qed.

End TsxExtends.

Section TsxInvariant.
Import MapLibre DeliveryMapTsx DeliveryMapTsxSummary.

Lemma prepared_keep (p : DeliveryMapProps) (d : Deps) (s : State) :
  initDeps (lastDeps s) = initDeps d → prepared false p d s = s.
Proof.
  intros E. unfold prepared. rewrite bool_decide_eq_false_2; [done|]. by intros H.
Qed.

(** A change of the centre removes the current map and builds the next. *)
Lemma prepared_again (p : DeliveryMapProps) (d : Deps) (s : State)
    (ms : list MapObj) (o : MapObj) :
  initDeps (lastDeps s) ≠ initDeps d →
  cleanup s = true → mapContainer s = true →
  maps (world s) = ms ++ [o] → map s = Some (length ms) →
  let s1 := prepared false p d s in
  let c := centerOf p in
  let m := S (length ms) in
  maps (world s1)
  = (ms ++ [mkMap (camCenter o) (camZoom o) (controls o) (onLoad o) (loaded o) true])
    ++ [mkMap (CenterLngLat (lng c, lat c)) (ZoomLevel 14) ["top-right"]
              [setMapLoadedTrue] false false]
  ∧ map s1 = Some m
  ∧ calls (world s1)
    = calls (world s) ++ [Remove (length ms); NewMap m (lng c, lat c) 14;
                          AddControl m "top-right"; On m "load"]
  ∧ markers (world s1) = markers (world s)
  ∧ partnerMarker s1 = partnerMarker s
  ∧ mounted s1 = mounted s ∧ cleanup s1 = true ∧ mapContainer s1 = true.
Proof.
  intros Hne Hcl Hmc Hmaps Hmap. unfold prepared.
  rewrite bool_decide_eq_true_2 by done. rewrite Hcl. cbn [negb andb orb].
  destruct s as [[mps mks cs] mc m pk ml pr ld cl mo]. simpl in *. subst.
  unfold initialized, removeMap. simpl. rewrite !alter_snoc.
  rewrite !length_app. simpl. rewrite Nat.add_1_r.
  rewrite <- !app_assoc. done.
Qed.

(** The state a commit leaves satisfies the invariant once the effects
    have run on a well-formed current map. *)
Lemma Inv_of_effects (ms : list MapObj) (o : MapObj) (l : bool)
    (p : DeliveryMapProps) (lp : Location) (old : Deps) (s1 : State) :
  let d := depsOf l p lp in
  let s2 := effects false l p old d s1 in
  partnerLocation p = Some lp →
  maps (world s1) = ms ++ [o] → map s1 = Some (length ms) →
  removed o = false → Forall (λ o, removed o = true) ms →
  Forall (λ o, onLoad o = [setMapLoadedTrue]) (ms ++ [o]) →
  bounded (S (length ms)) (markers (world s1)) →
  mounted s1 = true → mapContainer s1 = true → cleanup s1 = true →
  (l = true → is_Some (partnerMarker s2)) →
  (l = false → markers (world s1) = [] ∧ partnerMarker s1 = None) →
  Inv (setRendered l p d s2).
Proof.
  intros d s2 Hp Hmaps Hmap Hrem Hms Hon Hbd Hmo Hmc Hcl Hpk Hq.
  pose proof (effects_extends ms false l p old d s1 Hmap) as
    [Hem Her (Hea & Heb & Hec) _ Hebd Hep].
  fold s2 in Hem, Her, Hea, Heb, Hec, Hebd, Hep.
  destruct (Hem o Hmaps) as (o' & Hmaps' & Hfl).
  unfold flags in Hfl. injection Hfl as Hf1 Hf2 Hf3.
  split; cbn [setRendered world mapLoaded mounted mapContainer cleanup props lastDeps
              partnerMarker map].
  - rewrite Hmaps'. apply Forall_app in Hon as [Hon1 Hon2].
    apply Forall_app. split; [done|]. repeat constructor.
    rewrite Hf1. by inversion Hon2.
  - rewrite Hmaps', length_app. simpl. rewrite Nat.add_1_r. apply Hebd; [lia | done].
  - done.
  - intros ->. destruct (Hq eq_refl) as (Hq1 & Hq2).
    unfold s2. rewrite effects_quiet. done.
  - intros Hf. congruence.
  - intros _. repeat split; try congruence.
    + by exists lp.
    + exists ms, o'. repeat split; try done; congruence.
Qed.

Lemma depsOf_init (l : bool) (p : DeliveryMapProps) (lp : Location) :
  partnerLocation p = Some lp → initDeps (depsOf l p lp) = (lat lp, lng lp).
Proof. intros E. unfold depsOf, centerOf. by rewrite E. Qed.

(** A commit after the first keeps the invariant; [mapLoaded] never goes
    back to false. *)
Lemma committed_Inv (l : bool) (p : DeliveryMapProps) (lp : Location) (s : State) :
  Inv s → mounted s = true → partnerLocation p = Some lp →
  (mapLoaded s = true → l = true) →
  Inv (committed false l p lp s) ∧ mounted (committed false l p lp s) = true.
Proof.
  intros HI Hmo Hp Hl. pose proof HI as [Hon Hbd Hpk Hq _ Hmd].
  destruct (Hmd Hmo) as (Hmc & Hcl & (lp0 & Hp0 & Hld) & ms & o & Hmaps & Hmap & Hrem & Hms).
  rewrite committed_eq.
  set (d := depsOf l p lp).
  assert (Hpart : bool_decide (initDeps (lastDeps s) ≠ initDeps d) = false
                  ∨ bool_decide (initDeps (lastDeps s) ≠ initDeps d) = true)
    by (destruct (bool_decide _); auto).
  assert (Hl' : mapLoaded s = l ∨ (mapLoaded s = false ∧ l = true)).
  { destruct (mapLoaded s), l; auto. by specialize (Hl eq_refl). }
  assert (Hch : l = true → mapLoaded s = false →
                bool_decide (partnerDeps (lastDeps s) ≠ partnerDeps d) = true).
  { intros -> Hf. apply bool_decide_eq_true_2. rewrite Hld, Hf. simpl. congruence. }
  rewrite Hmaps in Hon, Hbd.
  rewrite length_app in Hbd. simpl in Hbd. rewrite Nat.add_1_r in Hbd.
  destruct Hpart as [Hsame | Hdiff].
  - apply bool_decide_eq_false in Hsame. apply dec_stable in Hsame.
    rewrite (prepared_keep p d s Hsame).
    split.
    + apply (Inv_of_effects ms o l p lp (lastDeps s) s); try done.
      * intros ->. destruct (mapLoaded s) eqn:Eml.
        -- destruct (Hpk eq_refl) as [k Hk].
           pose proof (effects_extends ms false true p (lastDeps s) (depsOf true p lp) s Hmap)
             as [_ _ _ _ _ Hep].
           rewrite Hep by (by exists k). by exists k.
        -- eapply effects_partner; [exact Hmap | exact Hp |]. by apply Hch.
      * intros ->. destruct (mapLoaded s); [by specialize (Hl eq_refl)|]. by apply Hq.
    + cbn [setRendered mounted].
      pose proof (effects_extends ms false l p (lastDeps s) d s Hmap) as [_ _ (-> & _) _ _ _].
      done.
  - apply bool_decide_eq_true in Hdiff.
    destruct (prepared_again p d s ms o Hdiff Hcl Hmc Hmaps Hmap)
      as (Hmaps1 & Hmap1 & Hcalls1 & Hmk1 & Hpk1 & Hmo1 & Hcl1 & Hmc1).
    cbv zeta in Hmaps1, Hmap1, Hcalls1, Hmk1, Hpk1, Hmo1, Hcl1, Hmc1.
    set (s1 := prepared false p d s) in *.
    set (ms1 := ms ++ [mkMap (camCenter o) (camZoom o) (controls o) (onLoad o) (loaded o) true])
      in *.
    assert (Hlen : length ms1 = S (length ms))
      by (unfold ms1; rewrite length_app; simpl; lia).
    rewrite <- Hlen in Hmap1.
    apply Forall_app in Hon as [Hon1 Hon2].
    split.
    + eapply (Inv_of_effects ms1 _ l p lp (lastDeps s) s1); try done.
      * unfold ms1. apply Forall_app. split; [done|]. by repeat constructor.
      * apply Forall_app. split; [|by repeat constructor].
        unfold ms1. apply Forall_app. split; [done|]. repeat constructor.
        by inversion Hon2.
      * rewrite Hmk1, Hlen. eapply bounded_mono; [|exact Hbd]. lia.
      * congruence.
      * intros ->. destruct (mapLoaded s) eqn:Eml.
        -- destruct (Hpk eq_refl) as [k Hk].
           pose proof (effects_extends ms1 false true p (lastDeps s) (depsOf true p lp) s1 Hmap1)
             as [_ _ _ _ _ Hep].
           rewrite Hep by (rewrite Hpk1; by exists k). rewrite Hpk1. by exists k.
        -- eapply effects_partner; [exact Hmap1 | exact Hp |]. by apply Hch.
      * intros ->. destruct (mapLoaded s); [by specialize (Hl eq_refl)|].
        destruct (Hq eq_refl) as (Hq1 & Hq2).
        rewrite Hmk1, Hpk1. done.
    + cbn [setRendered mounted].
      pose proof (effects_extends ms1 false l p (lastDeps s) d s1 Hmap1)
        as [_ _ (-> & _) _ _ _].
      congruence.
Qed.

End TsxInvariant.

Section TsxRuns.
Import MapLibre DeliveryMapTsx DeliveryMapTsxSummary.

Lemma tsx_mount_ok (p : DeliveryMapProps) (lp : Location) :
  partnerLocation p = Some lp →
  ∃ s, mount p = inr s ∧ Inv s ∧ mounted s = true ∧ mapLoaded s = false ∧ props s = p
       ∧ map s = Some 0 ∧ mapLoadedAt (world s) 0 = false.
Proof.
  intros E. unfold mount, DeliveryMap. rewrite E. simpl. unfold commit. simpl.
  eexists. split; [done|]. split; [|done].
  split; simpl; try done.
  - by repeat constructor.
  - constructor.
  - intros _. repeat split.
    + by exists lp.
    + by eexists [], _.
Qed.

Lemma tsx_step_Render (s : State) (p : DeliveryMapProps) (lp : Location) :
  mounted s = true → partnerLocation p = Some lp →
  step s (Render p) = inr (committed false (mapLoaded s) p lp s).
Proof. intros Hmo E. simpl. rewrite Hmo. by apply tsx_render_eq. Qed.

Lemma tsx_step_Render_raises (s : State) (p : DeliveryMapProps) :
  mounted s = true → partnerLocation p = None → step s (Render p) = inl TypeError.
Proof.
  intros Hmo E. simpl. rewrite Hmo. unfold render. by rewrite tsx_render_raises.
Qed.

Lemma alter_current (f : MapObj → MapObj) (m : nat) (ms : list MapObj) (o : MapObj) :
  (∀ x, removed (f x) = removed x) →
  ∃ ms' o', alter f m (ms ++ [o]) = ms' ++ [o'] ∧ length ms' = length ms
            ∧ removed o' = removed o
            ∧ (Forall (λ o, removed o = true) ms → Forall (λ o, removed o = true) ms').
Proof.
  intros Hf. destruct (decide (m < length ms)%nat) as [Hlt | Hge].
  - exists (alter f m ms), o. rewrite alter_app_l by done.
    repeat split; [by rewrite length_alter|].
    intros H. apply Forall_alter; [done|]. intros x _. by rewrite Hf.
  - rewrite alter_app_r_alt by lia.
    destruct (m - length ms)%nat; simpl; by eexists ms, _.
Qed.

(** What the environment does to a map keeps the invariant. *)
Lemma Inv_alter (f : MapObj → MapObj) (m : nat) (s : State) :
  (∀ x, onLoad (f x) = onLoad x) → (∀ x, removed (f x) = removed x) →
  Inv s →
  Inv (setWorld (mkWorld (alter f m (maps (world s))) (markers (world s))
                         (calls (world s))) s).
Proof.
  intros Hf1 Hf2 [Hon Hbd Hpk Hq Hun Hmd].
  split; cbn [setWorld world maps markers mapLoaded mounted partnerMarker mapContainer
              cleanup props lastDeps map]; try done.
  - apply Forall_alter; [done|]. intros x _. by rewrite Hf1.
  - by rewrite length_alter.
  - intros Hmo. apply Forall_alter; [by apply Hun|]. intros x _. by rewrite Hf2.
  - intros Hmo.
    destruct (Hmd Hmo) as (Hmc & Hcl & Hp & ms & o & Hmaps & Hmap & Hrem & Hms).
    repeat split; try done.
    destruct (alter_current f m ms o Hf2) as (ms' & o' & Ha & Hlen & Hr & Hall).
    exists ms', o'. rewrite Hmaps, Ha, Hlen. repeat split; try done; [congruence | auto].
Qed.

Lemma tsx_step_Unmount (s : State) :
  Inv s → ∃ s', step s Unmount = inr s' ∧ Inv s' ∧ mounted s' = false.
Proof.
  intros HI. pose proof HI as [Hon Hbd Hpk Hq Hun Hmd]. simpl.
  destruct (mounted s) eqn:Hmo; [|by exists s].
  destruct (Hmd eq_refl) as (Hmc & Hcl & Hp & ms & o & Hmaps & Hmap & Hrem & Hms).
  rewrite Hcl. unfold removeMap. rewrite Hmap.
  eexists. split; [done|]. split; [|done].
  split; cbn [setMounted setMap setWorld world maps markers mapLoaded mounted partnerMarker
              mapContainer cleanup props lastDeps map remove withMap]; try done.
  - apply Forall_alter; [done|]. done.
  - by rewrite length_alter.
  - intros _. rewrite Hmaps, alter_snoc. apply Forall_app. split; [done|].
    by repeat constructor.
Qed.

Lemma tsx_step_UserZoom (s : State) (m : nat) (z : Z) :
  Inv s → ∃ s', step s (UserZoom m z) = inr s' ∧ Inv s' ∧ mounted s' = mounted s.
Proof.
  intros HI. simpl. destruct (maps (world s) !! m) as [o|]; [|by exists s].
  destruct (removed o); [by exists s|].
  eexists. split; [done|]. split; [|done]. by apply Inv_alter.
Qed.

Lemma tsx_step_MapLoad (s : State) (m : nat) :
  Inv s → ∃ s', step s (MapLoad m) = inr s' ∧ Inv s' ∧ mounted s' = mounted s.
Proof.
  intros HI. pose proof HI as [Hon Hbd Hpk Hq Hun Hmd]. simpl.
  destruct (maps (world s) !! m) as [o|] eqn:Ho; [|by exists s].
  destruct (loaded o) eqn:Hlo; [by exists s|].
  destruct (removed o) eqn:Hro; [by exists s|]. cbn [orb].
  assert (Hol : onLoad o = [setMapLoadedTrue]).
  { eapply Forall_lookup_1 in Hon; [|exact Ho]. done. }
  destruct (mounted s) eqn:Hmo.
  2:{ specialize (Hun eq_refl). eapply Forall_lookup_1 in Hun; [|exact Ho]. congruence. }
  rewrite Hol. simpl. unfold setMapLoaded.
  cbn [setWorld mounted mapLoaded props]. rewrite Hmo. cbn [negb orb].
  set (s1 := setWorld (fireLoad m (world s)) s).
  assert (HI1 : Inv s1) by (by apply Inv_alter).
  case_bool_decide as Hml.
  - by exists s1.
  - destruct (Hmd eq_refl) as (_ & _ & (lp & Hp & _) & _).
    rewrite (tsx_render_eq false true (props s) lp s1 Hp). simpl.
    destruct (committed_Inv true (props s) lp s1 HI1 Hmo Hp ltac:(done)) as [H1 H2].
    eexists. split; [done|]. done.
Qed.

(** A step that does not re-render without the partner location succeeds
    and keeps the invariant. *)
Lemma tsx_step_ok (s : State) (e : Event) :
  Inv s →
  (mounted s = true → ∀ p, e = Render p → is_Some (partnerLocation p)) →
  ∃ s', step s e = inr s' ∧ Inv s'
        ∧ mounted s' = (if e is Unmount then false else mounted s).
Proof.
  intros HI Hp. destruct e as [p | m | m z |].
  - destruct (mounted s) eqn:Hmo.
    + destruct (Hp eq_refl p eq_refl) as [lp Hlp].
      rewrite (tsx_step_Render s p lp Hmo Hlp).
      destruct (committed_Inv (mapLoaded s) p lp s HI Hmo Hlp ltac:(done)) as [H1 H2].
      eexists. split; [done|]. split; [done | congruence].
    + exists s. simpl. by rewrite Hmo.
  - by apply tsx_step_MapLoad.
  - by apply tsx_step_UserZoom.
  - by apply tsx_step_Unmount.
Qed.

Lemma tsx_step_Inv (s s' : State) (e : Event) :
  Inv s → step s e = inr s' → Inv s'.
Proof.
  intros HI Hs.
  destruct (tsx_step_ok s e HI) as (s2 & Hs2 & HI2 & _); [|congruence].
  intros Hmo p ->. destruct (partnerLocation p) eqn:E; [by eexists|].
  by rewrite (tsx_step_Render_raises s p Hmo E) in Hs.
Qed.

Lemma tsx_foldM_Inv (es : list Event) (s s' : State) :
  Inv s → foldM step s es = inr s' → Inv s'.
Proof.
  revert s. induction es as [|e es IH]; intros s HI; simpl.
  - by intros [= <-].
  - destruct (step s e) as [x | s1] eqn:Hs; [done|]. simpl.
    apply IH. by eapply tsx_step_Inv.
Qed.

Lemma tsx_run_Inv (p : DeliveryMapProps) (es : list Event) (s : State) :
  run p es = inr s → Inv s.
Proof.
  unfold run. destruct (partnerLocation p) as [lp|] eqn:E.
  - destruct (tsx_mount_ok p lp E) as (s0 & -> & HI & _). simpl.
    by apply tsx_foldM_Inv.
  - unfold mount. by rewrite tsx_render_raises.
Qed.

End TsxRuns.

Section TsxErrors.
Import MapLibre DeliveryMapTsx DeliveryMapTsxSummary.

Lemma foldM_cons_ok {A B} (f : A → B → Result A) (a a' : A) (b : B) (l : list B) :
  f a b = inr a' → foldM f a (b :: l) = foldM f a' l.
Proof. intros E. cbn [foldM]. by rewrite E. Qed.

Lemma foldM_cons_raises {A B} (f : A → B → Result A) (a : A) (b : B) (l : list B) (x : Exn) :
  f a b = inl x → foldM f a (b :: l) = inl x.
Proof. intros E. cbn [foldM]. by rewrite E. Qed.

(** Once unmounted nothing raises any more. *)
Lemma tsx_foldM_unmounted (es : list Event) (s : State) :
  Inv s → mounted s = false → ∃ s', foldM step s es = inr s'.
Proof.
  revert s. induction es as [|e es IH]; intros s HI Hmo; [by exists s|].
  destruct (tsx_step_ok s e HI) as (s1 & Hs1 & HI1 & Hmo1); [congruence|].
  rewrite (foldM_cons_ok _ _ _ _ _ Hs1). apply IH; [done|].
  rewrite Hmo1. by destruct e.
Qed.

Lemma tsx_foldM_raises (es : list Event) (s : State) :
  Inv s → mounted s = true →
  foldM step s es = inl TypeError ↔ rendersWithoutPartner es = true.
Proof.
  revert s. induction es as [|e es IH]; intros s HI Hmo; [done|].
  destruct e as [p | m | m z |].
  - cbn [rendersWithoutPartner]. destruct (partnerLocation p) as [lp|] eqn:E.
    + destruct (tsx_step_ok s (Render p) HI) as (s1 & Hs1 & HI1 & Hmo1).
      { intros _ q [= <-]. by rewrite E. }
      rewrite (foldM_cons_ok _ _ _ _ _ Hs1). cbn [truthy negb orb].
      apply IH; [done | congruence].
    + rewrite (foldM_cons_raises _ _ _ _ _ (tsx_step_Render_raises s p Hmo E)). done.
  - destruct (tsx_step_ok s (MapLoad m) HI) as (s1 & Hs1 & HI1 & Hmo1); [done|].
    rewrite (foldM_cons_ok _ _ _ _ _ Hs1). cbn [rendersWithoutPartner].
    apply IH; [done | congruence].
  - destruct (tsx_step_ok s (UserZoom m z) HI) as (s1 & Hs1 & HI1 & Hmo1); [done|].
    rewrite (foldM_cons_ok _ _ _ _ _ Hs1). cbn [rendersWithoutPartner].
    apply IH; [done | congruence].
  - destruct (tsx_step_ok s Unmount HI) as (s1 & Hs1 & HI1 & Hmo1); [done|].
    rewrite (foldM_cons_ok _ _ _ _ _ Hs1). cbn [rendersWithoutPartner].
    destruct (tsx_foldM_unmounted es s1 HI1 Hmo1) as (s2 & ->). done.
Qed.

(** X14.  With latitudes the map library accepts, delivery-map.tsx raises a
    [TypeError] exactly when some render of the mount lacks the partner
    location: the first render, or a re-render that comes before the
    unmount.  Every other sequence of renders, load signals, zooms and
    unmounts runs to a state. *)
Theorem tsx_raises_iff_partner_missing (p : DeliveryMapProps) (es : list Event) :
  validRun p es = true →
  (run p es = inl TypeError ↔ lacksPartner p es = true)
  ∧ (lacksPartner p es = false → ∃ s, run p es = inr s).
Proof.
  intros _. unfold lacksPartner. destruct (partnerLocation p) as [lp|] eqn:E.
  - destruct (tsx_mount_ok p lp E) as (s0 & Hs0 & HI & Hmo & _).
    unfold run. rewrite Hs0. cbn [truthy negb orb].
    change (inr s0 ≫= λ s, foldM step s es) with (foldM step s0 es).
    pose proof (tsx_foldM_raises es s0 HI Hmo) as Hiff.
    split; [done|]. intros Hf.
    destruct (foldM step s0 es) as [[] | s] eqn:Hr; [|by exists s].
    destruct Hiff as [Hiff _]. rewrite Hiff in Hf; done.
  - rewrite (tsx_mount_raises p es E). split; [done|]. done.
Qed.

Lemma tsx_raises_iff_partner_missing_witness :
  validRun (mkProps R1 D1 P1) [MapLoad 0; Render (mkProps R2 D1 P2); Unmount;
                               Render (mkProps R1 D1 None)] = true
  ∧ (∃ s, run (mkProps R1 D1 P1) [MapLoad 0; Render (mkProps R2 D1 P2); Unmount;
                                  Render (mkProps R1 D1 None)] = inr s)
  ∧ run (mkProps R1 D1 P1) [MapLoad 0; Render (mkProps R1 D1 None)] = inl TypeError.
Proof.
  assert (validRun (mkProps R1 D1 P1) [MapLoad 0; Render (mkProps R2 D1 P2); Unmount;
                                       Render (mkProps R1 D1 None)] = true) as Hv
    by (vm_compute; reflexivity).
  split; [exact Hv|]. split.
  - exact (proj2 (tsx_raises_iff_partner_missing _ _ Hv) ltac:(vm_compute; reflexivity)).
  - exact (proj2 (proj1 (tsx_raises_iff_partner_missing (mkProps R1 D1 P1)
                           [MapLoad 0; Render (mkProps R1 D1 None)]
                           ltac:(vm_compute; reflexivity)))
             ltac:(vm_compute; reflexivity)).
Defined.

(** X15.  Whatever happened since the mount of delivery-map.tsx, at most one
    map is not removed: exactly one while the component is mounted, the one
    the [map] ref names and the last one built, and none after the unmount.
    Every map a change of centre replaced has been removed. *)
Theorem tsx_one_live_map (p : DeliveryMapProps) (es : list Event) (s : State) :
  run p es = inr s →
  length (filter (λ o, removed o = false) (maps (world s)))
  = (if mounted s then 1 else 0)
  ∧ (mounted s = true →
     ∃ m o, map s = Some m ∧ maps (world s) !! m = Some o ∧ removed o = false
            ∧ length (maps (world s)) = S m).
Proof.
  intros Hrun. pose proof (tsx_run_Inv p es s Hrun) as [_ _ _ _ Hun Hmd].
  assert (Hnone : ∀ ms : list MapObj, Forall (λ o, removed o = true) ms →
                  filter (λ o, removed o = false) ms = []).
  { intros ms H. induction H as [|x ms Hx _ IH]; [done|].
    rewrite filter_cons_False by congruence. done. }
  destruct (mounted s) eqn:Hmo.
  - destruct (Hmd eq_refl) as (_ & _ & _ & ms & o & Hmaps & Hmap & Hrem & Hms).
    split.
    + rewrite Hmaps, filter_app, (Hnone ms Hms). simpl.
      rewrite filter_cons_True by done. done.
    + intros _. exists (length ms), o. rewrite Hmaps.
      repeat split; try done.
      * by apply list_lookup_middle.
      * rewrite length_app. simpl. lia.
  - split; [|done]. by rewrite (Hnone _ (Hun eq_refl)).
Qed.

End TsxErrors.

Section TsxCommits.
Import MapLibre DeliveryMapTsx DeliveryMapTsxSummary.

Lemma boundsOf_partner (p : DeliveryMapProps) (lp : Location) :
  partnerLocation p = Some lp → boundsOf p ≠ [].
Proof.
  intros E. unfold boundsOf. rewrite E.
  destruct (restaurantLocation p), (deliveryLocation p); done.
Qed.

Lemma boundsStep_fit (p : DeliveryMapProps) (s : State) (m : nat) :
  map s = Some m → boundsOf p ≠ [] →
  boundsStep true p s = setWorld (fitBounds m (boundsOf p) 80 15 (world s)) s.
Proof.
  intros Hm Hb. unfold boundsStep. rewrite Hm.
  set (s' := setWorld _ s). by destruct (boundsOf p).
Qed.

Lemma coords_pair (a b : Coords) : (lat a, lng a) = (lat b, lng b) ↔ a = b.
Proof. destruct a, b. simpl. split; congruence. Qed.

Lemma depsOf_partner (l : bool) (p : DeliveryMapProps) (lp : Location) :
  partnerDeps (depsOf l p lp) = (l, lat lp, lng lp).
Proof. done. Qed.

Lemma depsOf_statics (l : bool) (p q : DeliveryMapProps) (lp lq : Location) :
  (markerDeps (depsOf l p lp) = markerDeps (depsOf l q lq)
   ↔ staticCoords p = staticCoords q)
  ∧ boundsDeps (depsOf l p lp) = markerDeps (depsOf l p lp).
Proof.
  split; [|done]. unfold depsOf, staticCoords. cbn [markerDeps].
  destruct (restaurantLocation p) as [[? []]|], (restaurantLocation q) as [[? []]|],
    (deliveryLocation p) as [[? []]|], (deliveryLocation q) as [[? []]|];
    simpl; split; congruence.
Qed.

(** What the invariant says of a mounted state whose props hold [lp]. *)
Lemma Inv_mounted (s : State) (lp : Location) :
  Inv s → mounted s = true → partnerLocation (props s) = Some lp →
  lastDeps s = depsOf (mapLoaded s) (props s) lp
  ∧ mapContainer s = true ∧ cleanup s = true
  ∧ ∃ ms o, maps (world s) = ms ++ [o] ∧ map s = Some (length ms)
            ∧ removed o = false ∧ Forall (λ o, removed o = true) ms.
Proof.
  intros [_ _ _ _ _ Hmd] Hmo Hp.
  destruct (Hmd Hmo) as (Hmc & Hcl & (lp0 & Hp0 & Hld) & Hcur).
  assert (lp0 = lp) as -> by congruence. done.
Qed.

(** A re-render that changes no coordinate runs no effect. *)
Lemma committed_same (l : bool) (p : DeliveryMapProps) (lp : Location) (s : State) :
  lastDeps s = depsOf l p lp →
  committed false l p lp s = setRendered l p (depsOf l p lp) s.
Proof.
  intros Hld. rewrite committed_eq, prepared_keep by (by rewrite Hld).
  unfold effects. rewrite Hld.
  rewrite !bool_decide_eq_false_2 by (by intros H). done.
Qed.

End TsxCommits.

Section TsxFurther.
Import MapLibre DeliveryMapTsx DeliveryMapTsxSummary.

Lemma depsOf_ext (l : bool) (p q : DeliveryMapProps) (lp lq : Location) :
  partnerLocation p = Some lp → partnerLocation q = Some lq →
  coords lp = coords lq → staticCoords p = staticCoords q →
  depsOf l p lp = depsOf l q lq.
Proof.
  intros Hp Hq Hc Hs.
  pose proof (proj2 (proj1 (depsOf_statics l p q lp lq)) Hs) as Hm.
  unfold depsOf in *. cbn [markerDeps] in Hm. unfold centerOf. rewrite Hp, Hq, Hc, Hm.
  done.
Qed.

(** X16.  A re-render of delivery-map.tsx whose three locations have the
    coordinates of the previous render, none of them a zero, runs no effect,
    also when the location objects are new: nothing is called on the map
    library and the map, the markers and the refs stay as they are. *)
Theorem tsx_same_coordinates_no_effect (p : DeliveryMapProps) (es : list Event) (s : State)
    (p' : DeliveryMapProps) (lp lp' : Location) :
  run p es = inr s → mounted s = true →
  partnerLocation (props s) = Some lp → partnerLocation p' = Some lp' →
  noZero p' = true →
  coords lp' = coords lp → staticCoords p' = staticCoords (props s) →
  ∃ s', step s (Render p') = inr s'
        ∧ world s' = world s ∧ map s' = map s ∧ partnerMarker s' = partnerMarker s
        ∧ mapLoaded s' = mapLoaded s ∧ props s' = p'.
Proof.
  intros Hrun Hmo Hp Hp' _ Hc Hs.
  pose proof (tsx_run_Inv p es s Hrun) as HI.
  destruct (Inv_mounted s lp HI Hmo Hp) as (Hld & _).
  rewrite (tsx_step_Render s p' lp' Hmo Hp').
  rewrite committed_same.
  - eexists. split; [done|]. done.
  - rewrite Hld. by apply depsOf_ext.
Qed.

Lemma tsx_same_coordinates_no_effect_witness :
  ∃ s', step tsxLoaded (Render (mkProps None None (at_ 9 129000 776000))) = inr s'
        ∧ world s' = world tsxLoaded.
Proof.
  destruct (tsx_same_coordinates_no_effect (mkProps None None P1) [MapLoad 0] tsxLoaded
              (mkProps None None (at_ 9 129000 776000))
              (mkLocation 6 (mkCoords 129000%Z 776000%Z)) (mkLocation 9 (mkCoords 129000%Z 776000%Z))
              ltac:(vm_compute; reflexivity) ltac:(vm_compute; reflexivity)
              ltac:(vm_compute; reflexivity) ltac:(vm_compute; reflexivity)
              ltac:(vm_compute; reflexivity)
              ltac:(vm_compute; reflexivity) ltac:(vm_compute; reflexivity))
    as (s' & Hs & Hw & _).
  exists s'. split; [exact Hs | exact Hw].
Defined.

(** X17.  Once the map of delivery-map.tsx has loaded, a re-render that
    changes a restaurant or destination coordinate while the partner stays
    in place (at a coordinate that is not a zero), with latitudes the map
    library accepts, keeps every marker there is and builds one more marker
    for each static location the new props hold -- also for the one whose
    coordinate did not change -- on the current map; the partner marker is
    not touched, and the last call is [fitBounds] over the locations of the
    new props. *)
Theorem tsx_static_change_adds_markers (p : DeliveryMapProps) (es : list Event) (s : State)
    (p' : DeliveryMapProps) (lp lp' : Location) :
  run p es = inr s → mounted s = true → mapLoaded s = true →
  partnerLocation (props s) = Some lp → partnerLocation p' = Some lp' →
  validProps p' = true → nonZero (partnerLocation p') = true →
  coords lp' = coords lp → staticCoords p' ≠ staticCoords (props s) →
  ∃ s' m, step s (Render p') = inr s' ∧ map s = Some m ∧ map s' = Some m
          ∧ markers (world s')
            = markers (world s) ++ built restaurantEl m (restaurantLocation p')
                                ++ built deliveryEl m (deliveryLocation p')
          ∧ partnerMarker s' = partnerMarker s
          ∧ last (calls (world s')) = Some (FitBounds m (boundsOf p') 80 15).
Proof.
  intros Hrun Hmo Hml Hp Hp' _ _ Hc Hs.
  pose proof (tsx_run_Inv p es s Hrun) as HI.
  destruct (Inv_mounted s lp HI Hmo Hp) as (Hld & _ & _ & ms & o & Hmaps & Hmap & _).
  rewrite (tsx_step_Render s p' lp' Hmo Hp'). rewrite Hml.
  rewrite committed_eq.
  rewrite prepared_keep
    by (rewrite Hld, !depsOf_init by done; apply coords_pair; by rewrite Hc).
  unfold effects. rewrite Hld, Hml.
  destruct (depsOf_statics true (props s) p' lp lp') as [Hiff _].
  destruct (depsOf_statics true (props s) (props s) lp lp) as [_ Hb].
  destruct (depsOf_statics true p' p' lp' lp') as [_ Hb'].
  rewrite Hb, Hb'.
  rewrite (bool_decide_eq_true_2 (markerDeps _ ≠ markerDeps _))
    by (intros H; apply Hs; symmetry; by apply Hiff).
  rewrite (bool_decide_eq_false_2 (partnerDeps _ ≠ partnerDeps _))
    by (intros H; apply H; rewrite !depsOf_partner; by rewrite Hc).
  cbn [orb].
  destruct (markersStep_world true p' s) as [Hmaps1 Hmk1]. rewrite Hmap in Hmk1.
  destruct (markersStep_fields true p' s) as (Hmap1 & Hpk1 & _).
  rewrite (boundsStep_fit p' (markersStep true p' s) (length ms))
    by (by rewrite ?Hmap1; eauto using boundsOf_partner).
  eexists _, (length ms). split; [done|].
  cbn [setRendered setWorld world map partnerMarker fitBounds withMap markers calls maps].
  repeat split; try done; try congruence.
  by rewrite last_snoc.
Qed.

Lemma tsx_static_change_adds_markers_witness :
  ∃ s', step tsxLoaded (Render (mkProps R1 None P1)) = inr s'
        ∧ length (markers (world s')) = S (length (markers (world tsxLoaded))).
Proof.
  destruct (tsx_static_change_adds_markers (mkProps None None P1) [MapLoad 0] tsxLoaded
              (mkProps R1 None P1)
              (mkLocation 6 (mkCoords 129000%Z 776000%Z)) (mkLocation 6 (mkCoords 129000%Z 776000%Z))
              ltac:(vm_compute; reflexivity) ltac:(vm_compute; reflexivity)
              ltac:(vm_compute; reflexivity) ltac:(vm_compute; reflexivity)
              ltac:(vm_compute; reflexivity) ltac:(vm_compute; reflexivity)
              ltac:(vm_compute; reflexivity) ltac:(vm_compute; reflexivity)
              ltac:(vm_compute; discriminate))
    as (s' & m & Hs & _ & _ & Hmk & _).
  exists s'. split; [exact Hs|]. rewrite Hmk. vm_compute. reflexivity.
Defined.

Lemma tsx_step_MapLoad_first (s : State) (m : nat) (o : MapObj) (lp : Location) :
  Inv s → mounted s = true → mapLoaded s = false →
  maps (world s) !! m = Some o → loaded o = false → removed o = false →
  partnerLocation (props s) = Some lp →
  step s (MapLoad m)
  = inr (committed false true (props s) lp (setWorld (fireLoad m (world s)) s)).
Proof.
  intros [Hon _ _ _ _ _] Hmo Hml Ho Hlo Hro Hp.
  cbn [step]. rewrite Ho, Hlo, Hro. cbn [orb].
  eapply Forall_lookup_1 in Hon; [|exact Ho]. cbn beta in Hon. rewrite Hon.
  cbn [foldM listener]. unfold setMapLoaded.
  cbn [setWorld mounted mapLoaded props]. rewrite Hmo, Hml. cbn [negb orb].
  rewrite bool_decide_eq_false_2 by done.
  by rewrite (tsx_render_eq false true (props s) lp _ Hp).
Qed.

(** X18.  When the map of delivery-map.tsx signals "load" for the first
    time, the effects that were waiting run on the props of the last
    render, whose latitudes are ones the map library accepts: a marker is
    built for each static location present, then the partner marker, all
    on that map and at their coordinates; [flyTo] is called with the
    partner coordinate and then [fitBounds] over all locations, which is
    the call that comes last. *)
Theorem tsx_first_load_places_markers (p : DeliveryMapProps) (es : list Event) (s : State)
    (m : nat) :
  run p es = inr s → mounted s = true → mapLoaded s = false →
  map s = Some m → mapLoadedAt (world s) m = false →
  validProps (props s) = true →
  ∃ s' lp, partnerLocation (props s) = Some lp
    ∧ step s (MapLoad m) = inr s'
    ∧ mapLoaded s' = true ∧ props s' = props s
    ∧ markers (world s')
      = built restaurantEl m (restaurantLocation (props s))
        ++ built deliveryEl m (deliveryLocation (props s))
        ++ [mkMarker partnerEl (Some (lng lp, lat lp)) (Some m)]
    ∧ FlyTo m (trackingOptions (lng lp, lat lp)) ∈ calls (world s')
    ∧ last (calls (world s')) = Some (FitBounds m (boundsOf (props s)) 80 15).
Proof.
  intros Hrun Hmo Hml Hm Hnl _.
  pose proof (tsx_run_Inv p es s Hrun) as HI.
  pose proof HI as [_ _ _ Hq _ Hmd].
  destruct (Hmd Hmo) as (_ & _ & (lp & Hp & Hld) & ms & o & Hmaps & Hmap & Hrem & _).
  destruct (Hq Hml) as [Hmk Hpk].
  assert (m = length ms) as -> by congruence.
  assert (Ho : maps (world s) !! length ms = Some o)
    by (rewrite Hmaps; by apply list_lookup_middle).
  assert (Hlo : loaded o = false) by (unfold mapLoadedAt in Hnl; by rewrite Ho in Hnl).
  rewrite (tsx_step_MapLoad_first s (length ms) o lp HI Hmo Hml Ho Hlo Hrem Hp).
  set (s1 := setWorld (fireLoad (length ms) (world s)) s).
  rewrite committed_eq.
  rewrite prepared_keep by (cbn [s1 setWorld lastDeps]; by rewrite Hld).
  unfold effects. cbn [s1 setWorld lastDeps]. rewrite Hld, Hml.
  rewrite !bool_decide_eq_true_2 by (cbn; congruence). cbn [orb].
  fold s1.
  destruct (markersStep_world true (props s) s1) as [Hmaps2 Hmk2].
  destruct (markersStep_fields true (props s) s1) as (Hmap2 & Hpk2 & _).
  set (s2 := markersStep true (props s) s1) in *.
  cbn [s1 setWorld map world fireLoad markers partnerMarker maps] in Hmaps2, Hmk2, Hmap2, Hpk2.
  rewrite Hmap, Hmk in Hmk2. rewrite Hmap in Hmap2. rewrite Hpk in Hpk2.
  cbn [app] in Hmk2.
  pose proof (partnerStep_world true (props s) s2) as H3. cbv zeta in H3.
  rewrite Hmap2, Hp, Hpk2 in H3. destruct H3 as (Hmaps3 & Hpk3 & Hmk3 & Hcalls3).
  assert (Hmap3 : map (partnerStep true (props s) s2) = Some (length ms)).
  { destruct (partnerStep_fields true (props s) s2) as (-> & _). done. }
  set (s3 := partnerStep true (props s) s2) in *.
  rewrite (boundsStep_fit (props s) s3 (length ms) Hmap3 (boundsOf_partner _ _ Hp)).
  eexists _, lp. split; [done|]. split; [done|].
  cbn [setRendered setWorld world mapLoaded props fitBounds withMap markers calls maps].
  split; [done|]. split; [done|]. split.
  { by rewrite Hmk3, Hmk2, <- app_assoc. }
  split.
  { apply elem_of_app. left. rewrite Hcalls3. apply elem_of_app. right.
    by repeat constructor. }
  by rewrite last_snoc.
Qed.

Lemma tsx_first_load_places_markers_witness :
  ∃ s', step tsxMounted (MapLoad 0) = inr s' ∧ mapLoaded s' = true
        ∧ length (markers (world s')) = 2.
Proof.
  destruct (tsx_first_load_places_markers (mkProps R1 None P1) [] tsxMounted 0
              ltac:(vm_compute; reflexivity) ltac:(vm_compute; reflexivity)
              ltac:(vm_compute; reflexivity) ltac:(vm_compute; reflexivity)
              ltac:(vm_compute; reflexivity) ltac:(vm_compute; reflexivity))
    as (s' & lp & _ & Hs & Hml & _ & Hmk & _).
  exists s'. split; [exact Hs|]. split; [exact Hml|]. rewrite Hmk. vm_compute. reflexivity.
Defined.

Lemma effects_flies (ms : list MapObj) (p : DeliveryMapProps) (lp : Location)
    (old d : Deps) (s : State) :
  map s = Some (length ms) → partnerLocation p = Some lp →
  bool_decide (partnerDeps old ≠ partnerDeps d) = true →
  FlyTo (length ms) (trackingOptions (lng lp, lat lp))
  ∈ calls (world (effects false true p old d s)).
Proof.
  intros Hm Hp Hch. unfold effects. cbn [orb]. rewrite Hch.
  set (s1 := if bool_decide (markerDeps old ≠ markerDeps d)
             then markersStep true p s else s).
  assert (Hm1 : map s1 = Some (length ms)).
  { unfold s1. destruct (bool_decide (markerDeps old ≠ markerDeps d)); [|done].
    by destruct (markersStep_fields true p s) as (-> & _). }
  assert (H : FlyTo (length ms) (trackingOptions (lng lp, lat lp))
              ∈ calls (world (partnerStep true p s1))).
  { pose proof (partnerStep_world true p s1) as Hw. cbv zeta in Hw.
    rewrite Hm1, Hp in Hw. destruct Hw as [_ Hk].
    destruct (partnerMarker s1); destruct Hk as (_ & _ & ->);
      apply elem_of_app; right; by repeat constructor. }
  assert (Hm2 : map (partnerStep true p s1) = Some (length ms)).
  { by destruct (partnerStep_fields true p s1) as (-> & _). }
  destruct (bool_decide (boundsDeps old ≠ boundsDeps d)); [|done].
  destruct (boundsStep_extends ms true p _ Hm2) as [_ _ _ (cs & -> & _) _ _].
  apply elem_of_app. by left.
Qed.

Lemma filter_operations (cs : list Call) :
  Forall (λ c, isOperation c = true) cs →
  filter (λ c, isNewMap c = true) cs = [] ∧ filter (λ c, isRemove c = true) cs = [].
Proof.
  induction 1 as [|c cs Hc _ [IH1 IH2]]; [done|].
  rewrite !filter_cons_False by (by destruct c). done.
Qed.

(** X19.  In delivery-map.tsx every re-render that moves the partner, with
    latitudes the map library accepts, replaces the map: the current map is removed and a new one is built,
    which has not signalled "load", while [mapLoaded] keeps its value.  So
    once the first map has loaded, each partner move makes the partner
    effect call [flyTo] on a map that has not loaded. *)
Theorem tsx_partner_move_rebuilds_map (p : DeliveryMapProps) (es : list Event) (s : State)
    (p' : DeliveryMapProps) (lp lp' : Location) :
  run p es = inr s → mounted s = true →
  partnerLocation (props s) = Some lp → partnerLocation p' = Some lp' →
  validProps p' = true → coords lp' ≠ coords lp →
  ∃ s' m, step s (Render p') = inr s' ∧ map s = Some m ∧ map s' = Some (S m)
    ∧ length (maps (world s')) = S (S m)
    ∧ removed <$> maps (world s') !! m = Some true
    ∧ mapLoadedAt (world s') (S m) = false
    ∧ mapLoaded s' = mapLoaded s
    ∧ mapCreations (world s') = S (mapCreations (world s))
    ∧ mapRemovals (world s') = S (mapRemovals (world s))
    ∧ (mapLoaded s = true →
       FlyTo (S m) (trackingOptions (lng lp', lat lp')) ∈ operations (world s')
       ∧ ¬ operationsAfterLoad (world s')).
Proof.
  intros Hrun Hmo Hp Hp' _ Hc.
  pose proof (tsx_run_Inv p es s Hrun) as HI.
  destruct (Inv_mounted s lp HI Hmo Hp)
    as (Hld & Hmc & Hcl & ms & o & Hmaps & Hmap & Hrem & Hms).
  rewrite (tsx_step_Render s p' lp' Hmo Hp'). rewrite committed_eq.
  set (d := depsOf (mapLoaded s) p' lp').
  assert (Hdiff : initDeps (lastDeps s) ≠ initDeps d).
  { unfold d. rewrite Hld, !depsOf_init by done. intros H.
    apply coords_pair in H. congruence. }
  destruct (prepared_again p' d s ms o Hdiff Hcl Hmc Hmaps Hmap)
    as (Hmaps1 & Hmap1 & Hcalls1 & _).
  cbv zeta in Hmaps1, Hmap1, Hcalls1.
  set (s1 := prepared false p' d s) in *.
  set (ms1 := ms ++ [mkMap (camCenter o) (camZoom o) (controls o) (onLoad o) (loaded o) true])
    in *.
  assert (Hlen : length ms1 = S (length ms))
    by (unfold ms1; rewrite length_app; simpl; lia).
  rewrite <- Hlen in Hmap1.
  pose proof (effects_extends ms1 false (mapLoaded s) p' (lastDeps s) d s1 Hmap1)
    as [Hem Her _ (cs & Hcs & Hops) _ _].
  destruct (Hem _ Hmaps1) as (o' & Hmaps2 & Hfl).
  unfold flags in Hfl. injection Hfl as Hf1 Hf2 Hf3. cbn in Hf2.
  assert (Hnl : mapLoadedAt (world (effects false (mapLoaded s) p' (lastDeps s) d s1))
                  (S (length ms)) = false).
  { unfold mapLoadedAt. rewrite Hmaps2, <- Hlen, list_lookup_middle by done. done. }
  destruct (filter_operations cs Hops) as [Hn1 Hn2].
  eexists _, (length ms). split; [done|].
  cbn [setRendered world map mapLoaded].
  split; [done|]. split; [congruence|]. split.
  { rewrite Hmaps2, length_app, Hlen. simpl. lia. }
  split.
  { rewrite Hmaps2, lookup_app_l by lia. unfold ms1.
    by rewrite list_lookup_middle. }
  split; [done|]. split; [done|]. split.
  { unfold mapCreations. rewrite Hcs, Hcalls1, !filter_app, Hn1, !length_app.
    repeat first [rewrite filter_cons_True by done | rewrite filter_cons_False by done].
    rewrite filter_nil. simpl. lia. }
  split.
  { unfold mapRemovals. rewrite Hcs, Hcalls1, !filter_app, Hn2, !length_app.
    repeat first [rewrite filter_cons_True by done | rewrite filter_cons_False by done].
    rewrite filter_nil. simpl. lia. }
  intros Hml.
  assert (Hfly : FlyTo (S (length ms)) (trackingOptions (lng lp', lat lp'))
                 ∈ operations (world (effects false (mapLoaded s) p' (lastDeps s) d s1))).
  { unfold operations. apply list_elem_of_filter. split; [done|].
    rewrite Hml, <- Hlen. apply effects_flies; [done | done |].
    apply bool_decide_eq_true_2. unfold d. rewrite Hld, !depsOf_partner.
    intros [= H1 H2]. apply Hc. apply coords_pair. congruence. }
  split; [done|].
  intros Hall. specialize (Hall _ (S (length ms)) Hfly eq_refl). congruence.
Qed.

Lemma tsx_partner_move_rebuilds_map_witness :
  ∃ s', step tsxLoaded (Render (mkProps None None P2)) = inr s'
        ∧ map s' = Some 1 ∧ ¬ operationsAfterLoad (world s').
Proof.
  destruct (tsx_partner_move_rebuilds_map (mkProps None None P1) [MapLoad 0] tsxLoaded
              (mkProps None None P2)
              (mkLocation 6 (mkCoords 129000%Z 776000%Z))
              (mkLocation 7 (mkCoords 129100%Z 776100%Z))
              ltac:(vm_compute; reflexivity) ltac:(vm_compute; reflexivity)
              ltac:(vm_compute; reflexivity) ltac:(vm_compute; reflexivity)
              ltac:(vm_compute; reflexivity) ltac:(vm_compute; discriminate))
    as (s' & m & Hs & Hm & Hm' & _ & _ & _ & _ & _ & _ & Hop).
  exists s'. split; [exact Hs|].
  assert (m = 0) as -> by (vm_compute in Hm; congruence).
  split; [exact Hm'|]. apply Hop. vm_compute. reflexivity.
Defined.

Lemma partnerStep_false (p : DeliveryMapProps) (s : State) : partnerStep false p s = s.
Proof. unfold partnerStep. by destruct (map s). Qed.

(** X20.  In delivery-map.tsx a re-render that moves the partner and
    changes no static coordinate (none of them a zero, the latitudes ones
    the map library accepts) leaves no marker on the map that is shown: the map is replaced, no marker is built, and the markers there
    are -- the partner marker included, which is only repositioned -- stay
    on maps that have been removed. *)
Theorem tsx_partner_move_loses_markers (p : DeliveryMapProps) (es : list Event) (s : State)
    (p' : DeliveryMapProps) (lp lp' : Location) :
  run p es = inr s → mounted s = true →
  partnerLocation (props s) = Some lp → partnerLocation p' = Some lp' →
  validProps p' = true → noZero p' = true →
  coords lp' ≠ coords lp → staticCoords p' = staticCoords (props s) →
  ∃ s', step s (Render p') = inr s'
    ∧ length (markers (world s')) = length (markers (world s))
    ∧ partnerMarker s' = partnerMarker s
    ∧ ∀ r, liveMarkersOf r (world s') = [].
Proof.
  intros Hrun Hmo Hp Hp' _ _ Hc Hst.
  pose proof (tsx_run_Inv p es s Hrun) as HI.
  pose proof HI as [_ Hbd Hpk Hq _ _].
  destruct (Inv_mounted s lp HI Hmo Hp)
    as (Hld & Hmc & Hcl & ms & o & Hmaps & Hmap & Hrem & Hms).
  rewrite (tsx_step_Render s p' lp' Hmo Hp'). rewrite committed_eq.
  set (d := depsOf (mapLoaded s) p' lp').
  assert (Hdiff : initDeps (lastDeps s) ≠ initDeps d).
  { unfold d. rewrite Hld, !depsOf_init by done. intros H.
    apply coords_pair in H. congruence. }
  destruct (prepared_again p' d s ms o Hdiff Hcl Hmc Hmaps Hmap)
    as (Hmaps1 & Hmap1 & _ & Hmk1 & Hpk1 & _).
  cbv zeta in Hmaps1, Hmap1, Hmk1, Hpk1.
  set (s1 := prepared false p' d s) in *.
  set (ms1 := ms ++ [mkMap (camCenter o) (camZoom o) (controls o) (onLoad o) (loaded o) true])
    in *.
  assert (Hlen : length ms1 = S (length ms))
    by (unfold ms1; rewrite length_app; simpl; lia).
  assert (Hms1 : Forall (λ o, removed o = true) ms1).
  { unfold ms1. apply Forall_app. split; [done|]. by repeat constructor. }
  rewrite Hmaps, length_app in Hbd. simpl in Hbd. rewrite Nat.add_1_r, <- Hlen in Hbd.
  destruct (depsOf_statics (mapLoaded s) (props s) p' lp lp') as [Hiff _].
  unfold effects. unfold d at 1 2 3. rewrite Hld.
  rewrite (bool_decide_eq_false_2 (markerDeps _ ≠ markerDeps _))
    by (intros H; apply H; by apply Hiff).
  rewrite (bool_decide_eq_true_2 (partnerDeps _ ≠ partnerDeps _))
    by (rewrite !depsOf_partner; intros [= H1 H2]; apply Hc; apply coords_pair; congruence).
  rewrite (bool_decide_eq_false_2 (boundsDeps _ ≠ boundsDeps _))
    by (intros H; apply H; by apply Hiff).
  cbn [orb].
  assert (Hshape : ∃ o', maps (world (partnerStep (mapLoaded s) p' s1)) = ms1 ++ [o']
            ∧ bounded (length ms1) (markers (world (partnerStep (mapLoaded s) p' s1)))
            ∧ length (markers (world (partnerStep (mapLoaded s) p' s1)))
              = length (markers (world s))
            ∧ partnerMarker (partnerStep (mapLoaded s) p' s1) = partnerMarker s).
  { destruct (mapLoaded s) eqn:Hml.
    - destruct (Hpk eq_refl) as [k Hk].
      pose proof (partnerStep_world true p' s1) as Hw. cbv zeta in Hw.
      rewrite Hmap1, Hp', Hpk1, Hk in Hw. destruct Hw as (Hmaps2 & Hpk2 & Hmk2 & _).
      eexists. rewrite Hmaps2, Hmk2, Hmaps1, <- Hlen, alter_snoc, Hmk1.
      split; [done|]. split; [by apply bounded_alter|].
      split; [by rewrite length_alter | congruence].
    - rewrite partnerStep_false. eexists. split; [exact Hmaps1|].
      rewrite Hmk1, Hpk1. done. }
  destruct Hshape as (o' & Hmaps2 & Hbd2 & Hlen2 & Hpk2).
  eexists. split; [done|]. cbn [setRendered world partnerMarker].
  split; [done|]. split; [done|].
  intros r. apply elem_of_nil_inv. intros x Hx.
  apply list_elem_of_filter in Hx as [Hpl Hx].
  apply list_elem_of_filter in Hx as [_ Hin].
  unfold bounded in Hbd2. rewrite Forall_forall in Hbd2.
  destruct (Hbd2 x Hin) as (j & Hj & Hlt).
  unfold placed in Hpl. rewrite Hj, Hmaps2, lookup_app_l in Hpl by done.
  destruct (lookup_lt_is_Some_2 ms1 j Hlt) as [oj Hoj]. rewrite Hoj in Hpl.
  eapply Forall_lookup_1 in Hms1; [|exact Hoj]. cbn beta in Hms1.
  by rewrite Hms1 in Hpl.
Qed.

Lemma tsx_partner_move_loses_markers_witness :
  ∃ s', step tsxLoaded (Render (mkProps None None P2)) = inr s'
        ∧ liveMarkersOf partner (world s') = [].
Proof.
  destruct (tsx_partner_move_loses_markers (mkProps None None P1) [MapLoad 0] tsxLoaded
              (mkProps None None P2)
              (mkLocation 6 (mkCoords 129000%Z 776000%Z))
              (mkLocation 7 (mkCoords 129100%Z 776100%Z))
              ltac:(vm_compute; reflexivity) ltac:(vm_compute; reflexivity)
              ltac:(vm_compute; reflexivity) ltac:(vm_compute; reflexivity)
              ltac:(vm_compute; reflexivity) ltac:(vm_compute; reflexivity)
              ltac:(vm_compute; discriminate) ltac:(vm_compute; reflexivity))
    as (s' & Hs & _ & _ & Hlive).
  exists s'. split; [exact Hs | exact (Hlive partner)].
Defined.

Lemma tsx_one_live_map_witness :
  run (mkProps None None P1) [MapLoad 0] = inr tsxLoaded
  ∧ length (filter (λ o, removed o = false) (maps (world tsxLoaded))) = 1.
Proof.
  assert (run (mkProps None None P1) [MapLoad 0] = inr tsxLoaded) as Hrun
    by (vm_compute; reflexivity).
  split; [exact Hrun|].
  exact (proj1 (tsx_one_live_map _ _ _ Hrun)).
Defined.

End TsxFurther.

(** * C3, amended *)

Section TsxTracking.
Import MapLibre DeliveryMapTsx DeliveryMapTsxSummary.


End TsxTracking.

Section PartnerUpdates.
Import MapLibre.



End PartnerUpdates.
